(** * SIMD runtime functions of V8 (deps/v8/src/runtime/runtime-simd.cc)

    A shallow embedding of the runtime functions that implement the SIMD.js
    operations, and the properties of the specification checked against it.

    Conventions of the embedding.
    - A C++ integer of width [w] is a [Z]; narrowing conversions and
      bit casts are written out ([static_cast_int], [bit_cast_uint]).
    - A [float] is its IEEE-754 binary32 bit pattern, a 32-bit [Z]; the
      comparison operators of C++ are those of the Standard Library's
      [SpecFloat] on the decoded value.
    - A [Simd128Value] is its kind tag ([map]) and its 128 bits of storage;
      lane [i] of a kind with [w]-bit lanes is bits [w*i .. w*i+w-1].
    - A runtime function returns [result]: a value, or the error it throws. *)

From Stdlib Require Import ZArith List Bool Lia QArith Eqdep_dec.
From Stdlib Require Import Floats.SpecFloat.
Import ListNotations.
Local Open Scope Z_scope.

(** ** Fixed-width integers *)

(** [bit_cast<uintN_t>(x)], and the value an N-bit slot holds. *)
Definition bit_cast_uint (w x : Z) : Z := x mod 2 ^ w.

(** [static_cast<intN_t>(x)]: two's-complement narrowing to [w] bits. *)
Definition static_cast_int (w x : Z) : Z :=
  let u := x mod 2 ^ w in
  if u <? 2 ^ (w - 1) then u else u - 2 ^ w.

(** [std::numeric_limits<intN_t>::max()] and [min()]. *)
Definition numeric_limits_max (w : Z) : Z := 2 ^ (w - 1) - 1.
Definition numeric_limits_min (w : Z) : Z := - 2 ^ (w - 1).

Definition in_int_range (w x : Z) : Prop :=
  numeric_limits_min w <= x <= numeric_limits_max w.

(** ** binary32 floats as bit patterns *)

Module Float32.

(** IEEE-754 binary32: 24 bits of precision, exponents up to 128. *)
Definition prec : Z := 24.
Definition emax : Z := 128.

(** [std::signbit(a)]. *)
Definition signbit (a : Z) : bool := Z.testbit a 31.
Definition exponent_field (a : Z) : Z := Z.land (Z.shiftr a 23) 255.
Definition fraction_field (a : Z) : Z := Z.land a (2 ^ 23 - 1).

(** [std::isnan(a)]. *)
Definition isnan (a : Z) : bool :=
  (exponent_field a =? 255) && negb (fraction_field a =? 0).

Definition is_zero (a : Z) : bool :=
  (exponent_field a =? 0) && (fraction_field a =? 0).

(** The value a bit pattern denotes. *)
Definition to_spec (a : Z) : spec_float :=
  let s := signbit a in
  let e := exponent_field a in
  let m := fraction_field a in
  if e =? 0 then
    if m =? 0 then S754_zero s else S754_finite s (Z.to_pos m) (-149)
  else if e =? 255 then
    if m =? 0 then S754_infinity s else S754_nan
  else S754_finite s (Z.to_pos (m + 2 ^ 23)) (e - 150).

(** The bit pattern of a value; [S754_nan] is given the quiet NaN. *)
Definition of_spec (f : spec_float) : Z :=
  let sign (s : bool) := if s then 2 ^ 31 else 0 in
  match f with
  | S754_zero s => sign s
  | S754_infinity s => sign s + 255 * 2 ^ 23
  | S754_nan => 255 * 2 ^ 23 + 2 ^ 22
  | S754_finite s m e =>
      if Z.pos m <? 2 ^ 23 then sign s + Z.pos m
      else sign s + (e + 150) * 2 ^ 23 + (Z.pos m - 2 ^ 23)
  end.

(** The comparison operators [a < b], [a > b] and [a == b] of C++. *)
Definition lt (a b : Z) : bool :=
  match SFcompare (to_spec a) (to_spec b) with Some Lt => true | _ => false end.
Definition gt (a b : Z) : bool :=
  match SFcompare (to_spec a) (to_spec b) with Some Gt => true | _ => false end.
Definition eq (a b : Z) : bool :=
  match SFcompare (to_spec a) (to_spec b) with Some Eq => true | _ => false end.

(** [std::numeric_limits<float>::quiet_NaN()]. *)
Definition quiet_NaN : Z := 0x7FC00000.

Definition positive_zero : Z := 0.
Definition negative_zero : Z := 0x80000000.

(** [std::abs(a)] clears the sign bit. *)
Definition abs (a : Z) : Z := Z.land a 0x7FFFFFFF.

(** [static_cast<float>(n)] for an [int32_t]: round to nearest, ties to
    even. *)
Definition of_int32 (n : Z) : Z :=
  of_spec (binary_normalize prec emax n 0 false).

(** [static_cast<int32_t>(a)]: truncation towards zero.  C++ leaves the
    conversion of a NaN or of a value outside the range undefined; the
    callers below guard it with [CanCast]. *)
Definition to_int32 (a : Z) : Z :=
  match to_spec a with
  | S754_finite s m e =>
      let magnitude := if 0 <=? e then Z.pos m * 2 ^ e else Z.pos m / 2 ^ (- e) in
      static_cast_int 32 (if s then - magnitude else magnitude)
  | _ => 0
  end.

(** The significand and its scale: a pattern that is not a NaN has the
    magnitude [significand * 2^scale] in units of [2^-149], the implicit
    leading bit added when the exponent field is not zero. *)
Definition significand (a : Z) : Z :=
  if exponent_field a =? 0 then fraction_field a else fraction_field a + 2 ^ 23.

Definition scale (a : Z) : Z :=
  if exponent_field a =? 0 then 0 else exponent_field a - 1.

(** The integer [n] with value [n * 2^-149], for a finite pattern: every
    finite binary32 value is such a multiple.  (An infinity is given the
    magnitude [2^277], beyond every finite one.) *)
Definition scaled (a : Z) : Z :=
  let magnitude := significand a * 2 ^ scale a in
  if signbit a then - magnitude else magnitude.

(** The real value of a pattern, when it is finite. *)
Definition value (a : Z) : option Q :=
  if exponent_field a =? 255 then None
  else Some (Qmake (scaled a) (2 ^ 149)).

(** The operators [a <= b], [a >= b] and [a != b] of C++, and the unary
    minus, which flips the sign bit. *)
Definition le (a b : Z) : bool :=
  match SFcompare (to_spec a) (to_spec b) with
  | Some Lt | Some Eq => true
  | _ => false
  end.

Definition ge (a b : Z) : bool :=
  match SFcompare (to_spec a) (to_spec b) with
  | Some Gt | Some Eq => true
  | _ => false
  end.

Definition ne (a b : Z) : bool := negb (eq a b).

Definition neg (a : Z) : Z := Z.lxor a 0x80000000.

End Float32.

(** ** Vector kinds *)

(** The seven SIMD types of [SIMD_ALL_TYPES]. *)
Inductive Kind : Type :=
| Float32x4 | Int32x4 | Bool32x4 | Int16x8 | Bool16x8 | Int8x16 | Bool8x16.

Definition Kind_eq_dec (a b : Kind) : {a = b} + {a <> b}.
Proof. decide equality. Defined.

Definition Kind_eqb (a b : Kind) : bool :=
  if Kind_eq_dec a b then true else false.

(** The [lane_count] column of [SIMD_ALL_TYPES]. *)
Definition lane_count (type : Kind) : Z :=
  match type with
  | Float32x4 | Int32x4 | Bool32x4 => 4
  | Int16x8 | Bool16x8 => 8
  | Int8x16 | Bool8x16 => 16
  end.

(** The width of a lane's slot in the 128 bits of storage (the [lane_bits]
    column of [SIMD_INT_TYPES] for the integer kinds). *)
Definition lane_bits (type : Kind) : Z :=
  match type with
  | Float32x4 | Int32x4 | Bool32x4 => 32
  | Int16x8 | Bool16x8 => 16
  | Int8x16 | Bool8x16 => 8
  end.

(** The [lane_type] column: a [float] is carried as its bit pattern, an
    [intN_t] as its value, a [bool] as a [bool]. *)
Definition lane_t (type : Kind) : Type :=
  match type with
  | Bool32x4 | Bool16x8 | Bool8x16 => bool
  | _ => Z
  end.

Definition zero_lane (type : Kind) : lane_t type :=
  match type with
  | Bool32x4 | Bool16x8 | Bool8x16 => false
  | _ => 0
  end.

Definition is_bool_kind (type : Kind) : bool :=
  match type with
  | Bool32x4 | Bool16x8 | Bool8x16 => true
  | _ => false
  end.

(** [SIMD_NUMERIC_TYPES], [SIMD_INT_TYPES], [SIMD_SMALL_INT_TYPES]. *)
Definition SIMD_NUMERIC_TYPES : list Kind := [Float32x4; Int32x4; Int16x8; Int8x16].
Definition SIMD_INT_TYPES : list Kind := [Int32x4; Int16x8; Int8x16].
Definition SIMD_SMALL_INT_TYPES : list Kind := [Int16x8; Int8x16].
Definition SIMD_ALL_TYPES : list Kind :=
  [Float32x4; Int32x4; Bool32x4; Int16x8; Bool16x8; Int8x16; Bool8x16].

(** The loop [for (int i = 0; i < n; i++)] visits these indices. *)
Definition lane_indices (n : Z) : list Z :=
  List.map Z.of_nat (seq 0 (Z.to_nat n)).

(** [lanes[i]] of a local array, and the assignment [lanes[i] = x]. *)
Definition array_get {A : Type} (default : A) (lanes : list A) (i : Z) : A :=
  nth (Z.to_nat i) lanes default.

Fixpoint array_set_nat {A : Type} (lanes : list A) (i : nat) (x : A) : list A :=
  match lanes, i with
  | [], _ => []
  | _ :: rest, O => x :: rest
  | y :: rest, S j => y :: array_set_nat rest j x
  end.

Definition array_set {A : Type} (lanes : list A) (i : Z) (x : A) : list A :=
  array_set_nat lanes (Z.to_nat i) x.

(** ** The 128-bit value *)

Module Simd128Value.

Definition is_uint128 (x : Z) : bool := (0 <=? x) && (x <? 2 ^ 128).

(** Modelled from the spec: the class [Simd128Value] and its subclasses are
    declared in [src/objects.h], outside this file.  The spec (sections 3
    and 9) has a vector as a kind and 128 bits of storage read under the
    kind's lane layout; [map] is the type tag the runtime compares. *)
Record t : Type := mk {
  map : Kind;
  bits : Z;
  bits_range : is_uint128 bits = true
}.

Lemma is_uint128_mod (x : Z) : is_uint128 (x mod 2 ^ 128) = true.
Proof.
  unfold is_uint128.
  pose proof (Z.mod_pos_bound x (2 ^ 128) ltac:(lia)).
  apply andb_true_intro; split; [apply Z.leb_le | apply Z.ltb_lt]; lia.
Qed.

Definition of_bits (type : Kind) (x : Z) : t :=
  mk type (x mod 2 ^ 128) (is_uint128_mod x).

(** The slot of lane [i] under a layout of [w]-bit lanes: lane 0 is the
    lowest bits, as the lanes lie in memory on a little-endian host. *)
Definition slot (w : Z) (a : t) (i : Z) : Z :=
  Z.land (Z.shiftr (bits a) (w * i)) (Z.ones w).

(** The storage that holds the given slots, lane 0 lowest. *)
Fixpoint pack (w : Z) (slots : list Z) : Z :=
  match slots with
  | [] => 0
  | s :: rest => bit_cast_uint w s + 2 ^ w * pack w rest
  end.

(** Modelled from the spec: [Float32x4::get_lane] ([src/objects-inl.h],
    outside this file) reads the lane's 32 bits as a float. *)
Definition get_lane_float (a : t) (i : Z) : Z := slot 32 a i.

(** Modelled from the spec: [get_lane] of an integer kind reads the lane's
    slot as a signed integer of the lane width. *)
Definition get_lane_int (type : Kind) (a : t) (i : Z) : Z :=
  static_cast_int (lane_bits type) (slot (lane_bits type) a i).

(** Modelled from the spec: [get_lane] of a boolean kind; a boolean lane
    occupies a lane-width slot and reads as true when the slot is not
    zero. *)
Definition get_lane_bool (type : Kind) (a : t) (i : Z) : bool :=
  negb (slot (lane_bits type) a i =? 0).

(** Modelled from the spec: [a->get_lane(i)] for [a] cast to the class of
    [type], by the rows of [SIMD_ALL_TYPES]. *)
Definition get_lane (type : Kind) (a : t) (i : Z) : lane_t type :=
  match type as k return lane_t k with
  | Float32x4 => get_lane_float a i
  | Int32x4 => get_lane_int Int32x4 a i
  | Int16x8 => get_lane_int Int16x8 a i
  | Int8x16 => get_lane_int Int8x16 a i
  | Bool32x4 => get_lane_bool Bool32x4 a i
  | Bool16x8 => get_lane_bool Bool16x8 a i
  | Bool8x16 => get_lane_bool Bool8x16 a i
  end.

(** Modelled from the spec: the slot a boolean lane is stored as, all ones
    for true and zero for false (any slot that is not zero reads back as
    true). *)
Definition slot_of_bool (w : Z) (b : bool) : Z := if b then Z.ones w else 0.

(** Modelled from the spec: the slot a lane value is stored as, a float or
    an integer by its bits. *)
Definition slot_of (type : Kind) : lane_t type -> Z :=
  match type as k return lane_t k -> Z with
  | Bool32x4 => slot_of_bool 32
  | Bool16x8 => slot_of_bool 16
  | Bool8x16 => slot_of_bool 8
  | Float32x4 | Int32x4 => bit_cast_uint 32
  | Int16x8 => bit_cast_uint 16
  | Int8x16 => bit_cast_uint 8
  end.

(** Modelled from the spec: [factory()->New<type>(lanes)] builds the
    vector of kind [type] whose lanes are the [lane_count] entries of the
    array. *)
Definition New_slots (type : Kind) (slots : list Z) : t :=
  of_bits type
    (pack (lane_bits type)
       (List.map (array_get 0 slots) (lane_indices (lane_count type)))).

(** Modelled from the spec: [New<type>(lanes)] for an integer kind, from an
    array of integers. *)
Definition New_int (type : Kind) (lanes : list Z) : t := New_slots type lanes.

(** Modelled from the spec: [New<type>(lanes)] from an array of the kind's
    lane type. *)
Definition New (type : Kind) (lanes : list (lane_t type)) : t :=
  New_slots type (List.map (slot_of type) lanes).

(** Modelled from the spec: [BitwiseEquals] holds iff every bit of the
    128-bit representation matches. *)
Definition BitwiseEquals (a b : t) : bool := bits a =? bits b.

(** Modelled from the spec: [CopyBits(lanes)] copies the 128 bits into an
    array of the destination's lane type, with no value transformation:
    entry [i] is what lane [i] reads as under the destination's layout. *)
Definition CopyBits (to_type : Kind) (a : t) : list (lane_t to_type) :=
  List.map (get_lane to_type a) (lane_indices (lane_count to_type)).

(** A lane value as the vector stores it and reads it back: a float's 32
    bits, an integer narrowed to the lane width, a boolean itself. *)
Definition stored (type : Kind) : lane_t type -> lane_t type :=
  match type as k return lane_t k -> lane_t k with
  | Float32x4 => bit_cast_uint 32
  | Int32x4 => static_cast_int 32
  | Int16x8 => static_cast_int 16
  | Int8x16 => static_cast_int 8
  | Bool32x4 | Bool16x8 | Bool8x16 => fun b => b
  end.

(** The lanes of a vector, in order. *)
Definition lanes_of (type : Kind) (a : t) : list (lane_t type) :=
  List.map (get_lane type a) (lane_indices (lane_count type)).

End Simd128Value.

Abbreviation Simd128Value := Simd128Value.t.

(** ** Results and errors *)

Inductive Error : Type := TypeError | RangeError.

Inductive result (A : Type) : Type :=
| Ok (a : A)
| Throw (e : Error).

Arguments Ok {A} a.
Arguments Throw {A} e.

Definition bind {A B : Type} (r : result A) (k : A -> result B) : result B :=
  match r with
  | Ok a => k a
  | Throw e => Throw e
  end.

Declare Scope result_scope.
Delimit Scope result_scope with result.
Notation "x <- r ;; k" := (bind r (fun x => k))
  (at level 61, r at next level, right associativity) : result_scope.
Notation "r ;; k" := (bind r (fun _ => k))
  (at level 61, right associativity) : result_scope.
Local Open Scope result_scope.

(** A loop over the lanes whose body may return early with an error: the
    entries are computed in order and the first error ends the loop. *)
Fixpoint for_each {A B : Type} (body : A -> result B) (l : list A)
  : result (list B) :=
  match l with
  | [] => Ok []
  | i :: rest =>
      x <- body i ;;
      xs <- for_each body rest ;;
      Ok (x :: xs)
  end.

(** Modelled from the spec: the macro [RUNTIME_ASSERT] is defined in
    [src/runtime/runtime-utils.h], outside this file.  It leaves the runtime
    function with an error when the condition fails; the spec (section 7)
    names the error of a failed operand-kind check [TypeError] and that of a
    failed index or cast check [RangeError]. *)
Definition RUNTIME_ASSERT (e : Error) (value : bool) : result unit :=
  if value then Ok tt else Throw e.

(** Modelled from the spec: the macro [CONVERT_ARG_HANDLE_CHECKED(type, a,
    index)] is defined in [src/runtime/runtime-utils.h], outside this file.
    The argument must be a vector of kind [type]; the spec (sections 4.2 and
    7) has the operation fail with [TypeError] otherwise. *)
Definition CONVERT_ARG_HANDLE_CHECKED (type : Kind) (a : Simd128Value)
  : result Simd128Value :=
  RUNTIME_ASSERT TypeError (Kind_eqb (Simd128Value.map a) type) ;;
  Ok a.

(** [CONVERT_SIMD_LANE_ARG_CHECKED(name, index, lanes)], for an argument that
    [CONVERT_INT32_ARG_CHECKED] has read as the integer [name]:
    [RUNTIME_ASSERT(name >= 0 && name < lanes)]. *)
Definition CONVERT_SIMD_LANE_ARG_CHECKED (name lanes : Z) : result Z :=
  RUNTIME_ASSERT RangeError ((0 <=? name) && (name <? lanes)) ;;
  Ok name.

(** [CONVERT_SHIFT_ARG_CHECKED(name, index)], for an argument that [ToInt32]
    has read as [signed_shift]: [bit_cast<uint32_t>(signed_shift)]. *)
Definition CONVERT_SHIFT_ARG_CHECKED (signed_shift : Z) : Z :=
  bit_cast_uint 32 signed_shift.

(** [SIMD_UNARY_OP] and [SIMD_BINARY_OP]. *)
Definition SIMD_UNARY_OP (type : Kind) (op : lane_t type -> lane_t type)
  (a : Simd128Value) : result Simd128Value :=
  a <- CONVERT_ARG_HANDLE_CHECKED type a ;;
  let lanes :=
    List.map (fun i => op (Simd128Value.get_lane type a i))
      (lane_indices (lane_count type)) in
  Ok (Simd128Value.New type lanes).

Definition SIMD_BINARY_OP (type : Kind)
  (op : lane_t type -> lane_t type -> lane_t type)
  (a b : Simd128Value) : result Simd128Value :=
  a <- CONVERT_ARG_HANDLE_CHECKED type a ;;
  b <- CONVERT_ARG_HANDLE_CHECKED type b ;;
  let lanes :=
    List.map
      (fun i => op (Simd128Value.get_lane type a i) (Simd128Value.get_lane type b i))
      (lane_indices (lane_count type)) in
  Ok (Simd128Value.New type lanes).

(** ** Lane functions *)

(** [AddSaturate<T>] and [SubSaturate<T>] for [T] the [w]-bit integer type;
    the operands are promoted to [int] and the sum is an [int32_t]. *)
Definition AddSaturate (w : Z) (a b : Z) : Z :=
  let max := numeric_limits_max w in
  let min := numeric_limits_min w in
  let result := static_cast_int 32 (a + b) in
  if result >? max then max
  else if result <? min then min
  else static_cast_int w result.

Definition SubSaturate (w : Z) (a b : Z) : Z :=
  let max := numeric_limits_max w in
  let min := numeric_limits_min w in
  let result := static_cast_int 32 (a - b) in
  if result >? max then max
  else if result <? min then min
  else static_cast_int w result.

Definition Min (a b : Z) : Z :=
  if Float32.lt a b then a
  else if Float32.gt a b then b
  else if Float32.eq a b then (if Float32.signbit a then a else b)
  else Float32.quiet_NaN.

Definition Max (a b : Z) : Z :=
  if Float32.gt a b then a
  else if Float32.lt a b then b
  else if Float32.eq a b then (if Float32.signbit b then a else b)
  else Float32.quiet_NaN.

(** The two overloads of [CanCast]; the [int32_t] limits are converted to
    [float] for the comparisons. *)
Definition CanCast_int32 (a : Z) : bool := true.

Definition CanCast_float (a : Z) : bool :=
  Float32.gt a (Float32.of_int32 (numeric_limits_min 32))
  && Float32.lt a (Float32.of_int32 (numeric_limits_max 32)).

(** ** Runtime functions *)

Module Float32x4.

(** Modelled from the spec: the methods [SameValue] and [SameValueZero] of
    [Float32x4] are defined in [src/objects.cc], outside this file.  The
    spec (section 4.3) has them compare lane by lane with the float
    SameValue semantics, NaN equal to NaN and +0 distinct from -0.  This is
    one lane of [SameValue]. *)
Definition SameValue_lane (x y : Z) : bool :=
  (Float32.isnan x && Float32.isnan y)
  || (Float32.eq x y && Bool.eqb (Float32.signbit x) (Float32.signbit y)).

(** Modelled from the spec: one lane of [Float32x4::SameValueZero], the
    same as SameValue except that +0 and -0 are equal. *)
Definition SameValueZero_lane (x y : Z) : bool :=
  (Float32.isnan x && Float32.isnan y) || Float32.eq x y.

(** Modelled from the spec: [Float32x4::SameValue] compares the four lanes. *)
Definition SameValue (a b : Simd128Value) : bool :=
  forallb
    (fun i => SameValue_lane (Simd128Value.get_lane_float a i)
                (Simd128Value.get_lane_float b i))
    (lane_indices 4).

(** Modelled from the spec: [Float32x4::SameValueZero] compares the four
    lanes. *)
Definition SameValueZero (a b : Simd128Value) : bool :=
  forallb
    (fun i => SameValueZero_lane (Simd128Value.get_lane_float a i)
                (Simd128Value.get_lane_float b i))
    (lane_indices 4).

End Float32x4.

(** [Runtime_SimdSameValue(a, args[1])]: the first argument is a vector of
    any kind ([CONVERT_ARG_HANDLE_CHECKED(Simd128Value, a, 0)]); the second is
    of unknown type, [None] when it is not a SIMD value. *)
Definition Runtime_SimdSameValue (a : Simd128Value) (arg1 : option Simd128Value)
  : result bool :=
  let result :=
    match arg1 with
    | Some b =>
        if Kind_eqb (Simd128Value.map a) (Simd128Value.map b) then
          if Kind_eqb (Simd128Value.map a) Float32x4
          then Float32x4.SameValue a b
          else Simd128Value.BitwiseEquals a b
        else false
    | None => false
    end in
  Ok result.

Definition Runtime_SimdSameValueZero (a : Simd128Value) (arg1 : option Simd128Value)
  : result bool :=
  let result :=
    match arg1 with
    | Some b =>
        if Kind_eqb (Simd128Value.map a) (Simd128Value.map b) then
          if Kind_eqb (Simd128Value.map a) Float32x4
          then Float32x4.SameValueZero a b
          else Simd128Value.BitwiseEquals a b
        else false
    | None => false
    end in
  Ok result.

(** What the factory boxes a lane as: [NewNumber] of a float or of an
    integer, or [ToBoolean]. *)
Inductive Value : Type :=
| NewNumber_float (a : Z)
| NewNumber_int (n : Z)
| ToBoolean (b : bool).

(** The [extract] column of [SIMD_ALL_TYPES]. *)
Definition extract (type : Kind) : lane_t type -> Value :=
  match type as k return lane_t k -> Value with
  | Float32x4 => NewNumber_float
  | Int32x4 | Int16x8 | Int8x16 => NewNumber_int
  | Bool32x4 | Bool16x8 | Bool8x16 => ToBoolean
  end.

(** [SIMD_EXTRACT_FUNCTION]: [Runtime_<type>ExtractLane]. *)
Definition SIMD_EXTRACT_FUNCTION (type : Kind) (a : Simd128Value) (lane : Z)
  : result Value :=
  a <- CONVERT_ARG_HANDLE_CHECKED type a ;;
  lane <- CONVERT_SIMD_LANE_ARG_CHECKED lane (lane_count type) ;;
  Ok (extract type (Simd128Value.get_lane type a lane)).

(** [SIMD_SWIZZLE_FUNCTION]: [Runtime_<type>Swizzle]; [indices] are the
    arguments after the vector, read in order. *)
Definition SIMD_SWIZZLE_FUNCTION (type : Kind) (a : Simd128Value) (indices : list Z)
  : result Simd128Value :=
  let kLaneCount := lane_count type in
  a <- CONVERT_ARG_HANDLE_CHECKED type a ;;
  lanes <- for_each
             (fun i =>
                index <- CONVERT_SIMD_LANE_ARG_CHECKED
                           (array_get 0 indices i) kLaneCount ;;
                Ok (Simd128Value.get_lane type a index))
             (lane_indices kLaneCount) ;;
  Ok (Simd128Value.New type lanes).

(** [SIMD_SHUFFLE_FUNCTION]: [Runtime_<type>Shuffle]. *)
Definition SIMD_SHUFFLE_FUNCTION (type : Kind) (a b : Simd128Value) (indices : list Z)
  : result Simd128Value :=
  let kLaneCount := lane_count type in
  a <- CONVERT_ARG_HANDLE_CHECKED type a ;;
  b <- CONVERT_ARG_HANDLE_CHECKED type b ;;
  lanes <- for_each
             (fun i =>
                index <- CONVERT_SIMD_LANE_ARG_CHECKED
                           (array_get 0 indices i) (kLaneCount * 2) ;;
                Ok (if index <? kLaneCount
                    then Simd128Value.get_lane type a index
                    else Simd128Value.get_lane type b (index - kLaneCount)))
             (lane_indices kLaneCount) ;;
  Ok (Simd128Value.New type lanes).

(** [Runtime_Int16x8UnsignedExtractLane] and
    [Runtime_Int8x16UnsignedExtractLane]. *)
Definition Runtime_Int16x8UnsignedExtractLane (a : Simd128Value) (lane : Z)
  : result Value :=
  a <- CONVERT_ARG_HANDLE_CHECKED Int16x8 a ;;
  lane <- CONVERT_SIMD_LANE_ARG_CHECKED lane 8 ;;
  Ok (NewNumber_int (bit_cast_uint 16 (Simd128Value.get_lane_int Int16x8 a lane))).

Definition Runtime_Int8x16UnsignedExtractLane (a : Simd128Value) (lane : Z)
  : result Value :=
  a <- CONVERT_ARG_HANDLE_CHECKED Int8x16 a ;;
  lane <- CONVERT_SIMD_LANE_ARG_CHECKED lane 16 ;;
  Ok (NewNumber_int (bit_cast_uint 8 (Simd128Value.get_lane_int Int8x16 a lane))).

(** *** Float-only functions *)

(** [SIMD_ABS_FUNCTION], with [std::abs] at the lane type as a parameter. *)
Definition SIMD_ABS_FUNCTION (type : Kind) (std_abs : lane_t type -> lane_t type)
  : Simd128Value -> result Simd128Value :=
  SIMD_UNARY_OP type std_abs.

(** The one instance, [SIMD_ABS_FUNCTION(Float32x4, float, 4)]. *)
Definition Runtime_Float32x4Abs : Simd128Value -> result Simd128Value :=
  SIMD_ABS_FUNCTION Float32x4 Float32.abs.

(** The runtime function [Runtime_<type>Abs], when the file defines it. *)
Definition Runtime_Abs (type : Kind) : option (Simd128Value -> result Simd128Value) :=
  match type with
  | Float32x4 => Some Runtime_Float32x4Abs
  | _ => None
  end.

(** [SIMD_MIN_FUNCTION] and [SIMD_MAX_FUNCTION] at [Float32x4]. *)
Definition Runtime_Float32x4Min : Simd128Value -> Simd128Value -> result Simd128Value :=
  SIMD_BINARY_OP Float32x4 Min.

Definition Runtime_Float32x4Max : Simd128Value -> Simd128Value -> result Simd128Value :=
  SIMD_BINARY_OP Float32x4 Max.

(** *** Int-only functions *)

(** [SIMD_LSL_FUNCTION]: [Runtime_<type>ShiftLeftByScalar], for the kinds of
    [SIMD_INT_TYPES].  The shift is computed in [int] and narrowed to the
    lane type by the assignment; for [int32_t] lanes the bits shifted out
    are lost likewise. *)
Definition SIMD_LSL_FUNCTION (type : Kind) (a : Simd128Value) (signed_shift : Z)
  : result Simd128Value :=
  let kLaneCount := lane_count type in
  a <- CONVERT_ARG_HANDLE_CHECKED type a ;;
  let shift := CONVERT_SHIFT_ARG_CHECKED signed_shift in
  let lanes :=
    if shift <? lane_bits type then
      List.map
        (fun i =>
           static_cast_int (lane_bits type)
             (Z.shiftl (Simd128Value.get_lane_int type a i) shift))
        (lane_indices kLaneCount)
    else List.map (fun _ => 0) (lane_indices kLaneCount) in
  Ok (Simd128Value.New_int type lanes).

(** [SIMD_LSR_FUNCTION]: [Runtime_<type>ShiftRightLogicalByScalar]. *)
Definition SIMD_LSR_FUNCTION (type : Kind) (a : Simd128Value) (signed_shift : Z)
  : result Simd128Value :=
  let kLaneCount := lane_count type in
  a <- CONVERT_ARG_HANDLE_CHECKED type a ;;
  let shift := CONVERT_SHIFT_ARG_CHECKED signed_shift in
  let lanes :=
    if shift <? lane_bits type then
      List.map
        (fun i =>
           static_cast_int (lane_bits type)
             (Z.shiftr
                (bit_cast_uint (lane_bits type) (Simd128Value.get_lane_int type a i))
                shift))
        (lane_indices kLaneCount)
    else List.map (fun _ => 0) (lane_indices kLaneCount) in
  Ok (Simd128Value.New_int type lanes).

(** [SIMD_ASR_FUNCTION]: [Runtime_<type>ShiftRightArithmeticByScalar]; the
    shift of the [int64_t] extends the sign. *)
Definition SIMD_ASR_FUNCTION (type : Kind) (a : Simd128Value) (signed_shift : Z)
  : result Simd128Value :=
  let kLaneCount := lane_count type in
  a <- CONVERT_ARG_HANDLE_CHECKED type a ;;
  let shift := CONVERT_SHIFT_ARG_CHECKED signed_shift in
  let shift := if shift >=? lane_bits type then lane_bits type - 1 else shift in
  let lanes :=
    List.map
      (fun i =>
         let shifted := Z.shiftr (Simd128Value.get_lane_int type a i) shift in
         static_cast_int (lane_bits type) shifted)
      (lane_indices kLaneCount) in
  Ok (Simd128Value.New_int type lanes).

(** *** Small Int-only functions *)

(** [SIMD_ADD_SATURATE_FUNCTION] and [SIMD_SUB_SATURATE_FUNCTION] at the two
    kinds of [SIMD_SMALL_INT_TYPES]. *)
Definition Runtime_Int16x8AddSaturate := SIMD_BINARY_OP Int16x8 (AddSaturate 16).
Definition Runtime_Int8x16AddSaturate := SIMD_BINARY_OP Int8x16 (AddSaturate 8).
Definition Runtime_Int16x8SubSaturate := SIMD_BINARY_OP Int16x8 (SubSaturate 16).
Definition Runtime_Int8x16SubSaturate := SIMD_BINARY_OP Int8x16 (SubSaturate 8).

(** *** Casting functions *)

(** [SIMD_FROM_FUNCTION(type, lane_type, lane_count, from_type, from_ctype)],
    with the overload of [CanCast] and the conversion
    [static_cast<lane_type>] as parameters. *)
Definition SIMD_FROM_FUNCTION (type from_type : Kind)
  (CanCast : lane_t from_type -> bool)
  (static_cast : lane_t from_type -> lane_t type)
  (a : Simd128Value) : result Simd128Value :=
  let kLaneCount := lane_count type in
  a <- CONVERT_ARG_HANDLE_CHECKED from_type a ;;
  lanes <- for_each
             (fun i =>
                let a_value := Simd128Value.get_lane from_type a i in
                RUNTIME_ASSERT RangeError (CanCast a_value) ;;
                Ok (static_cast a_value))
             (lane_indices kLaneCount) ;;
  Ok (Simd128Value.New type lanes).

(** The two instances of [SIMD_FROM_TYPES]. *)
Definition Runtime_Float32x4FromInt32x4 : Simd128Value -> result Simd128Value :=
  SIMD_FROM_FUNCTION Float32x4 Int32x4 CanCast_int32 Float32.of_int32.

Definition Runtime_Int32x4FromFloat32x4 : Simd128Value -> result Simd128Value :=
  SIMD_FROM_FUNCTION Int32x4 Float32x4 CanCast_float Float32.to_int32.

(** [SIMD_FROM_BITS_TYPES]: the pairs [(type, from_type)]. *)
Definition SIMD_FROM_BITS_TYPES : list (Kind * Kind) :=
  [ (Float32x4, Int32x4); (Float32x4, Int16x8); (Float32x4, Int8x16);
    (Int32x4, Float32x4); (Int32x4, Int16x8); (Int32x4, Int8x16);
    (Int16x8, Float32x4); (Int16x8, Int32x4); (Int16x8, Int8x16);
    (Int8x16, Float32x4); (Int8x16, Int32x4); (Int8x16, Int16x8) ].

(** [SIMD_FROM_BITS_FUNCTION]: [Runtime_<type>From<from_type>Bits]. *)
Definition SIMD_FROM_BITS_FUNCTION (type from_type : Kind) (a : Simd128Value)
  : result Simd128Value :=
  a <- CONVERT_ARG_HANDLE_CHECKED from_type a ;;
  let lanes := Simd128Value.CopyBits type a in
  Ok (Simd128Value.New type lanes).

(** The runtime function [Runtime_<type>From<from_type>Bits], when
    [SIMD_FROM_BITS_TYPES] lists the pair. *)
Definition from_bits_listed (type from_type : Kind) : bool :=
  existsb
    (fun p => Kind_eqb (fst p) type && Kind_eqb (snd p) from_type)
    SIMD_FROM_BITS_TYPES.

Definition Runtime_FromBits (type from_type : Kind)
  : option (Simd128Value -> result Simd128Value) :=
  if from_bits_listed type from_type
  then Some (SIMD_FROM_BITS_FUNCTION type from_type)
  else None.

(** *** Functions that read scalar arguments *)

Section Host.

(** The host's values and its numeric conversions ([src/objects.h],
    [src/conversions.h]) are outside this file; they are parameters.  The
    results of [DoubleToFloat32] and [DoubleToInt32] are read at the width
    of their C++ result types, [float] and [int32_t]. *)
Variable Object : Type.
Variable double : Type.
Variable IsNumber : Object -> bool.
Variable Number : Object -> double.
Variable BooleanValue : Object -> bool.
Variable DoubleToFloat32 : double -> Z.
Variable DoubleToInt32 : double -> Z.

(** The specialisations of [ConvertNumber<T>]. *)
Definition ConvertNumber_float (number : double) : Z :=
  bit_cast_uint 32 (DoubleToFloat32 number).

Definition ConvertNumber_int32_t (number : double) : Z :=
  static_cast_int 32 (DoubleToInt32 number).

Definition ConvertNumber_int16_t (number : double) : Z :=
  static_cast_int 16 (static_cast_int 32 (DoubleToInt32 number)).

Definition ConvertNumber_int8_t (number : double) : Z :=
  static_cast_int 8 (static_cast_int 32 (DoubleToInt32 number)).

(** [ConvertNumber<lane_type>] at the lane type of a numeric kind (a
    boolean kind has no such conversion; it is given [false]). *)
Definition ConvertNumber (type : Kind) (number : double) : lane_t type :=
  match type as k return lane_t k with
  | Float32x4 => ConvertNumber_float number
  | Int32x4 => ConvertNumber_int32_t number
  | Int16x8 => ConvertNumber_int16_t number
  | Int8x16 => ConvertNumber_int8_t number
  | Bool32x4 | Bool16x8 | Bool8x16 => false
  end.

(** [GET_NUMERIC_ARG] and [GET_BOOLEAN_ARG]; the first asserts, through
    [CONVERT_NUMBER_ARG_HANDLE_CHECKED] (a macro of [runtime-utils.h]), that
    the argument is a number. *)
Definition GET_NUMERIC_ARG (convert : double -> Z) (arg : Object) : result Z :=
  RUNTIME_ASSERT TypeError (IsNumber arg) ;;
  Ok (convert (Number arg)).

Definition GET_BOOLEAN_ARG (arg : Object) : result bool :=
  Ok (BooleanValue arg).

(** The [replace] column of [SIMD_ALL_TYPES]. *)
Definition replace (type : Kind) (arg : Object) : result (lane_t type) :=
  match type as k return result (lane_t k) with
  | Float32x4 => GET_NUMERIC_ARG ConvertNumber_float arg
  | Int32x4 => GET_NUMERIC_ARG ConvertNumber_int32_t arg
  | Int16x8 => GET_NUMERIC_ARG ConvertNumber_int16_t arg
  | Int8x16 => GET_NUMERIC_ARG ConvertNumber_int8_t arg
  | Bool32x4 | Bool16x8 | Bool8x16 => GET_BOOLEAN_ARG arg
  end.

(** [SIMD_REPLACE_FUNCTION]: [Runtime_<type>ReplaceLane]. *)
Definition SIMD_REPLACE_FUNCTION (type : Kind) (simd : Simd128Value) (lane : Z)
  (arg2 : Object) : result Simd128Value :=
  let kLaneCount := lane_count type in
  simd <- CONVERT_ARG_HANDLE_CHECKED type simd ;;
  lane <- CONVERT_SIMD_LANE_ARG_CHECKED lane kLaneCount ;;
  let lanes :=
    List.map (fun i => Simd128Value.get_lane type simd i)
      (lane_indices kLaneCount) in
  x <- replace type arg2 ;;
  let lanes := array_set lanes lane x in
  Ok (Simd128Value.New type lanes).

(** [SIMD_CREATE_FUNCTION]: [Runtime_Create<type>]; [args i] is the
    argument [args[i]]. *)
Definition SIMD_CREATE_FUNCTION (type : Kind) (args : Z -> Object)
  : result Simd128Value :=
  let kLaneCount := lane_count type in
  lanes <- for_each (fun i => replace type (args i)) (lane_indices kLaneCount) ;;
  Ok (Simd128Value.New type lanes).

End Host.

(** ** Further runtime functions *)

(** [MinNumber] and [MaxNumber]. *)
Definition MinNumber (a b : Z) : Z :=
  if Float32.isnan a then b
  else if Float32.isnan b then a
  else Min a b.

Definition MaxNumber (a b : Z) : Z :=
  if Float32.isnan a then b
  else if Float32.isnan b then a
  else Max a b.

(** [SIMD_MINNUM_FUNCTION], [SIMD_MAXNUM_FUNCTION] and [SIMD_NEG_FUNCTION] at
    [Float32x4]. *)
Definition Runtime_Float32x4MinNum : Simd128Value -> Simd128Value -> result Simd128Value :=
  SIMD_BINARY_OP Float32x4 MinNumber.

Definition Runtime_Float32x4MaxNum : Simd128Value -> Simd128Value -> result Simd128Value :=
  SIMD_BINARY_OP Float32x4 MaxNumber.

Definition Runtime_Float32x4Neg : Simd128Value -> result Simd128Value :=
  SIMD_UNARY_OP Float32x4 Float32.neg.

(** [SIMD_CHECK_FUNCTION]: [Runtime_<type>Check]. *)
Definition SIMD_CHECK_FUNCTION (type : Kind) (a : Simd128Value) : result Simd128Value :=
  a <- CONVERT_ARG_HANDLE_CHECKED type a ;;
  Ok a.

(** [SIMD_UNARY_OP] and [SIMD_BINARY_OP] at an integer kind: the lanes are
    integers, the operator is computed in [int] and the assignment to
    [lanes[i]] narrows it to the lane type. *)
Definition SIMD_UNARY_OP_int (type : Kind) (op : Z -> Z) (a : Simd128Value)
  : result Simd128Value :=
  a <- CONVERT_ARG_HANDLE_CHECKED type a ;;
  let lanes :=
    List.map
      (fun i => static_cast_int (lane_bits type) (op (Simd128Value.get_lane_int type a i)))
      (lane_indices (lane_count type)) in
  Ok (Simd128Value.New_int type lanes).

Definition SIMD_BINARY_OP_int (type : Kind) (op : Z -> Z -> Z) (a b : Simd128Value)
  : result Simd128Value :=
  a <- CONVERT_ARG_HANDLE_CHECKED type a ;;
  b <- CONVERT_ARG_HANDLE_CHECKED type b ;;
  let lanes :=
    List.map
      (fun i =>
         static_cast_int (lane_bits type)
           (op (Simd128Value.get_lane_int type a i) (Simd128Value.get_lane_int type b i)))
      (lane_indices (lane_count type)) in
  Ok (Simd128Value.New_int type lanes).

(** [SIMD_NEG_FUNCTION], [SIMD_ADD_FUNCTION], [SIMD_SUB_FUNCTION] and
    [SIMD_MUL_FUNCTION] at the integer kinds of [SIMD_NUMERIC_TYPES]: unary
    [-] and [BINARY_ADD], [BINARY_SUB], [BINARY_MUL].  On the 16-bit and
    8-bit kinds the operands are promoted to [int], where the result is
    exact, and the store narrows it.  On [int32_t] lanes C++ gives no meaning
    to a result outside the [int32_t] range; here it wraps like the narrower
    lanes, and the properties of these lanes are stated for results in
    range. *)
Definition SIMD_NEG_FUNCTION (type : Kind) := SIMD_UNARY_OP_int type Z.opp.
Definition SIMD_ADD_FUNCTION (type : Kind) := SIMD_BINARY_OP_int type Z.add.
Definition SIMD_SUB_FUNCTION (type : Kind) := SIMD_BINARY_OP_int type Z.sub.
Definition SIMD_MUL_FUNCTION (type : Kind) := SIMD_BINARY_OP_int type Z.mul.

(** [SIMD_AND_FUNCTION], [SIMD_OR_FUNCTION], [SIMD_XOR_FUNCTION] and
    [SIMD_NOT_FUNCTION] at the integer kinds of [SIMD_LOGICAL_TYPES]:
    [BINARY_AND_INT], [BINARY_OR_INT], [BINARY_XOR_INT], [UNARY_NOT_INT]. *)
Definition SIMD_AND_FUNCTION (type : Kind) := SIMD_BINARY_OP_int type Z.land.
Definition SIMD_OR_FUNCTION (type : Kind) := SIMD_BINARY_OP_int type Z.lor.
Definition SIMD_XOR_FUNCTION (type : Kind) := SIMD_BINARY_OP_int type Z.lxor.
Definition SIMD_NOT_FUNCTION (type : Kind) := SIMD_UNARY_OP_int type Z.lnot.

(** Modelled from the spec: [New<type>(lanes)] for a boolean kind, from an
    array of [bool]. *)
Definition New_bool (type : Kind) (lanes : list bool) : Simd128Value :=
  Simd128Value.New_slots type
    (List.map (Simd128Value.slot_of_bool (lane_bits type)) lanes).

(** [SIMD_UNARY_OP] and [SIMD_BINARY_OP] at a boolean kind. *)
Definition SIMD_UNARY_OP_bool (type : Kind) (op : bool -> bool) (a : Simd128Value)
  : result Simd128Value :=
  a <- CONVERT_ARG_HANDLE_CHECKED type a ;;
  let lanes :=
    List.map (fun i => op (Simd128Value.get_lane_bool type a i))
      (lane_indices (lane_count type)) in
  Ok (New_bool type lanes).

Definition SIMD_BINARY_OP_bool (type : Kind) (op : bool -> bool -> bool)
  (a b : Simd128Value) : result Simd128Value :=
  a <- CONVERT_ARG_HANDLE_CHECKED type a ;;
  b <- CONVERT_ARG_HANDLE_CHECKED type b ;;
  let lanes :=
    List.map
      (fun i => op (Simd128Value.get_lane_bool type a i)
                  (Simd128Value.get_lane_bool type b i))
      (lane_indices (lane_count type)) in
  Ok (New_bool type lanes).

(** The logical functions at the boolean kinds of [SIMD_LOGICAL_TYPES]:
    [BINARY_AND_BOOL] is [&&], [BINARY_OR_BOOL] is [||], [BINARY_XOR_BOOL] is
    [!=] and [UNARY_NOT_BOOL] is [!]. *)
Definition SIMD_AND_FUNCTION_BOOL (type : Kind) := SIMD_BINARY_OP_bool type andb.
Definition SIMD_OR_FUNCTION_BOOL (type : Kind) := SIMD_BINARY_OP_bool type orb.
Definition SIMD_XOR_FUNCTION_BOOL (type : Kind) :=
  SIMD_BINARY_OP_bool type (fun a b => negb (Bool.eqb a b)).
Definition SIMD_NOT_FUNCTION_BOOL (type : Kind) := SIMD_UNARY_OP_bool type negb.

(** [SIMD_BOOL_TYPES] and the boolean kind of the same lane count, the
    [bool_type] column of [SIMD_RELATIONAL_TYPES] and [SIMD_SELECT_TYPES]. *)
Definition SIMD_BOOL_TYPES : list Kind := [Bool32x4; Bool16x8; Bool8x16].

Definition bool_type (type : Kind) : Kind :=
  match type with
  | Float32x4 | Int32x4 | Bool32x4 => Bool32x4
  | Int16x8 | Bool16x8 => Bool16x8
  | Int8x16 | Bool8x16 => Bool8x16
  end.

(** [SIMD_ANY_FUNCTION] and [SIMD_ALL_FUNCTION]: the loops leave at the
    first lane that decides the result. *)
Fixpoint any_true_loop (type : Kind) (a : Simd128Value) (indices : list Z) : bool :=
  match indices with
  | [] => false
  | i :: rest =>
      if Simd128Value.get_lane_bool type a i then true
      else any_true_loop type a rest
  end.

Fixpoint all_true_loop (type : Kind) (a : Simd128Value) (indices : list Z) : bool :=
  match indices with
  | [] => true
  | i :: rest =>
      if negb (Simd128Value.get_lane_bool type a i) then false
      else all_true_loop type a rest
  end.

Definition SIMD_ANY_FUNCTION (type : Kind) (a : Simd128Value) : result bool :=
  a <- CONVERT_ARG_HANDLE_CHECKED type a ;;
  Ok (any_true_loop type a (lane_indices (lane_count type))).

Definition SIMD_ALL_FUNCTION (type : Kind) (a : Simd128Value) : result bool :=
  a <- CONVERT_ARG_HANDLE_CHECKED type a ;;
  Ok (all_true_loop type a (lane_indices (lane_count type))).

(** The six comparison operators of the relational functions. *)
Inductive Relational : Type := EQ | NE | LT | LE | GT | GE.

Definition compare_int (op : Relational) (a b : Z) : bool :=
  match op with
  | EQ => a =? b
  | NE => negb (a =? b)
  | LT => a <? b
  | LE => a <=? b
  | GT => a >? b
  | GE => a >=? b
  end.

Definition compare_float (op : Relational) (a b : Z) : bool :=
  match op with
  | EQ => Float32.eq a b
  | NE => Float32.ne a b
  | LT => Float32.lt a b
  | LE => Float32.le a b
  | GT => Float32.gt a b
  | GE => Float32.ge a b
  end.

(** The operator at the lane type of a kind; a [bool] compares as the
    integer 0 or 1 it promotes to. *)
Definition relational_operator (type : Kind) (op : Relational)
  : lane_t type -> lane_t type -> bool :=
  match type as k return lane_t k -> lane_t k -> bool with
  | Float32x4 => compare_float op
  | Int32x4 | Int16x8 | Int8x16 => compare_int op
  | Bool32x4 | Bool16x8 | Bool8x16 =>
      fun a b => compare_int op (Z.b2z a) (Z.b2z b)
  end.

(** [SIMD_RELATIONAL_OP]. *)
Definition SIMD_RELATIONAL_OP (type bool_type : Kind)
  (op : lane_t type -> lane_t type -> bool) (a b : Simd128Value)
  : result Simd128Value :=
  a <- CONVERT_ARG_HANDLE_CHECKED type a ;;
  b <- CONVERT_ARG_HANDLE_CHECKED type b ;;
  let lanes :=
    List.map
      (fun i => op (Simd128Value.get_lane type a i) (Simd128Value.get_lane type b i))
      (lane_indices (lane_count type)) in
  Ok (New_bool bool_type lanes).

(** [SIMD_EQUAL_FUNCTION] and [SIMD_NOT_EQUAL_FUNCTION] (at the seven kinds
    of [SIMD_EQUALITY_TYPES]) and the four ordering functions (at the four
    kinds of [SIMD_RELATIONAL_TYPES]), by their operator. *)
Definition SIMD_RELATIONAL_FUNCTION (op : Relational) (type : Kind)
  : Simd128Value -> Simd128Value -> result Simd128Value :=
  SIMD_RELATIONAL_OP type (bool_type type) (relational_operator type op).

(** [SIMD_SELECT_FUNCTION]: [Runtime_<type>Select], for the four kinds of
    [SIMD_SELECT_TYPES] with their boolean kind. *)
Definition SIMD_SELECT_FUNCTION (type : Kind) (mask a b : Simd128Value)
  : result Simd128Value :=
  let kLaneCount := lane_count type in
  mask <- CONVERT_ARG_HANDLE_CHECKED (bool_type type) mask ;;
  a <- CONVERT_ARG_HANDLE_CHECKED type a ;;
  b <- CONVERT_ARG_HANDLE_CHECKED type b ;;
  let lanes :=
    List.map
      (fun i =>
         if Simd128Value.get_lane_bool (bool_type type) mask i
         then Simd128Value.get_lane type a i
         else Simd128Value.get_lane type b i)
      (lane_indices kLaneCount) in
  Ok (Simd128Value.New type lanes).

(** [SIMD_MIN_FUNCTION] and [SIMD_MAX_FUNCTION] at the two small integer
    kinds of [SIMD_NUMERIC_TYPES]: the lanes are converted to [float] for
    [Min] and [Max], and the result back to the lane type. *)
Definition Min_int (w : Z) (a b : Z) : Z :=
  static_cast_int w (Float32.to_int32 (Min (Float32.of_int32 a) (Float32.of_int32 b))).

Definition Max_int (w : Z) (a b : Z) : Z :=
  static_cast_int w (Float32.to_int32 (Max (Float32.of_int32 a) (Float32.of_int32 b))).

Definition Runtime_Int16x8Min := SIMD_BINARY_OP Int16x8 (Min_int 16).
Definition Runtime_Int16x8Max := SIMD_BINARY_OP Int16x8 (Max_int 16).
Definition Runtime_Int8x16Min := SIMD_BINARY_OP Int8x16 (Min_int 8).
Definition Runtime_Int8x16Max := SIMD_BINARY_OP Int8x16 (Max_int 8).

(** ** Notions of the specification *)

(** The exact result of saturating arithmetic: [x] clamped to the range of
    the [w]-bit integer type. *)
Definition clamp (w x : Z) : Z :=
  Z.max (numeric_limits_min w) (Z.min (numeric_limits_max w) x).

(** A host for the examples: every value is an integer-valued number. *)
Module ExampleHost.
Definition Object : Type := Z.
Definition double : Type := Z.
Definition IsNumber (x : Object) : bool := true.
Definition Number (x : Object) : double := x.
Definition BooleanValue (x : Object) : bool := negb (x =? 0).
Definition DoubleToFloat32 (d : double) : Z := Float32.of_int32 d.
Definition DoubleToInt32 (d : double) : Z := static_cast_int 32 d.
End ExampleHost.

(** A host with a value that is not a number: [None] stands for it, [Some n]
    for the number [n]. *)
Module PartialHost.
Definition Object : Type := option Z.
Definition double : Type := Z.
Definition IsNumber (x : Object) : bool :=
  match x with Some _ => true | None => false end.
Definition Number (x : Object) : double :=
  match x with Some n => n | None => 0 end.
Definition BooleanValue (x : Object) : bool :=
  match x with Some n => negb (n =? 0) | None => false end.
Definition DoubleToFloat32 (d : double) : Z := Float32.of_int32 d.
Definition DoubleToInt32 (d : double) : Z := static_cast_int 32 d.
End PartialHost.

(** Reinterpreting a vector of kind [X] as kind [Y] and back is possible and
    gives back the same 128 bits. *)
Definition from_bits_round_trips (X Y : Kind) : Prop :=
  forall v, Simd128Value.map v = X ->
    exists to_Y to_X w u,
      Runtime_FromBits Y X = Some to_Y
      /\ Runtime_FromBits X Y = Some to_X
      /\ to_Y v = Ok w
      /\ to_X w = Ok u
      /\ Simd128Value.BitwiseEquals u v = true.

(*SPECDEFS*)
(** * Properties *)

(** ** Fixed-width integers *)

Lemma pow2_pos (w : Z) : 0 <= w -> 0 < 2 ^ w.
Proof. intros; apply Z.pow_pos_nonneg; lia. Qed.

Lemma pow2_half (w : Z) : 0 < w -> 2 ^ w = 2 * 2 ^ (w - 1).
Proof.
  intros Hw. replace w with (Z.succ (w - 1)) at 1 by lia.
  apply Z.pow_succ_r; lia.
Qed.

Lemma bit_cast_uint_range (w x : Z) : 0 <= w -> 0 <= bit_cast_uint w x < 2 ^ w.
Proof. intros; apply Z.mod_pos_bound, pow2_pos; assumption. Qed.

Lemma bit_cast_uint_small (w x : Z) : 0 <= x < 2 ^ w -> bit_cast_uint w x = x.
Proof. intros; apply Z.mod_small; assumption. Qed.

Lemma bit_cast_uint_idem (w x : Z) :
  0 <= w -> bit_cast_uint w (bit_cast_uint w x) = bit_cast_uint w x.
Proof.
  intros. apply bit_cast_uint_small, bit_cast_uint_range; assumption.
Qed.

Lemma static_cast_int_range (w x : Z) :
  0 < w -> in_int_range w (static_cast_int w x).
Proof.
  intros Hw. unfold in_int_range, static_cast_int, numeric_limits_min,
    numeric_limits_max.
  pose proof (Z.mod_pos_bound x (2 ^ w) (pow2_pos w ltac:(lia))).
  pose proof (pow2_half w Hw).
  destruct (Z.ltb_spec (x mod 2 ^ w) (2 ^ (w - 1))); lia.
Qed.

Lemma static_cast_int_id (w x : Z) :
  0 < w -> in_int_range w x -> static_cast_int w x = x.
Proof.
  intros Hw [Hlo Hhi]. unfold static_cast_int, numeric_limits_min,
    numeric_limits_max in *.
  pose proof (pow2_half w Hw) as Hh.
  pose proof (pow2_pos (w - 1) ltac:(lia)).
  destruct (Z.neg_nonneg_cases x) as [Hneg | Hpos].
  - assert (Hm : x mod 2 ^ w = x + 2 ^ w).
    { symmetry; apply (Z.mod_unique_pos x (2 ^ w) (-1)); lia. }
    rewrite Hm. destruct (Z.ltb_spec (x + 2 ^ w) (2 ^ (w - 1))); lia.
  - rewrite Z.mod_small by lia.
    destruct (Z.ltb_spec x (2 ^ (w - 1))); lia.
Qed.

Lemma static_cast_int_idem (w x : Z) :
  0 < w -> static_cast_int w (static_cast_int w x) = static_cast_int w x.
Proof.
  intros. apply static_cast_int_id; [assumption|].
  apply static_cast_int_range; assumption.
Qed.

Lemma static_cast_int_mod (w x : Z) :
  0 < w -> static_cast_int w (x mod 2 ^ w) = static_cast_int w x.
Proof.
  intros Hw. unfold static_cast_int.
  rewrite Z.mod_mod by (pose proof (pow2_pos w); lia). reflexivity.
Qed.

Lemma bit_cast_uint_static_cast_int (w x : Z) :
  0 < w -> bit_cast_uint w (static_cast_int w x) = bit_cast_uint w x.
Proof.
  intros Hw. unfold bit_cast_uint, static_cast_int.
  pose proof (pow2_pos w ltac:(lia)).
  destruct (Z.ltb_spec (x mod 2 ^ w) (2 ^ (w - 1))).
  - apply Z.mod_mod; lia.
  - replace (x mod 2 ^ w - 2 ^ w) with (x mod 2 ^ w + (-1) * 2 ^ w) by lia.
    rewrite Z.mod_add by lia. apply Z.mod_mod; lia.
Qed.

(** ** Arrays and loops *)

Lemma lane_indices_length (n : Z) : length (lane_indices n) = Z.to_nat n.
Proof. unfold lane_indices. rewrite length_map, length_seq. reflexivity. Qed.

Lemma lane_indices_In (n i : Z) : In i (lane_indices n) <-> 0 <= i < n.
Proof.
  unfold lane_indices. rewrite in_map_iff. split.
  - intros [k [<- Hk]]. apply in_seq in Hk. lia.
  - intros Hi. exists (Z.to_nat i). split; [lia|]. apply in_seq. lia.
Qed.

Lemma array_get_lane_indices (n i : Z) :
  0 <= i < n -> array_get 0 (lane_indices n) i = i.
Proof.
  intros Hi. unfold array_get, lane_indices.
  rewrite (nth_indep _ 0 (Z.of_nat 0)) by (rewrite length_map, length_seq; lia).
  rewrite map_nth, seq_nth by lia. lia.
Qed.

Lemma array_get_map {A B : Type} (f : A -> B) (da : A) (db : B) (l : list A) (i : Z) :
  0 <= i < Z.of_nat (length l) ->
  array_get db (List.map f l) i = f (array_get da l i).
Proof.
  intros Hi. unfold array_get.
  rewrite (nth_indep _ db (f da)) by (rewrite length_map; lia).
  apply map_nth.
Qed.

Lemma array_get_map_indices {B : Type} (f : Z -> B) (db : B) (n i : Z) :
  0 <= i < n -> array_get db (List.map f (lane_indices n)) i = f i.
Proof.
  intros Hi. rewrite (array_get_map f 0) by (rewrite lane_indices_length; lia).
  rewrite array_get_lane_indices by assumption. reflexivity.
Qed.

Lemma array_set_nat_length {A : Type} (l : list A) (i : nat) (x : A) :
  length (array_set_nat l i x) = length l.
Proof.
  revert i; induction l as [|y l IH]; intros [|i]; simpl; auto.
Qed.

Lemma nth_array_set_nat_same {A : Type} (l : list A) (i : nat) (x d : A) :
  (i < length l)%nat -> nth i (array_set_nat l i x) d = x.
Proof.
  revert i; induction l as [|y l IH]; intros [|i] Hi; simpl in *;
    try lia; auto. apply IH; lia.
Qed.

Lemma nth_array_set_nat_other {A : Type} (l : list A) (i j : nat) (x d : A) :
  i <> j -> nth j (array_set_nat l i x) d = nth j l d.
Proof.
  revert i j; induction l as [|y l IH]; intros [|i] [|j] Hij; simpl;
    try congruence; auto.
Qed.

Lemma array_get_set_same {A : Type} (l : list A) (i : Z) (x d : A) :
  0 <= i < Z.of_nat (length l) -> array_get d (array_set l i x) i = x.
Proof.
  intros Hi. unfold array_get, array_set. apply nth_array_set_nat_same. lia.
Qed.

Lemma array_get_set_other {A : Type} (l : list A) (i j : Z) (x d : A) :
  0 <= i -> 0 <= j -> i <> j -> array_get d (array_set l i x) j = array_get d l j.
Proof.
  intros Hi Hj Hij. unfold array_get, array_set.
  apply nth_array_set_nat_other. lia.
Qed.

Lemma for_each_Ok {A B : Type} (body : A -> result B) (f : A -> B) (l : list A) :
  (forall i, In i l -> body i = Ok (f i)) ->
  for_each body l = Ok (List.map f l).
Proof.
  induction l as [|i l IH]; intros H; simpl; [reflexivity|].
  rewrite (H i) by (left; reflexivity). simpl.
  rewrite IH by (intros; apply H; right; assumption). reflexivity.
Qed.

Lemma for_each_Throw {A B : Type} (body : A -> result B) (e : Error) (l : list A) :
  (forall i, In i l -> body i = Throw e \/ exists x, body i = Ok x) ->
  (exists i, In i l /\ body i = Throw e) ->
  for_each body l = Throw e.
Proof.
  induction l as [|i l IH]; intros Hall [j [Hj Hthrow]]; simpl.
  - destruct Hj.
  - destruct (Hall i (or_introl eq_refl)) as [Hi | [x Hi]]; rewrite Hi; simpl;
      [reflexivity|].
    destruct Hj as [-> | Hj]; [congruence|].
    rewrite IH; [reflexivity | | exists j; auto].
    intros k Hk. apply Hall. right; assumption.
Qed.

(** ** The storage of a vector *)

Lemma Simd128Value_eq (a b : Simd128Value) :
  Simd128Value.map a = Simd128Value.map b ->
  Simd128Value.bits a = Simd128Value.bits b ->
  a = b.
Proof.
  destruct a as [ka xa pa], b as [kb xb pb]; simpl; intros -> ->.
  f_equal. apply UIP_dec, bool_dec.
Qed.

Lemma bits_range (a : Simd128Value) : 0 <= Simd128Value.bits a < 2 ^ 128.
Proof.
  pose proof (Simd128Value.bits_range a) as H.
  unfold Simd128Value.is_uint128 in H.
  apply andb_prop in H as [H1 H2].
  apply Z.leb_le in H1. apply Z.ltb_lt in H2. lia.
Qed.

Lemma BitwiseEquals_eq (a b : Simd128Value) :
  Simd128Value.map a = Simd128Value.map b ->
  Simd128Value.BitwiseEquals a b = true <-> a = b.
Proof.
  intros Hk. unfold Simd128Value.BitwiseEquals. rewrite Z.eqb_eq. split.
  - apply Simd128Value_eq; assumption.
  - intros ->; reflexivity.
Qed.

Lemma slot_div_mod (w : Z) (a : Simd128Value) (i : Z) :
  0 <= w -> 0 <= i ->
  Simd128Value.slot w a i = (Simd128Value.bits a / 2 ^ (w * i)) mod 2 ^ w.
Proof.
  intros Hw Hi. unfold Simd128Value.slot.
  rewrite Z.land_ones by assumption.
  rewrite Z.shiftr_div_pow2 by nia. reflexivity.
Qed.

Lemma slot_range (w : Z) (a : Simd128Value) (i : Z) :
  0 <= w -> 0 <= Simd128Value.slot w a i < 2 ^ w.
Proof.
  intros Hw. unfold Simd128Value.slot. rewrite Z.land_ones by assumption.
  apply Z.mod_pos_bound, pow2_pos; assumption.
Qed.

Lemma pack_range (w : Z) (slots : list Z) :
  0 <= w -> 0 <= Simd128Value.pack w slots < 2 ^ (w * Z.of_nat (length slots)).
Proof.
  intros Hw. induction slots as [|s slots IH].
  - simpl. rewrite Z.mul_0_r. simpl. lia.
  - cbn [Simd128Value.pack length].
    pose proof (bit_cast_uint_range w s Hw).
    rewrite Nat2Z.inj_succ, Z.mul_succ_r, Z.pow_add_r by nia.
    pose proof (pow2_pos w Hw). nia.
Qed.

(** Reading slot [i] of packed storage gives back entry [i]. *)
Lemma pack_slot (w : Z) (slots : list Z) (i : nat) :
  0 < w -> (i < length slots)%nat ->
  (Simd128Value.pack w slots / 2 ^ (w * Z.of_nat i)) mod 2 ^ w
  = bit_cast_uint w (nth i slots 0).
Proof.
  intros Hw. revert i. induction slots as [|s slots IH]; intros i Hi.
  - simpl in Hi; lia.
  - pose proof (pow2_pos w ltac:(lia)) as Hp.
    pose proof (bit_cast_uint_range w s ltac:(lia)) as Hs.
    destruct i as [|i]; cbn [Simd128Value.pack nth].
    + rewrite Z.mul_0_r, Z.pow_0_r, Z.div_1_r.
      rewrite (Z.mul_comm (2 ^ w)), Z.mod_add by lia.
      apply bit_cast_uint_idem; lia.
    + replace (w * Z.of_nat (S i)) with (w + w * Z.of_nat i) by lia.
      rewrite Z.pow_add_r by nia.
      rewrite <- Z.div_div by (try apply pow2_pos; nia).
      replace (bit_cast_uint w s + 2 ^ w * Simd128Value.pack w slots)
        with (Simd128Value.pack w slots * 2 ^ w + bit_cast_uint w s) by lia.
      rewrite Z.div_add_l by lia.
      rewrite (Z.div_small (bit_cast_uint w s)) by lia.
      rewrite Z.add_0_r. apply IH. simpl in Hi; lia.
Qed.

(** Packing the slots read from [x] gives back the low bits of [x]. *)
Lemma pack_slots_of (w x : Z) (n s : nat) :
  0 < w ->
  Simd128Value.pack w
    (List.map (fun k => (x / 2 ^ (w * Z.of_nat k)) mod 2 ^ w) (seq s n))
  = (x / 2 ^ (w * Z.of_nat s)) mod 2 ^ (w * Z.of_nat n).
Proof.
  intros Hw. revert s. induction n as [|n IH]; intros s.
  - simpl. rewrite Z.mul_0_r, Z.pow_0_r, Z.mod_1_r. reflexivity.
  - cbn [seq List.map Simd128Value.pack]. rewrite IH.
    pose proof (pow2_pos w ltac:(lia)) as Hp.
    pose proof (pow2_pos (w * Z.of_nat n) ltac:(nia)) as Hq.
    pose proof (pow2_pos (w * Z.of_nat s) ltac:(nia)) as Hr.
    unfold bit_cast_uint. rewrite Z.mod_mod by lia.
    replace (w * Z.of_nat (S n)) with (w + w * Z.of_nat n) by lia.
    replace (w * Z.of_nat (S s)) with (w * Z.of_nat s + w) by lia.
    rewrite !Z.pow_add_r by nia.
    rewrite <- Z.div_div by lia.
    rewrite Z.rem_mul_r by lia. reflexivity.
Qed.

Lemma lane_bits_pos (type : Kind) : 0 < lane_bits type.
Proof. destruct type; reflexivity. Qed.

Lemma lane_count_pos (type : Kind) : 0 < lane_count type.
Proof. destruct type; reflexivity. Qed.

Lemma lane_layout (type : Kind) : lane_bits type * lane_count type = 128.
Proof. destruct type; reflexivity. Qed.

Lemma bits_of_bits (type : Kind) (x : Z) :
  Simd128Value.bits (Simd128Value.of_bits type x) = x mod 2 ^ 128.
Proof. reflexivity. Qed.

Lemma bits_New_slots (type : Kind) (slots : list Z) :
  Simd128Value.bits (Simd128Value.New_slots type slots)
  = Simd128Value.pack (lane_bits type)
      (List.map (array_get 0 slots) (lane_indices (lane_count type))).
Proof.
  unfold Simd128Value.New_slots. rewrite bits_of_bits.
  apply Z.mod_small.
  pose proof (pack_range (lane_bits type)
                (List.map (array_get 0 slots) (lane_indices (lane_count type)))
                ltac:(pose proof (lane_bits_pos type); lia)) as H.
  rewrite length_map, lane_indices_length, Z2Nat.id in H
    by (pose proof (lane_count_pos type); lia).
  rewrite lane_layout in H. exact H.
Qed.

Lemma slot_New_slots (type : Kind) (slots : list Z) (i : Z) :
  0 <= i < lane_count type ->
  Simd128Value.slot (lane_bits type) (Simd128Value.New_slots type slots) i
  = bit_cast_uint (lane_bits type) (array_get 0 slots i).
Proof.
  intros Hi. pose proof (lane_bits_pos type) as Hw.
  rewrite slot_div_mod by lia. rewrite bits_New_slots.
  replace i with (Z.of_nat (Z.to_nat i)) at 1 by lia.
  rewrite pack_slot by (rewrite ?length_map, ?lane_indices_length; lia).
  fold (array_get 0 (List.map (array_get 0 slots) (lane_indices (lane_count type))) i).
  rewrite array_get_map_indices by assumption. reflexivity.
Qed.

Lemma array_get_slot_of (type : Kind) (lanes : list (lane_t type)) (i : Z) :
  array_get 0 (List.map (Simd128Value.slot_of type) lanes) i
  = Simd128Value.slot_of type (array_get (zero_lane type) lanes i).
Proof.
  unfold array_get.
  replace 0 with (Simd128Value.slot_of type (zero_lane type)) at 1
    by (destruct type; reflexivity).
  apply map_nth.
Qed.

Lemma slot_of_bool_range (w : Z) (b : bool) :
  0 < w -> 0 <= Simd128Value.slot_of_bool w b < 2 ^ w.
Proof.
  intros Hw. unfold Simd128Value.slot_of_bool. pose proof (pow2_pos w ltac:(lia)).
  destruct b; rewrite ?Z.ones_equiv; lia.
Qed.

Lemma slot_of_bool_nonzero (w : Z) (b : bool) :
  0 < w -> negb (Simd128Value.slot_of_bool w b =? 0) = b.
Proof.
  intros Hw. unfold Simd128Value.slot_of_bool.
  pose proof (pow2_half w Hw). pose proof (pow2_pos (w - 1) ltac:(lia)).
  destruct b; [|reflexivity].
  rewrite Z.ones_equiv. destruct (Z.eqb_spec (Z.pred (2 ^ w)) 0); [lia | reflexivity].
Qed.

(** A lane of a freshly built vector is the array's entry, as stored. *)
Lemma get_lane_New (type : Kind) (lanes : list (lane_t type)) (i : Z) :
  0 <= i < lane_count type ->
  Simd128Value.get_lane type (Simd128Value.New type lanes) i
  = Simd128Value.stored type (array_get (zero_lane type) lanes i).
Proof.
  intros Hi. unfold Simd128Value.New.
  pose proof (slot_New_slots type (List.map (Simd128Value.slot_of type) lanes) i Hi) as H.
  rewrite array_get_slot_of in H.
  destruct type;
    cbn [Simd128Value.get_lane Simd128Value.stored Simd128Value.slot_of lane_bits] in *;
    unfold Simd128Value.get_lane_float, Simd128Value.get_lane_int,
      Simd128Value.get_lane_bool;
    cbn [lane_bits]; rewrite H.
  - apply bit_cast_uint_idem; lia.
  - rewrite bit_cast_uint_idem by lia. apply static_cast_int_mod; lia.
  - rewrite bit_cast_uint_small by (apply slot_of_bool_range; lia).
    apply slot_of_bool_nonzero; lia.
  - rewrite bit_cast_uint_idem by lia. apply static_cast_int_mod; lia.
  - rewrite bit_cast_uint_small by (apply slot_of_bool_range; lia).
    apply slot_of_bool_nonzero; lia.
  - rewrite bit_cast_uint_idem by lia. apply static_cast_int_mod; lia.
  - rewrite bit_cast_uint_small by (apply slot_of_bool_range; lia).
    apply slot_of_bool_nonzero; lia.
Qed.

(** What a vector's lane reads as is already in stored form. *)
Lemma stored_get_lane (type : Kind) (a : Simd128Value) (i : Z) :
  Simd128Value.stored type (Simd128Value.get_lane type a i)
  = Simd128Value.get_lane type a i.
Proof.
  destruct type;
    cbn [Simd128Value.get_lane Simd128Value.stored];
    unfold Simd128Value.get_lane_float, Simd128Value.get_lane_int,
      Simd128Value.get_lane_bool;
    cbn [lane_bits];
    try reflexivity;
    try (apply static_cast_int_idem; lia).
  apply bit_cast_uint_small, slot_range; lia.
Qed.

Lemma get_lane_New_int (type : Kind) (lanes : list Z) (i : Z) :
  0 <= i < lane_count type ->
  Simd128Value.get_lane_int type (Simd128Value.New_int type lanes) i
  = static_cast_int (lane_bits type) (array_get 0 lanes i).
Proof.
  intros Hi. unfold Simd128Value.get_lane_int, Simd128Value.New_int.
  rewrite slot_New_slots by assumption.
  unfold bit_cast_uint. apply static_cast_int_mod, lane_bits_pos.
Qed.

(** Storing what the lanes of a numeric kind read as gives back the bits. *)
Lemma bits_New_CopyBits (type : Kind) (a : Simd128Value) :
  is_bool_kind type = false ->
  Simd128Value.bits (Simd128Value.New type (Simd128Value.CopyBits type a))
  = Simd128Value.bits a.
Proof.
  intros Hnum. unfold Simd128Value.New. rewrite bits_New_slots.
  pose proof (lane_bits_pos type) as Hw. pose proof (lane_count_pos type) as Hn.
  transitivity
    (Simd128Value.pack (lane_bits type)
       (List.map
          (fun k => (Simd128Value.bits a / 2 ^ (lane_bits type * Z.of_nat k))
                    mod 2 ^ lane_bits type)
          (seq 0 (Z.to_nat (lane_count type))))).
  - f_equal. unfold lane_indices. rewrite map_map.
    apply map_ext_in. intros k Hk. apply in_seq in Hk.
    rewrite array_get_slot_of.
    unfold Simd128Value.CopyBits.
    rewrite (array_get_map_indices (Simd128Value.get_lane type a)) by lia.
    rewrite <- slot_div_mod by lia.
    pose proof (slot_range (lane_bits type) a (Z.of_nat k) ltac:(lia)) as Hr.
    destruct type; try discriminate Hnum;
      cbn [Simd128Value.get_lane Simd128Value.slot_of lane_bits] in *;
      unfold Simd128Value.get_lane_float, Simd128Value.get_lane_int;
      cbn [lane_bits].
    + apply bit_cast_uint_small; assumption.
    + rewrite bit_cast_uint_static_cast_int by lia. apply bit_cast_uint_small; assumption.
    + rewrite bit_cast_uint_static_cast_int by lia. apply bit_cast_uint_small; assumption.
    + rewrite bit_cast_uint_static_cast_int by lia. apply bit_cast_uint_small; assumption.
  - rewrite pack_slots_of by assumption.
    rewrite Z.mul_0_r, Z.pow_0_r, Z.div_1_r, Z2Nat.id, lane_layout by lia.
    apply Z.mod_small, bits_range.
Qed.

(** ** Saturating arithmetic *)

(** Range facts about integer constants. *)
Ltac solve_int_range :=
  unfold in_int_range, numeric_limits_min, numeric_limits_max; lia.

Lemma int_range_small (w : Z) :
  w = 8 \/ w = 16 ->
  numeric_limits_min w = - 2 ^ (w - 1) /\ numeric_limits_max w = 2 ^ (w - 1) - 1
  /\ 0 < 2 ^ (w - 1) <= 32768.
Proof. intros [-> | ->]; repeat split; try reflexivity; simpl; lia. Qed.

Lemma saturate_clamp (w x : Z) :
  w = 8 \/ w = 16 ->
  - 65536 <= x <= 65536 ->
  (let result := static_cast_int 32 x in
   if result >? numeric_limits_max w then numeric_limits_max w
   else if result <? numeric_limits_min w then numeric_limits_min w
   else static_cast_int w result) = clamp w x.
Proof.
  intros Hw Hx. cbv zeta.
  rewrite (static_cast_int_id 32 x)
    by (try lia; unfold in_int_range, numeric_limits_min, numeric_limits_max;
        simpl in *; lia).
  destruct (int_range_small w Hw) as (Hmin & Hmax & Hp).
  unfold clamp.
  destruct (Z.gtb_spec x (numeric_limits_max w)); [lia|].
  destruct (Z.ltb_spec x (numeric_limits_min w)); [lia|].
  rewrite static_cast_int_id; [lia | destruct Hw; lia | split; lia].
Qed.

Lemma AddSaturate_clamp (w a b : Z) :
  w = 8 \/ w = 16 -> in_int_range w a -> in_int_range w b ->
  AddSaturate w a b = clamp w (a + b).
Proof.
  intros Hw Ha Hb. destruct (int_range_small w Hw) as (Hmin & Hmax & Hp).
  unfold in_int_range in *. apply saturate_clamp; [assumption | lia].
Qed.

Lemma SubSaturate_clamp (w a b : Z) :
  w = 8 \/ w = 16 -> in_int_range w a -> in_int_range w b ->
  SubSaturate w a b = clamp w (a - b).
Proof.
  intros Hw Ha Hb. destruct (int_range_small w Hw) as (Hmin & Hmax & Hp).
  unfold in_int_range in *. apply saturate_clamp; [assumption | lia].
Qed.

Lemma clamp_range (w x : Z) : w = 8 \/ w = 16 -> in_int_range w (clamp w x).
Proof.
  intros Hw. destruct (int_range_small w Hw) as (Hmin & Hmax & Hp).
  unfold in_int_range, clamp. lia.
Qed.

(** C8: for the 8-bit and 16-bit lane types and every pair of lane values,
    [AddSaturate] is the exact sum clamped to the type's range and
    [SubSaturate] the exact difference clamped likewise; neither wraps, the
    results stay in the type's range. *)
Theorem saturate_is_clamped_exact_result (w a b : Z) :
  w = 8 \/ w = 16 ->
  in_int_range w a ->
  in_int_range w b ->
  AddSaturate w a b = clamp w (a + b)
  /\ SubSaturate w a b = clamp w (a - b)
  /\ in_int_range w (AddSaturate w a b)
  /\ in_int_range w (SubSaturate w a b).
Proof.
  intros Hw Ha Hb.
  rewrite (AddSaturate_clamp w a b Hw Ha Hb), (SubSaturate_clamp w a b Hw Ha Hb).
  repeat split; try reflexivity; apply clamp_range; assumption.
Qed.

Lemma saturate_int8_examples :
  (AddSaturate 8 127 1 = clamp 8 (127 + 1)
   /\ SubSaturate 8 127 1 = clamp 8 (127 - 1)
   /\ in_int_range 8 (AddSaturate 8 127 1)
   /\ in_int_range 8 (SubSaturate 8 127 1))
  /\ AddSaturate 8 127 1 = 127
  /\ SubSaturate 8 (-128) 1 = -128.
Proof.
  split.
  - apply (saturate_is_clamped_exact_result 8 127 1);
      [left; reflexivity | | ]; solve_int_range.
  - split; reflexivity.
Defined.

(** ** Argument checks and the lane-wise loops *)

Lemma Kind_eqb_eq (a b : Kind) : Kind_eqb a b = true <-> a = b.
Proof.
  unfold Kind_eqb. destruct (Kind_eq_dec a b); split; congruence.
Qed.

Lemma Kind_eqb_refl (a : Kind) : Kind_eqb a a = true.
Proof. apply Kind_eqb_eq; reflexivity. Qed.

Lemma Kind_eqb_neq (a b : Kind) : a <> b -> Kind_eqb a b = false.
Proof.
  intros H. destruct (Kind_eqb a b) eqn:E; [|reflexivity].
  apply Kind_eqb_eq in E. contradiction.
Qed.

Lemma CONVERT_ARG_HANDLE_CHECKED_Ok (type : Kind) (a : Simd128Value) :
  Simd128Value.map a = type -> CONVERT_ARG_HANDLE_CHECKED type a = Ok a.
Proof.
  intros <-. unfold CONVERT_ARG_HANDLE_CHECKED.
  rewrite Kind_eqb_refl. reflexivity.
Qed.

Lemma CONVERT_SIMD_LANE_ARG_CHECKED_Ok (name lanes : Z) :
  0 <= name < lanes -> CONVERT_SIMD_LANE_ARG_CHECKED name lanes = Ok name.
Proof.
  intros H. unfold CONVERT_SIMD_LANE_ARG_CHECKED.
  replace ((0 <=? name) && (name <? lanes)) with true; [reflexivity|].
  symmetry. apply andb_true_intro. split; [apply Z.leb_le | apply Z.ltb_lt]; lia.
Qed.

Lemma CONVERT_SIMD_LANE_ARG_CHECKED_Throw (name lanes : Z) :
  ~ (0 <= name < lanes) ->
  CONVERT_SIMD_LANE_ARG_CHECKED name lanes = Throw RangeError.
Proof.
  intros H. unfold CONVERT_SIMD_LANE_ARG_CHECKED.
  replace ((0 <=? name) && (name <? lanes)) with false; [reflexivity|].
  symmetry. apply andb_false_iff.
  destruct (Z.leb_spec 0 name); [right | left; reflexivity].
  apply Z.ltb_ge. lia.
Qed.

Lemma SIMD_UNARY_OP_lanes (type : Kind) (op : lane_t type -> lane_t type)
  (a : Simd128Value) :
  Simd128Value.map a = type ->
  exists r,
    SIMD_UNARY_OP type op a = Ok r
    /\ Simd128Value.map r = type
    /\ forall i, 0 <= i < lane_count type ->
         Simd128Value.get_lane type r i
         = Simd128Value.stored type (op (Simd128Value.get_lane type a i)).
Proof.
  intros Ha. unfold SIMD_UNARY_OP.
  rewrite CONVERT_ARG_HANDLE_CHECKED_Ok by assumption. cbn [bind].
  eexists. split; [reflexivity|]. split; [reflexivity|].
  intros i Hi. rewrite get_lane_New by assumption.
  rewrite array_get_map_indices by assumption. reflexivity.
Qed.

Lemma SIMD_BINARY_OP_lanes (type : Kind)
  (op : lane_t type -> lane_t type -> lane_t type) (a b : Simd128Value) :
  Simd128Value.map a = type ->
  Simd128Value.map b = type ->
  exists r,
    SIMD_BINARY_OP type op a b = Ok r
    /\ Simd128Value.map r = type
    /\ forall i, 0 <= i < lane_count type ->
         Simd128Value.get_lane type r i
         = Simd128Value.stored type
             (op (Simd128Value.get_lane type a i) (Simd128Value.get_lane type b i)).
Proof.
  intros Ha Hb. unfold SIMD_BINARY_OP.
  rewrite !CONVERT_ARG_HANDLE_CHECKED_Ok by assumption. cbn [bind].
  eexists. split; [reflexivity|]. split; [reflexivity|].
  intros i Hi. rewrite get_lane_New by assumption.
  rewrite array_get_map_indices by assumption. reflexivity.
Qed.

Lemma get_lane_int_range (type : Kind) (a : Simd128Value) (i : Z) :
  in_int_range (lane_bits type) (Simd128Value.get_lane_int type a i).
Proof. apply static_cast_int_range, lane_bits_pos. Qed.


(** ** Saturating arithmetic on vectors *)

(** The runtime functions of the two small integer kinds apply the lane
    function to each pair of lanes: every lane of the result is the clamped
    exact sum, or difference, of the operands' lanes. *)
Lemma Runtime_AddSaturate_SubSaturate_lanes (a b : Simd128Value) :
  (Simd128Value.map a = Int8x16 -> Simd128Value.map b = Int8x16 ->
   exists r s,
     Runtime_Int8x16AddSaturate a b = Ok r
     /\ Runtime_Int8x16SubSaturate a b = Ok s
     /\ forall i, 0 <= i < 16 ->
          Simd128Value.get_lane_int Int8x16 r i
          = clamp 8 (Simd128Value.get_lane_int Int8x16 a i
                     + Simd128Value.get_lane_int Int8x16 b i)
          /\ Simd128Value.get_lane_int Int8x16 s i
             = clamp 8 (Simd128Value.get_lane_int Int8x16 a i
                        - Simd128Value.get_lane_int Int8x16 b i))
  /\ (Simd128Value.map a = Int16x8 -> Simd128Value.map b = Int16x8 ->
      exists r s,
        Runtime_Int16x8AddSaturate a b = Ok r
        /\ Runtime_Int16x8SubSaturate a b = Ok s
        /\ forall i, 0 <= i < 8 ->
             Simd128Value.get_lane_int Int16x8 r i
             = clamp 16 (Simd128Value.get_lane_int Int16x8 a i
                         + Simd128Value.get_lane_int Int16x8 b i)
             /\ Simd128Value.get_lane_int Int16x8 s i
                = clamp 16 (Simd128Value.get_lane_int Int16x8 a i
                            - Simd128Value.get_lane_int Int16x8 b i)).
Proof.
  split; intros Ha Hb.
  - destruct (SIMD_BINARY_OP_lanes Int8x16 (AddSaturate 8) a b Ha Hb)
      as (r & Hr & _ & Hlr).
    destruct (SIMD_BINARY_OP_lanes Int8x16 (SubSaturate 8) a b Ha Hb)
      as (s & Hs & _ & Hls).
    exists r, s. split; [exact Hr|]. split; [exact Hs|].
    intros i Hi. specialize (Hlr i Hi). specialize (Hls i Hi).
    cbn [Simd128Value.get_lane Simd128Value.stored] in Hlr, Hls.
    pose proof (get_lane_int_range Int8x16 a i) as Ra.
    pose proof (get_lane_int_range Int8x16 b i) as Rb.
    assert (Hw : 8 = 8 \/ 8 = 16) by (left; reflexivity).
    rewrite Hlr, Hls, (AddSaturate_clamp 8 _ _ Hw Ra Rb),
      (SubSaturate_clamp 8 _ _ Hw Ra Rb).
    rewrite !static_cast_int_id by (try lia; apply clamp_range; assumption).
    auto.
  - destruct (SIMD_BINARY_OP_lanes Int16x8 (AddSaturate 16) a b Ha Hb)
      as (r & Hr & _ & Hlr).
    destruct (SIMD_BINARY_OP_lanes Int16x8 (SubSaturate 16) a b Ha Hb)
      as (s & Hs & _ & Hls).
    exists r, s. split; [exact Hr|]. split; [exact Hs|].
    intros i Hi. specialize (Hlr i Hi). specialize (Hls i Hi).
    cbn [Simd128Value.get_lane Simd128Value.stored] in Hlr, Hls.
    pose proof (get_lane_int_range Int16x8 a i) as Ra.
    pose proof (get_lane_int_range Int16x8 b i) as Rb.
    assert (Hw : 16 = 8 \/ 16 = 16) by (right; reflexivity).
    rewrite Hlr, Hls, (AddSaturate_clamp 16 _ _ Hw Ra Rb),
      (SubSaturate_clamp 16 _ _ Hw Ra Rb).
    rewrite !static_cast_int_id by (try lia; apply clamp_range; assumption).
    auto.
Qed.

(** ** Shifts *)

(** A sign-extending shift stays in the range of the lane type. *)
Lemma shiftr_in_int_range (w x k : Z) :
  0 < w -> 0 <= k -> in_int_range w x -> in_int_range w (x / 2 ^ k).
Proof.
  intros Hw Hk [Hlo Hhi]. unfold in_int_range, numeric_limits_min,
    numeric_limits_max in *.
  pose proof (pow2_pos k Hk) as Hp.
  pose proof (pow2_pos (w - 1) ltac:(lia)) as Hq.
  pose proof (Z.div_mod x (2 ^ k) ltac:(lia)) as Hd.
  pose proof (Z.mod_pos_bound x (2 ^ k) Hp) as Hm.
  split; nia.
Qed.

Lemma minus_one_shiftr (k : Z) : 0 <= k -> -1 / 2 ^ k = -1.
Proof.
  intros Hk. pose proof (pow2_pos k Hk) as Hp.
  symmetry. apply (Z.div_unique (-1) (2 ^ k) (-1) (2 ^ k - 1)); lia.
Qed.

(** C4: for every integer kind and every signed 32-bit shift argument, read
    as the unsigned amount [s]: [shiftLeft] and [shiftRightLogical] give
    all-zero lanes when [s] is at least the lane width, and otherwise the lane
    shifted left and truncated to the lane width, respectively the unsigned
    reading of the lane shifted right; [shiftRightArithmetic] shifts by [s]
    clamped to the lane width minus one and extends the sign, so lanes of -1
    stay -1.  A negative argument is the large amount [signed_shift + 2^32]. *)
Theorem shift_by_scalar_lanes (type : Kind) (a : Simd128Value) (signed_shift : Z) :
  In type SIMD_INT_TYPES ->
  Simd128Value.map a = type ->
  in_int_range 32 signed_shift ->
  let s := bit_cast_uint 32 signed_shift in
  let w := lane_bits type in
  (signed_shift < 0 -> s = signed_shift + 2 ^ 32 /\ w <= s)
  /\ (exists r,
        SIMD_LSL_FUNCTION type a signed_shift = Ok r
        /\ Simd128Value.map r = type
        /\ forall i, 0 <= i < lane_count type ->
             Simd128Value.get_lane_int type r i
             = if s <? w
               then static_cast_int w (Simd128Value.get_lane_int type a i * 2 ^ s)
               else 0)
  /\ (exists r,
        SIMD_LSR_FUNCTION type a signed_shift = Ok r
        /\ Simd128Value.map r = type
        /\ forall i, 0 <= i < lane_count type ->
             bit_cast_uint w (Simd128Value.get_lane_int type r i)
             = if s <? w
               then bit_cast_uint w (Simd128Value.get_lane_int type a i) / 2 ^ s
               else 0)
  /\ (exists r,
        SIMD_ASR_FUNCTION type a signed_shift = Ok r
        /\ Simd128Value.map r = type
        /\ forall i, 0 <= i < lane_count type ->
             Simd128Value.get_lane_int type r i
             = Simd128Value.get_lane_int type a i / 2 ^ (Z.min s (w - 1))
             /\ (Simd128Value.get_lane_int type a i = -1 ->
                 Simd128Value.get_lane_int type r i = -1)).
Proof.
  intros Hint Ha Hrange s w.
  pose proof (lane_bits_pos type) as Hw. fold w in Hw.
  pose proof (bit_cast_uint_range 32 signed_shift ltac:(lia)) as Hs. fold s in Hs.
  assert (Hw32 : w <= 32) by (subst w; destruct type; cbn [lane_bits]; lia).
  split; [|split; [|split]].
  - intros Hneg.
    unfold in_int_range, numeric_limits_min, numeric_limits_max in Hrange.
    assert (Hs' : s = signed_shift + 2 ^ 32).
    { subst s. unfold bit_cast_uint. symmetry.
      apply (Z.mod_unique_pos signed_shift (2 ^ 32) (-1)); lia. }
    split; [assumption|]. rewrite Hs'. lia.
  - unfold SIMD_LSL_FUNCTION, CONVERT_SHIFT_ARG_CHECKED.
    rewrite CONVERT_ARG_HANDLE_CHECKED_Ok by assumption. cbn [bind].
    eexists. split; [reflexivity|]. split; [reflexivity|].
    intros i Hi. rewrite get_lane_New_int by assumption.
    fold s w. destruct (Z.ltb_spec s w).
    + rewrite array_get_map_indices by assumption.
      rewrite static_cast_int_idem by assumption.
      rewrite Z.shiftl_mul_pow2 by lia. reflexivity.
    + rewrite array_get_map_indices by assumption.
      apply static_cast_int_id; [assumption|].
      unfold in_int_range, numeric_limits_min, numeric_limits_max.
      pose proof (pow2_pos (w - 1) ltac:(lia)). lia.
  - unfold SIMD_LSR_FUNCTION, CONVERT_SHIFT_ARG_CHECKED.
    rewrite CONVERT_ARG_HANDLE_CHECKED_Ok by assumption. cbn [bind].
    eexists. split; [reflexivity|]. split; [reflexivity|].
    intros i Hi. rewrite get_lane_New_int by assumption.
    fold s w. rewrite bit_cast_uint_static_cast_int by assumption.
    destruct (Z.ltb_spec s w).
    + rewrite array_get_map_indices by assumption.
      rewrite bit_cast_uint_static_cast_int by assumption.
      rewrite Z.shiftr_div_pow2 by lia.
      apply bit_cast_uint_small.
      pose proof (bit_cast_uint_range w (Simd128Value.get_lane_int type a i)
                    ltac:(lia)) as Hu.
      pose proof (pow2_pos s ltac:(lia)) as Hp.
      split; [apply Z.div_pos; lia|].
      apply Z.div_lt_upper_bound; nia.
    + rewrite array_get_map_indices by assumption.
      apply bit_cast_uint_small. pose proof (pow2_pos w ltac:(lia)). lia.
  - unfold SIMD_ASR_FUNCTION, CONVERT_SHIFT_ARG_CHECKED.
    rewrite CONVERT_ARG_HANDLE_CHECKED_Ok by assumption. cbn [bind].
    eexists. split; [reflexivity|]. split; [reflexivity|].
    intros i Hi. rewrite get_lane_New_int by assumption.
    fold s w. rewrite array_get_map_indices by assumption.
    assert (Hk : (if s >=? w then w - 1 else s) = Z.min s (w - 1)).
    { destruct (Z.geb_spec s w); lia. }
    rewrite Hk. rewrite Z.shiftr_div_pow2 by lia.
    rewrite static_cast_int_idem by assumption.
    assert (Hlane : static_cast_int w
                      (Simd128Value.get_lane_int type a i / 2 ^ Z.min s (w - 1))
                    = Simd128Value.get_lane_int type a i / 2 ^ Z.min s (w - 1)).
    { apply static_cast_int_id; [assumption|].
      apply shiftr_in_int_range; [assumption | lia |].
      apply get_lane_int_range. }
    rewrite Hlane. split; [reflexivity|].
    intros ->. apply minus_one_shiftr. lia.
Qed.

(** Four lanes of -1 shifted right arithmetically by 100 stay -1, and shifted
    left by 32 become 0. *)
Lemma shift_by_scalar_examples :
  let v := Simd128Value.New_int Int32x4 [-1; -1; -1; -1] in
  (exists r,
     SIMD_ASR_FUNCTION Int32x4 v 100 = Ok r
     /\ Simd128Value.lanes_of Int32x4 r = [-1; -1; -1; -1])
  /\ (exists r,
        SIMD_LSL_FUNCTION Int32x4 v 32 = Ok r
        /\ Simd128Value.lanes_of Int32x4 r = [0; 0; 0; 0]).
Proof.
  intros v.
  assert (Hint : In Int32x4 SIMD_INT_TYPES) by (left; reflexivity).
  assert (Hmap : Simd128Value.map v = Int32x4) by reflexivity.
  split.
  - destruct (shift_by_scalar_lanes Int32x4 v 100 Hint Hmap ltac:(solve_int_range))
      as (_ & _ & _ & r & Hr & _ & Hl).
    exists r. split; [exact Hr|].
    change (Simd128Value.lanes_of Int32x4 r)
      with (List.map (Simd128Value.get_lane_int Int32x4 r) [0; 1; 2; 3]).
    cbn [List.map].
    assert (H : forall i, 0 <= i < 4 -> Simd128Value.get_lane_int Int32x4 r i = -1).
    { intros i Hi. apply (proj2 (Hl i Hi)).
      assert (Hc : i = 0 \/ i = 1 \/ i = 2 \/ i = 3) by lia.
      destruct Hc as [-> | [-> | [-> | ->]]]; vm_compute; reflexivity. }
    rewrite !H by lia. reflexivity.
  - destruct (shift_by_scalar_lanes Int32x4 v 32 Hint Hmap ltac:(solve_int_range))
      as (_ & (r & Hr & _ & Hl) & _).
    exists r. split; [exact Hr|].
    change (Simd128Value.lanes_of Int32x4 r)
      with (List.map (Simd128Value.get_lane_int Int32x4 r) [0; 1; 2; 3]).
    cbn [List.map].
    rewrite !Hl by (cbn [lane_count]; lia). reflexivity.
Defined.

(** ** Lane access *)

Lemma lane_check_cases (name lanes : Z) :
  (0 <= name < lanes /\ CONVERT_SIMD_LANE_ARG_CHECKED name lanes = Ok name)
  \/ (~ (0 <= name < lanes)
      /\ CONVERT_SIMD_LANE_ARG_CHECKED name lanes = Throw RangeError).
Proof.
  destruct (Z_le_dec 0 name) as [H0 | H0]; [destruct (Z_lt_dec name lanes) as [H1 | H1]|].
  - left. split; [lia|]. apply CONVERT_SIMD_LANE_ARG_CHECKED_Ok; lia.
  - right. split; [lia|]. apply CONVERT_SIMD_LANE_ARG_CHECKED_Throw; lia.
  - right. split; [lia|]. apply CONVERT_SIMD_LANE_ARG_CHECKED_Throw; lia.
Qed.

(** A numeric lane stored back occupies the slot it was read from. *)
Lemma slot_of_get_lane (type : Kind) (a : Simd128Value) (i : Z) :
  is_bool_kind type = false ->
  bit_cast_uint (lane_bits type)
    (Simd128Value.slot_of type (Simd128Value.get_lane type a i))
  = Simd128Value.slot (lane_bits type) a i.
Proof.
  intros Hnum.
  pose proof (slot_range (lane_bits type) a i
                ltac:(pose proof (lane_bits_pos type); lia)) as Hr.
  destruct type; try discriminate Hnum;
    cbn [Simd128Value.get_lane Simd128Value.slot_of lane_bits] in *;
    unfold Simd128Value.get_lane_float, Simd128Value.get_lane_int;
    cbn [lane_bits];
    rewrite ?bit_cast_uint_idem by lia;
    rewrite ?bit_cast_uint_static_cast_int by lia;
    apply bit_cast_uint_small; assumption.
Qed.

Lemma numeric_not_bool (type : Kind) :
  In type SIMD_NUMERIC_TYPES -> is_bool_kind type = false.
Proof.
  intros H. destruct type; try reflexivity;
    exfalso; simpl in H; intuition discriminate.
Qed.

Section HostProperties.

Variable Object : Type.
Variable double : Type.
Variable IsNumber : Object -> bool.
Variable Number : Object -> double.
Variable BooleanValue : Object -> bool.
Variable DoubleToFloat32 : double -> Z.
Variable DoubleToInt32 : double -> Z.

Let REPLACE :=
  SIMD_REPLACE_FUNCTION Object double IsNumber Number BooleanValue
    DoubleToFloat32 DoubleToInt32.
Let CONVERT := ConvertNumber double DoubleToFloat32 DoubleToInt32.

Lemma replace_numeric (type : Kind) (x : Object) :
  In type SIMD_NUMERIC_TYPES ->
  IsNumber x = true ->
  replace Object double IsNumber Number BooleanValue DoubleToFloat32 DoubleToInt32
    type x
  = Ok (CONVERT type (Number x)).
Proof.
  intros Hnum Hx. pose proof (numeric_not_bool type Hnum) as Hb.
  destruct type; try discriminate Hb;
    cbn [replace]; unfold GET_NUMERIC_ARG; rewrite Hx; reflexivity.
Qed.

Lemma stored_ConvertNumber (type : Kind) (number : double) :
  Simd128Value.stored type (CONVERT type number) = CONVERT type number.
Proof.
  destruct type; cbn [Simd128Value.stored]; unfold CONVERT; cbn [ConvertNumber];
    try reflexivity;
    unfold ConvertNumber_float, ConvertNumber_int32_t, ConvertNumber_int16_t,
      ConvertNumber_int8_t;
    try (apply static_cast_int_idem; lia).
  apply bit_cast_uint_idem; lia.
Qed.

(** C5: for every vector of a numeric kind, valid lane indices [i] and [j]
    and every number [x], [replaceLane] at [i] succeeds; extracting lane
    [i] of the result gives the per-kind conversion of [x], and for [j]
    other than [i] extracting lane [j] gives what it gives on the input:
    the lane reads the same and its slot holds the same bits. *)
Theorem extract_lane_of_replace_lane (type : Kind) (v : Simd128Value)
  (i j : Z) (x : Object) :
  In type SIMD_NUMERIC_TYPES ->
  Simd128Value.map v = type ->
  0 <= i < lane_count type ->
  0 <= j < lane_count type ->
  IsNumber x = true ->
  exists r,
    REPLACE type v i x = Ok r
    /\ Simd128Value.map r = type
    /\ SIMD_EXTRACT_FUNCTION type r i
       = Ok (extract type (CONVERT type (Number x)))
    /\ (j <> i ->
        SIMD_EXTRACT_FUNCTION type r j = SIMD_EXTRACT_FUNCTION type v j
        /\ Simd128Value.get_lane type r j = Simd128Value.get_lane type v j
        /\ Simd128Value.slot (lane_bits type) r j
           = Simd128Value.slot (lane_bits type) v j).
Proof.
  intros Hnum Hv Hi Hj Hx. unfold REPLACE, SIMD_REPLACE_FUNCTION.
  rewrite CONVERT_ARG_HANDLE_CHECKED_Ok by assumption. cbn [bind].
  rewrite CONVERT_SIMD_LANE_ARG_CHECKED_Ok by assumption. cbn [bind].
  rewrite replace_numeric by assumption. cbn [bind].
  set (lanes := List.map (fun k => Simd128Value.get_lane type v k)
                  (lane_indices (lane_count type))).
  assert (Hlen : Z.of_nat (length lanes) = lane_count type).
  { subst lanes. rewrite length_map, lane_indices_length. lia. }
  eexists. split; [reflexivity|]. split; [reflexivity|].
  split.
  - unfold SIMD_EXTRACT_FUNCTION.
    rewrite CONVERT_ARG_HANDLE_CHECKED_Ok by reflexivity. cbn [bind].
    rewrite CONVERT_SIMD_LANE_ARG_CHECKED_Ok by assumption. cbn [bind].
    rewrite get_lane_New by assumption.
    rewrite array_get_set_same by lia.
    rewrite stored_ConvertNumber. reflexivity.
  - intros Hji.
    assert (Hlane :
      Simd128Value.get_lane type
        (Simd128Value.New type (array_set lanes i (CONVERT type (Number x)))) j
      = Simd128Value.get_lane type v j).
    { rewrite get_lane_New by assumption.
      rewrite array_get_set_other by lia.
      subst lanes. rewrite array_get_map_indices by assumption.
      apply stored_get_lane. }
    split; [|split].
    + unfold SIMD_EXTRACT_FUNCTION.
      rewrite !CONVERT_ARG_HANDLE_CHECKED_Ok by (assumption || reflexivity).
      cbn [bind].
      rewrite CONVERT_SIMD_LANE_ARG_CHECKED_Ok by assumption. cbn [bind].
      rewrite Hlane. reflexivity.
    + exact Hlane.
    + unfold Simd128Value.New. rewrite slot_New_slots by assumption.
      rewrite array_get_slot_of.
      rewrite array_get_set_other by lia.
      subst lanes. rewrite array_get_map_indices by assumption.
      apply slot_of_get_lane, numeric_not_bool; assumption.
Qed.

(** C7: for every kind, on a vector of that kind, [extractLane] and
    [replaceLane] throw [RangeError] when the lane index is outside
    [0, laneCount), [swizzle] throws it when any of its index arguments is,
    and [shuffle] when any of its index arguments is outside
    [0, 2*laneCount): the index is not wrapped and no vector is returned.
    The unsigned extractions of [Int16x8] and [Int8x16] do the same. *)
Theorem lane_index_out_of_range_throws (type : Kind) (a b : Simd128Value)
  (x : Object) (lane : Z) (indices : list Z) (k : Z) :
  Simd128Value.map a = type ->
  Simd128Value.map b = type ->
  (~ (0 <= lane < lane_count type) ->
   SIMD_EXTRACT_FUNCTION type a lane = Throw RangeError
   /\ REPLACE type a lane x = Throw RangeError
   /\ (type = Int16x8 ->
       Runtime_Int16x8UnsignedExtractLane a lane = Throw RangeError)
   /\ (type = Int8x16 ->
       Runtime_Int8x16UnsignedExtractLane a lane = Throw RangeError))
  /\ (0 <= k < lane_count type ->
      ~ (0 <= array_get 0 indices k < lane_count type) ->
      SIMD_SWIZZLE_FUNCTION type a indices = Throw RangeError)
  /\ (0 <= k < lane_count type ->
      ~ (0 <= array_get 0 indices k < 2 * lane_count type) ->
      SIMD_SHUFFLE_FUNCTION type a b indices = Throw RangeError).
Proof.
  intros Ha Hb. split; [|split].
  - intros Hlane. repeat split.
    + unfold SIMD_EXTRACT_FUNCTION.
      rewrite CONVERT_ARG_HANDLE_CHECKED_Ok by assumption. cbn [bind].
      rewrite CONVERT_SIMD_LANE_ARG_CHECKED_Throw by assumption. reflexivity.
    + unfold REPLACE, SIMD_REPLACE_FUNCTION.
      rewrite CONVERT_ARG_HANDLE_CHECKED_Ok by assumption. cbn [bind].
      rewrite CONVERT_SIMD_LANE_ARG_CHECKED_Throw by assumption. reflexivity.
    + intros ->. unfold Runtime_Int16x8UnsignedExtractLane.
      rewrite CONVERT_ARG_HANDLE_CHECKED_Ok by assumption. cbn [bind].
      rewrite CONVERT_SIMD_LANE_ARG_CHECKED_Throw by assumption. reflexivity.
    + intros ->. unfold Runtime_Int8x16UnsignedExtractLane.
      rewrite CONVERT_ARG_HANDLE_CHECKED_Ok by assumption. cbn [bind].
      rewrite CONVERT_SIMD_LANE_ARG_CHECKED_Throw by assumption. reflexivity.
  - intros Hk Hbad. unfold SIMD_SWIZZLE_FUNCTION.
    rewrite CONVERT_ARG_HANDLE_CHECKED_Ok by assumption. cbn [bind].
    rewrite (for_each_Throw _ RangeError); [reflexivity | |].
    + intros i _.
      destruct (lane_check_cases (array_get 0 indices i) (lane_count type))
        as [[_ ->] | [_ ->]]; cbn [bind]; eauto.
    + exists k. split; [apply lane_indices_In; assumption|].
      rewrite CONVERT_SIMD_LANE_ARG_CHECKED_Throw by assumption. reflexivity.
  - intros Hk Hbad. unfold SIMD_SHUFFLE_FUNCTION.
    rewrite !CONVERT_ARG_HANDLE_CHECKED_Ok by assumption. cbn [bind].
    rewrite (for_each_Throw _ RangeError); [reflexivity | |].
    + intros i _.
      destruct (lane_check_cases (array_get 0 indices i) (lane_count type * 2))
        as [[_ ->] | [_ ->]]; cbn [bind]; eauto.
    + exists k. split; [apply lane_indices_In; assumption|].
      rewrite CONVERT_SIMD_LANE_ARG_CHECKED_Throw by lia. reflexivity.
Qed.

End HostProperties.

(** On [Int32x4 (10, 20, 30, 40)]: replacing lane 2 by 7 and extracting lane
    2 gives 7, and lane 1 still gives 20. *)
Lemma extract_lane_of_replace_lane_example :
  let v := Simd128Value.New Int32x4 [10; 20; 30; 40] in
  exists r,
    SIMD_REPLACE_FUNCTION ExampleHost.Object ExampleHost.double
      ExampleHost.IsNumber ExampleHost.Number ExampleHost.BooleanValue
      ExampleHost.DoubleToFloat32 ExampleHost.DoubleToInt32 Int32x4 v 2 7 = Ok r
    /\ SIMD_EXTRACT_FUNCTION Int32x4 r 2 = Ok (NewNumber_int 7)
    /\ SIMD_EXTRACT_FUNCTION Int32x4 r 1 = Ok (NewNumber_int 20).
Proof.
  intros v.
  destruct (extract_lane_of_replace_lane ExampleHost.Object ExampleHost.double
              ExampleHost.IsNumber ExampleHost.Number ExampleHost.BooleanValue
              ExampleHost.DoubleToFloat32 ExampleHost.DoubleToInt32
              Int32x4 v 2 1 7
              ltac:(right; left; reflexivity) eq_refl
              ltac:(cbn [lane_count]; lia) ltac:(cbn [lane_count]; lia) eq_refl)
    as (r & Hr & _ & Hi & Hj).
  exists r. split; [exact Hr|]. split; [exact Hi|].
  rewrite (proj1 (Hj ltac:(lia))). vm_compute. reflexivity.
Defined.

(** On [Int32x4 (10, 20, 30, 40)]: lane 4 and lane -1 are out of range for
    extraction and replacement, index 4 for a swizzle, index 8 for a
    shuffle. *)
Lemma lane_index_out_of_range_examples :
  let v := Simd128Value.New Int32x4 [10; 20; 30; 40] in
  SIMD_EXTRACT_FUNCTION Int32x4 v 4 = Throw RangeError
  /\ SIMD_REPLACE_FUNCTION ExampleHost.Object ExampleHost.double
       ExampleHost.IsNumber ExampleHost.Number ExampleHost.BooleanValue
       ExampleHost.DoubleToFloat32 ExampleHost.DoubleToInt32 Int32x4 v (-1) 7
     = Throw RangeError
  /\ SIMD_SWIZZLE_FUNCTION Int32x4 v [0; 1; 4; 3] = Throw RangeError
  /\ SIMD_SHUFFLE_FUNCTION Int32x4 v v [0; 7; 8; 3] = Throw RangeError.
Proof.
  intros v.
  pose proof (lane_index_out_of_range_throws ExampleHost.Object ExampleHost.double
                ExampleHost.IsNumber ExampleHost.Number ExampleHost.BooleanValue
                ExampleHost.DoubleToFloat32 ExampleHost.DoubleToInt32
                Int32x4 v v 7) as H.
  split; [|split; [|split]].
  - apply (H 4 [] 0 eq_refl eq_refl). cbn [lane_count]. lia.
  - apply (H (-1) [] 0 eq_refl eq_refl). cbn [lane_count]. lia.
  - apply (H 0 [0; 1; 4; 3] 2 eq_refl eq_refl).
    + cbn [lane_count]. lia.
    + change (array_get 0 [0; 1; 4; 3] 2) with 4. cbn [lane_count]. lia.
  - apply (H 0 [0; 7; 8; 3] 2 eq_refl eq_refl).
    + cbn [lane_count]. lia.
    + change (array_get 0 [0; 7; 8; 3] 2) with 8. cbn [lane_count]. lia.
Defined.

(** ** Reinterpreting casts *)

Lemma Runtime_FromBits_numeric (type from_type : Kind) :
  In type SIMD_NUMERIC_TYPES ->
  In from_type SIMD_NUMERIC_TYPES ->
  type <> from_type ->
  Runtime_FromBits type from_type = Some (SIMD_FROM_BITS_FUNCTION type from_type).
Proof.
  intros Ht Hf Hne.
  pose proof (numeric_not_bool _ Ht). pose proof (numeric_not_bool _ Hf).
  unfold Runtime_FromBits.
  replace (from_bits_listed type from_type) with true; [reflexivity|].
  destruct type, from_type; try discriminate; try congruence; reflexivity.
Qed.

(** The functions exist exactly for the pairs of distinct numeric kinds. *)
Lemma Runtime_FromBits_defined (type from_type : Kind) :
  Runtime_FromBits type from_type <> None
  <-> In type SIMD_NUMERIC_TYPES /\ In from_type SIMD_NUMERIC_TYPES
      /\ type <> from_type.
Proof.
  unfold Runtime_FromBits.
  destruct type, from_type;
    match goal with
    | |- context [from_bits_listed ?a ?b] =>
        let c := eval vm_compute in (from_bits_listed a b) in
        change (from_bits_listed a b) with c
    end;
    cbv [In SIMD_NUMERIC_TYPES]; intuition congruence.
Qed.

Lemma SIMD_FROM_BITS_FUNCTION_Ok (type from_type : Kind) (a : Simd128Value) :
  is_bool_kind type = false ->
  Simd128Value.map a = from_type ->
  exists r,
    SIMD_FROM_BITS_FUNCTION type from_type a = Ok r
    /\ Simd128Value.map r = type
    /\ Simd128Value.bits r = Simd128Value.bits a.
Proof.
  intros Hnum Ha. unfold SIMD_FROM_BITS_FUNCTION.
  rewrite CONVERT_ARG_HANDLE_CHECKED_Ok by assumption. cbn [bind].
  eexists. split; [reflexivity|]. split; [reflexivity|].
  apply bits_New_CopyBits; assumption.
Qed.

(** C6, as amended: for every pair of distinct numeric kinds [X] and [Y]
    (Float32x4, Int32x4, Int16x8, Int8x16) and every vector of kind [X], the
    reinterpreting casts to [Y] and back to [X] exist and succeed, and the
    result has the 128 bits of the input; it is the input itself. *)
Theorem from_bits_round_trip_numeric (X Y : Kind) (v : Simd128Value) :
  In X SIMD_NUMERIC_TYPES ->
  In Y SIMD_NUMERIC_TYPES ->
  X <> Y ->
  Simd128Value.map v = X ->
  exists to_Y to_X w u,
    Runtime_FromBits Y X = Some to_Y
    /\ Runtime_FromBits X Y = Some to_X
    /\ to_Y v = Ok w
    /\ to_X w = Ok u
    /\ Simd128Value.BitwiseEquals u v = true
    /\ u = v.
Proof.
  intros HX HY Hne Hv.
  destruct (SIMD_FROM_BITS_FUNCTION_Ok Y X v (numeric_not_bool Y HY) Hv)
    as (w & Hw & Hwmap & Hwbits).
  destruct (SIMD_FROM_BITS_FUNCTION_Ok X Y w (numeric_not_bool X HX) Hwmap)
    as (u & Hu & Humap & Hubits).
  exists (SIMD_FROM_BITS_FUNCTION Y X), (SIMD_FROM_BITS_FUNCTION X Y), w, u.
  assert (Heq : u = v) by (apply Simd128Value_eq; congruence).
  repeat split; try assumption.
  - apply Runtime_FromBits_numeric; auto.
  - apply Runtime_FromBits_numeric; auto.
  - subst u. unfold Simd128Value.BitwiseEquals. apply Z.eqb_refl.
Qed.

(** A [Float32x4] with a signalling NaN, a negative zero, 1.0 and an
    infinity, taken through [Int8x16] and back. *)
Lemma from_bits_round_trip_example :
  let v := Simd128Value.New Float32x4 [0x7F800001; 0x80000000; 0x3F800000; 0x7F800000] in
  exists w u,
    SIMD_FROM_BITS_FUNCTION Int8x16 Float32x4 v = Ok w
    /\ SIMD_FROM_BITS_FUNCTION Float32x4 Int8x16 w = Ok u
    /\ Simd128Value.BitwiseEquals u v = true.
Proof.
  intros v.
  destruct (from_bits_round_trip_numeric Float32x4 Int8x16 v
              ltac:(left; reflexivity)
              ltac:(right; right; right; left; reflexivity)
              ltac:(discriminate) eq_refl)
    as (to_Y & to_X & w & u & HY & HX & Hw & Hu & Hbits & _).
  exists w, u.
  injection HY as <-. injection HX as <-. auto.
Defined.

(** C6, as stated, fails at the boolean kinds: the file defines no
    [Int32x4FromBool32x4Bits] and no [Bool32x4FromInt32x4Bits], so a
    [Bool32x4] cannot be taken to [Int32x4] and back. *)
Lemma from_bits_absent_for_bool_kinds :
  Bool32x4 <> Int32x4
  /\ Runtime_FromBits Int32x4 Bool32x4 = None
  /\ Runtime_FromBits Bool32x4 Int32x4 = None
  /\ ~ from_bits_round_trips Bool32x4 Int32x4.
Proof.
  assert (H1 : Runtime_FromBits Int32x4 Bool32x4 = None) by reflexivity.
  assert (H2 : Runtime_FromBits Bool32x4 Int32x4 = None) by reflexivity.
  split; [discriminate|]. split; [exact H1|]. split; [exact H2|].
  intros H.
  destruct (H (Simd128Value.of_bits Bool32x4 0) eq_refl)
    as (to_Y & _ & _ & _ & HY & _).
  rewrite H1 in HY. discriminate HY.
Qed.

(** ** Floats *)

Lemma exponent_field_eq (a : Z) : Float32.exponent_field a = (a / 2 ^ 23) mod 2 ^ 8.
Proof.
  unfold Float32.exponent_field. change 255 with (Z.ones 8).
  rewrite Z.land_ones, Z.shiftr_div_pow2 by lia. reflexivity.
Qed.

Lemma fraction_field_eq (a : Z) : Float32.fraction_field a = a mod 2 ^ 23.
Proof.
  unfold Float32.fraction_field. change (2 ^ 23 - 1) with (Z.ones 23).
  apply Z.land_ones. lia.
Qed.

Lemma signbit_eq (a : Z) : Float32.signbit a = ((a / 2 ^ 31) mod 2 =? 1).
Proof. apply Z.testbit_eqb. lia. Qed.

Lemma exponent_field_range (a : Z) : 0 <= Float32.exponent_field a < 256.
Proof.
  rewrite exponent_field_eq. change 256 with (2 ^ 8).
  apply Z.mod_pos_bound. lia.
Qed.

Lemma fraction_field_range (a : Z) : 0 <= Float32.fraction_field a < 2 ^ 23.
Proof. rewrite fraction_field_eq. apply Z.mod_pos_bound. lia. Qed.

Lemma abs_clears_sign (a : Z) :
  0 <= a < 2 ^ 32 ->
  Float32.signbit (Float32.abs a) = false
  /\ Float32.abs a = a - (if Float32.signbit a then 2 ^ 31 else 0)
  /\ 0 <= Float32.abs a < 2 ^ 32.
Proof.
  intros Ha. unfold Float32.abs. change 0x7FFFFFFF with (Z.ones 31).
  rewrite Z.land_ones by lia. rewrite !signbit_eq.
  destruct (Z.eqb_spec ((a / 2 ^ 31) mod 2) 1);
    destruct (Z.eqb_spec ((a mod 2 ^ 31 / 2 ^ 31) mod 2) 1);
    Z.div_mod_to_equations; lia.
Qed.

Lemma to_spec_nan (a : Z) : Float32.isnan a = true -> Float32.to_spec a = S754_nan.
Proof.
  unfold Float32.isnan, Float32.to_spec. intros H.
  apply andb_prop in H as [He Hf]. apply Z.eqb_eq in He.
  rewrite He. apply negb_true_iff in Hf. rewrite Hf. reflexivity.
Qed.

Lemma to_spec_nan_inv (a : Z) : Float32.to_spec a = S754_nan -> Float32.isnan a = true.
Proof.
  unfold Float32.isnan, Float32.to_spec.
  destruct (Float32.exponent_field a =? 0); [destruct (_ =? 0); discriminate|].
  destruct (Float32.exponent_field a =? 255); [|discriminate].
  destruct (Float32.fraction_field a =? 0); [discriminate | reflexivity].
Qed.

Lemma SFcompare_None (x y : spec_float) :
  SFcompare x y = None <-> x = S754_nan \/ y = S754_nan.
Proof.
  split.
  - destruct x, y; simpl; intros H; try discriminate H; auto.
  - intros [-> | ->]; [reflexivity | destruct x; reflexivity].
Qed.

Lemma compare_nan (a b : Z) :
  Float32.isnan a = true \/ Float32.isnan b = true ->
  Float32.lt a b = false /\ Float32.gt a b = false /\ Float32.eq a b = false.
Proof.
  intros H.
  assert (Hc : SFcompare (Float32.to_spec a) (Float32.to_spec b) = None).
  { apply SFcompare_None. destruct H as [H | H]; [left | right];
      apply to_spec_nan; assumption. }
  unfold Float32.lt, Float32.gt, Float32.eq. rewrite Hc. auto.
Qed.

Lemma compare_none_nan (a b : Z) :
  Float32.lt a b = false -> Float32.gt a b = false -> Float32.eq a b = false ->
  Float32.isnan a = true \/ Float32.isnan b = true.
Proof.
  unfold Float32.lt, Float32.gt, Float32.eq. intros Hl Hg He.
  destruct (SFcompare (Float32.to_spec a) (Float32.to_spec b)) as [[| |]|] eqn:Hc;
    try discriminate.
  apply SFcompare_None in Hc. destruct Hc; [left | right];
    apply to_spec_nan_inv; assumption.
Qed.

(** The three comparisons exclude each other. *)
Lemma compare_exclusive (a b : Z) :
  (Float32.lt a b = true -> Float32.gt a b = false /\ Float32.eq a b = false)
  /\ (Float32.gt a b = true -> Float32.lt a b = false /\ Float32.eq a b = false)
  /\ (Float32.eq a b = true -> Float32.lt a b = false /\ Float32.gt a b = false).
Proof.
  unfold Float32.lt, Float32.gt, Float32.eq.
  destruct (SFcompare (Float32.to_spec a) (Float32.to_spec b)) as [[| |]|];
    repeat split; intros; try discriminate; reflexivity.
Qed.

(** *** The comparisons are the order of the values *)

Lemma magnitude_compare (m1 k1 m2 k2 : Z) :
  0 < m1 < 2 ^ 24 -> 0 < m2 < 2 ^ 24 -> 0 <= k1 -> 0 <= k2 ->
  (0 < k1 -> 2 ^ 23 <= m1) -> (0 < k2 -> 2 ^ 23 <= m2) ->
  match k1 ?= k2 with
  | Eq => m1 ?= m2
  | Lt => Lt
  | Gt => Gt
  end = (m1 * 2 ^ k1 ?= m2 * 2 ^ k2).
Proof.
  intros H1 H2 K1 K2 C1 C2.
  pose proof (pow2_pos k1 K1) as P1. pose proof (pow2_pos k2 K2) as P2.
  destruct (Z.compare_spec k1 k2) as [-> | Hlt | Hgt].
  - destruct (Z.compare_spec m1 m2), (Z.compare_spec (m1 * 2 ^ k2) (m2 * 2 ^ k2));
      try reflexivity; nia.
  - symmetry. apply Z.compare_lt_iff.
    assert (Hp : 2 * 2 ^ k1 <= 2 ^ k2).
    { replace (2 * 2 ^ k1) with (2 ^ (k1 + 1)) by (rewrite Z.pow_add_r; lia).
      apply Z.pow_le_mono_r; lia. }
    specialize (C2 ltac:(lia)). nia.
  - symmetry. apply Z.compare_gt_iff.
    assert (Hp : 2 * 2 ^ k2 <= 2 ^ k1).
    { replace (2 * 2 ^ k2) with (2 ^ (k2 + 1)) by (rewrite Z.pow_add_r; lia).
      apply Z.pow_le_mono_r; lia. }
    specialize (C1 ltac:(lia)). nia.
Qed.

(** Classification of a pattern that is not a NaN. *)
Lemma to_spec_classes (a : Z) :
  Float32.isnan a = false ->
  let s := Float32.signbit a in
  Float32.scaled a
  = (if s then - (Float32.significand a * 2 ^ Float32.scale a)
     else Float32.significand a * 2 ^ Float32.scale a)
  /\ ((Float32.to_spec a = S754_zero s /\ Float32.significand a = 0 /\ Float32.scale a = 0)
      \/ (Float32.to_spec a
          = S754_finite s (Z.to_pos (Float32.significand a)) (Float32.scale a - 149)
          /\ 0 < Float32.significand a < 2 ^ 24 /\ 0 <= Float32.scale a <= 253
          /\ (0 < Float32.scale a -> 2 ^ 23 <= Float32.significand a))
      \/ (Float32.to_spec a = S754_infinity s
          /\ Float32.significand a = 2 ^ 23 /\ Float32.scale a = 254)).
Proof.
  intros Hnan s.
  pose proof (exponent_field_range a) as He.
  pose proof (fraction_field_range a) as Hf.
  unfold Float32.isnan in Hnan.
  unfold Float32.scaled, Float32.to_spec, Float32.significand, Float32.scale. fold s.
  split; [reflexivity|].
  destruct (Z.eqb_spec (Float32.exponent_field a) 0) as [E0 | E0].
  - destruct (Z.eqb_spec (Float32.fraction_field a) 0) as [F0 | F0].
    + left. auto.
    + right; left. split; [reflexivity|]. lia.
  - destruct (Z.eqb_spec (Float32.exponent_field a) 255) as [E255 | E255].
    + cbn [andb] in Hnan. apply negb_false_iff in Hnan. rewrite Hnan.
      apply Z.eqb_eq in Hnan. right; right. rewrite Hnan, E255. auto.
    + right; left.
      replace (Float32.exponent_field a - 1 - 149)
        with (Float32.exponent_field a - 150) by lia.
      split; [reflexivity|]. lia.
Qed.


Lemma finite_magnitude (m k : Z) :
  0 < m < 2 ^ 24 -> 0 <= k <= 253 -> 0 < m * 2 ^ k < 2 ^ 277.
Proof.
  intros Hm Hk. pose proof (pow2_pos k ltac:(lia)) as Hp.
  assert (Hle : 2 ^ k <= 2 ^ 253) by (apply Z.pow_le_mono_r; lia).
  change (2 ^ 277) with (2 ^ 24 * 2 ^ 253). nia.
Qed.

Lemma switch_Eq_Eq (c : comparison) : Pos.switch_Eq Eq c = c.
Proof. destruct c; reflexivity. Qed.

(** The comparisons of [SpecFloat] on the decoded patterns are the order of
    the values, an infinity lying beyond every finite value. *)
Lemma compare_is_order_of_values (a b : Z) :
  Float32.isnan a = false -> Float32.isnan b = false ->
  SFcompare (Float32.to_spec a) (Float32.to_spec b)
  = Some (Float32.scaled a ?= Float32.scaled b).
Proof.
  intros Ha Hb.
  destruct (to_spec_classes a Ha) as (Sa & Ca).
  destruct (to_spec_classes b Hb) as (Sb & Cb).
  rewrite Sa, Sb.
  assert (Hinf : 2 ^ 23 * 2 ^ 254 = 2 ^ 277) by reflexivity.
  destruct Ca as [(-> & Ma & Ka) | [(-> & Ma & Ka & Na) | (-> & Ma & Ka)]];
  destruct Cb as [(-> & Mb & Kb) | [(-> & Mb & Kb & Nb) | (-> & Mb & Kb)]];
    cbn [SFcompare]; f_equal.
  all: rewrite ?Pos.compare_cont_spec, ?switch_Eq_Eq;
    rewrite ?Pos2Z.inj_compare, ?Z2Pos.id by lia.
  all: try (pose proof (finite_magnitude (Float32.significand a) (Float32.scale a) Ma Ka) as Fa).
  all: try (pose proof (finite_magnitude (Float32.significand b) (Float32.scale b) Mb Kb) as Fb).
  all: try (pose proof (magnitude_compare
                          (Float32.significand a) (Float32.scale a)
                          (Float32.significand b) (Float32.scale b)
                          Ma Mb ltac:(lia) ltac:(lia) Na Nb) as Hc;
            replace (Float32.scale a - 149 ?= Float32.scale b - 149)
              with (Float32.scale a ?= Float32.scale b)
              by (destruct (Z.compare_spec (Float32.scale a) (Float32.scale b)),
                    (Z.compare_spec (Float32.scale a - 149) (Float32.scale b - 149));
                  (reflexivity || lia))).
  all: try (rewrite Ma, Ka); try (rewrite Mb, Kb); rewrite ?Hinf.
  all: destruct (Float32.signbit a), (Float32.signbit b).
  all: rewrite ?Z.compare_opp.
  all: try reflexivity.
  all: try (symmetry;
            first [apply Z.compare_lt_iff | apply Z.compare_gt_iff]; lia).
  - rewrite (Z.compare_antisym (Float32.significand a * 2 ^ Float32.scale a)), <- Hc.
    destruct (Float32.scale a ?= Float32.scale b); reflexivity.
  - exact Hc.
Qed.

(** So [a < b] in C++ is the order of the values. *)
Lemma lt_is_order_of_values (a b : Z) :
  Float32.lt a b = true
  <-> Float32.isnan a = false /\ Float32.isnan b = false
      /\ Float32.scaled a < Float32.scaled b.
Proof.
  unfold Float32.lt. split.
  - intros H.
    destruct (Float32.isnan a) eqn:Ha;
      [rewrite (to_spec_nan a Ha) in H; discriminate H|].
    destruct (Float32.isnan b) eqn:Hb;
      [rewrite (to_spec_nan b Hb) in H;
       destruct (Float32.to_spec a); discriminate H|].
    rewrite (compare_is_order_of_values a b Ha Hb) in H.
    destruct (Z.compare_spec (Float32.scaled a) (Float32.scaled b));
      try discriminate H. auto.
  - intros (Ha & Hb & Hlt).
    rewrite (compare_is_order_of_values a b Ha Hb).
    apply Z.compare_lt_iff in Hlt. rewrite Hlt. reflexivity.
Qed.


Lemma gt_is_order_of_values (a b : Z) :
  Float32.gt a b = true
  <-> Float32.isnan a = false /\ Float32.isnan b = false
      /\ Float32.scaled b < Float32.scaled a.
Proof.
  unfold Float32.gt. split.
  - intros H.
    destruct (Float32.isnan a) eqn:Ha;
      [rewrite (to_spec_nan a Ha) in H; discriminate H|].
    destruct (Float32.isnan b) eqn:Hb;
      [rewrite (to_spec_nan b Hb) in H;
       destruct (Float32.to_spec a); discriminate H|].
    rewrite (compare_is_order_of_values a b Ha Hb) in H.
    destruct (Z.compare_spec (Float32.scaled a) (Float32.scaled b));
      try discriminate H. auto.
  - intros (Ha & Hb & Hlt).
    rewrite (compare_is_order_of_values a b Ha Hb).
    apply Z.compare_gt_iff in Hlt. rewrite Hlt. reflexivity.
Qed.

Lemma eq_is_equality_of_values (a b : Z) :
  Float32.eq a b = true
  <-> Float32.isnan a = false /\ Float32.isnan b = false
      /\ Float32.scaled a = Float32.scaled b.
Proof.
  unfold Float32.eq. split.
  - intros H.
    destruct (Float32.isnan a) eqn:Ha;
      [rewrite (to_spec_nan a Ha) in H; discriminate H|].
    destruct (Float32.isnan b) eqn:Hb;
      [rewrite (to_spec_nan b Hb) in H;
       destruct (Float32.to_spec a); discriminate H|].
    rewrite (compare_is_order_of_values a b Ha Hb) in H.
    destruct (Z.compare_spec (Float32.scaled a) (Float32.scaled b));
      try discriminate H. auto.
  - intros (Ha & Hb & Heq).
    rewrite (compare_is_order_of_values a b Ha Hb).
    apply Z.compare_eq_iff in Heq. rewrite Heq. reflexivity.
Qed.

(** ** Absolute value *)

(** C9, as amended: the file provides [abs] for the float kind only,
    [Runtime_Float32x4Abs]; on a [Float32x4] it succeeds and clears the sign
    bit of each of the four lanes.  No integer kind has an [abs], so no
    integer-minimum case arises. *)
Theorem abs_is_provided_for_float_only (type : Kind) (a : Simd128Value) :
  Simd128Value.map a = Float32x4 ->
  (Runtime_Abs type <> None <-> type = Float32x4)
  /\ Runtime_Abs Float32x4 = Some Runtime_Float32x4Abs
  /\ exists r,
       Runtime_Float32x4Abs a = Ok r
       /\ Simd128Value.map r = Float32x4
       /\ forall i, 0 <= i < 4 ->
            Float32.signbit (Simd128Value.get_lane_float r i) = false
            /\ Simd128Value.get_lane_float r i
               = Simd128Value.get_lane_float a i
                 - (if Float32.signbit (Simd128Value.get_lane_float a i)
                    then 2 ^ 31 else 0).
Proof.
  intros Ha. split; [|split; [reflexivity|]].
  - destruct type; cbn [Runtime_Abs]; split; intros H;
      try discriminate H; try congruence.
  - destruct (SIMD_UNARY_OP_lanes Float32x4 Float32.abs a Ha) as (r & Hr & Hmap & Hl).
    exists r. split; [exact Hr|]. split; [exact Hmap|].
    intros i Hi. specialize (Hl i Hi).
    cbn [Simd128Value.get_lane Simd128Value.stored] in Hl.
    pose proof (slot_range 32 a i ltac:(lia)) as Hx.
    fold (Simd128Value.get_lane_float a i) in Hx.
    destruct (abs_clears_sign _ Hx) as (Hs & Habs & Hrange).
    rewrite bit_cast_uint_small in Hl by assumption.
    rewrite Hl. split; assumption.
Qed.

(** The absolute value of (-1.0, -0.0, 2.0, -infinity). *)
Lemma abs_float_example :
  let a := Simd128Value.New Float32x4 [0xBF800000; 0x80000000; 0x40000000; 0xFF800000] in
  exists r,
    Runtime_Float32x4Abs a = Ok r
    /\ Simd128Value.lanes_of Float32x4 r
       = [0x3F800000; 0x00000000; 0x40000000; 0x7F800000].
Proof.
  intros a.
  destruct (abs_is_provided_for_float_only Float32x4 a eq_refl)
    as (_ & _ & r & Hr & _ & Hl).
  exists r. split; [exact Hr|].
  change (Simd128Value.lanes_of Float32x4 r)
    with (List.map (Simd128Value.get_lane_float r) [0; 1; 2; 3]).
  cbn [List.map].
  rewrite (proj2 (Hl 0 ltac:(lia))), (proj2 (Hl 1 ltac:(lia))),
    (proj2 (Hl 2 ltac:(lia))), (proj2 (Hl 3 ltac:(lia))).
  vm_compute. reflexivity.
Defined.

(** C9, as stated, fails: the file has no [abs] for an integer kind. *)
Lemma abs_absent_for_integer_kinds :
  Runtime_Abs Int32x4 = None
  /\ Runtime_Abs Int16x8 = None
  /\ Runtime_Abs Int8x16 = None
  /\ ~ (forall type, In type SIMD_NUMERIC_TYPES -> Runtime_Abs type <> None).
Proof.
  repeat split. intros H.
  apply (H Int32x4); [right; left; reflexivity | reflexivity].
Qed.

(** ** Minimum and maximum *)

(** The runtime functions apply the lane function to each pair of lanes. *)
Lemma Runtime_Float32x4Min_lanes (a b : Simd128Value) :
  Simd128Value.map a = Float32x4 ->
  Simd128Value.map b = Float32x4 ->
  exists r,
    Runtime_Float32x4Min a b = Ok r
    /\ Simd128Value.map r = Float32x4
    /\ forall i, 0 <= i < 4 ->
         Simd128Value.get_lane_float r i
         = bit_cast_uint 32
             (Min (Simd128Value.get_lane_float a i) (Simd128Value.get_lane_float b i)).
Proof. apply (SIMD_BINARY_OP_lanes Float32x4 Min). Qed.

Lemma Runtime_Float32x4Max_lanes (a b : Simd128Value) :
  Simd128Value.map a = Float32x4 ->
  Simd128Value.map b = Float32x4 ->
  exists r,
    Runtime_Float32x4Max a b = Ok r
    /\ Simd128Value.map r = Float32x4
    /\ forall i, 0 <= i < 4 ->
         Simd128Value.get_lane_float r i
         = bit_cast_uint 32
             (Max (Simd128Value.get_lane_float a i) (Simd128Value.get_lane_float b i)).
Proof. apply (SIMD_BINARY_OP_lanes Float32x4 Max). Qed.

Lemma Min_nan (a b : Z) :
  Float32.isnan a = true \/ Float32.isnan b = true -> Min a b = Float32.quiet_NaN.
Proof.
  intros H. destruct (compare_nan a b H) as (Hl & Hg & He).
  unfold Min. rewrite Hl, Hg, He. reflexivity.
Qed.

Lemma Max_nan (a b : Z) :
  Float32.isnan a = true \/ Float32.isnan b = true -> Max a b = Float32.quiet_NaN.
Proof.
  intros H. destruct (compare_nan a b H) as (Hl & Hg & He).
  unfold Max. rewrite Hl, Hg, He. reflexivity.
Qed.

(** C2: for every pair of float lane values, [Min] returns [a] when [a < b]
    and [b] when [a > b]; when they are equal it returns one of them, of
    negative sign if either is; when no comparison holds, an operand is a NaN
    and the result is a NaN.  [Max] returns [a] when [a > b], [b] when
    [a < b], on equality an operand of positive sign if either is, and a NaN
    likewise.  So min(+0,-0) = min(-0,+0) = -0 and max(+0,-0) = max(-0,+0)
    = +0. *)
Theorem min_max_by_comparison (a b : Z) :
  (Float32.lt a b = true -> Min a b = a /\ Max a b = b)
  /\ (Float32.gt a b = true -> Min a b = b /\ Max a b = a)
  /\ (Float32.eq a b = true ->
      (Min a b = a \/ Min a b = b)
      /\ Float32.signbit (Min a b) = Float32.signbit a || Float32.signbit b
      /\ (Max a b = a \/ Max a b = b)
      /\ Float32.signbit (Max a b) = Float32.signbit a && Float32.signbit b)
  /\ (Float32.lt a b = false -> Float32.gt a b = false -> Float32.eq a b = false ->
      (Float32.isnan a = true \/ Float32.isnan b = true)
      /\ Min a b = Float32.quiet_NaN /\ Max a b = Float32.quiet_NaN)
  /\ (Float32.isnan a = true \/ Float32.isnan b = true ->
      Float32.isnan (Min a b) = true /\ Float32.isnan (Max a b) = true)
  /\ Min Float32.positive_zero Float32.negative_zero = Float32.negative_zero
  /\ Min Float32.negative_zero Float32.positive_zero = Float32.negative_zero
  /\ Max Float32.positive_zero Float32.negative_zero = Float32.positive_zero
  /\ Max Float32.negative_zero Float32.positive_zero = Float32.positive_zero.
Proof.
  destruct (compare_exclusive a b) as (Hlt & Hgt & Heq).
  split; [|split; [|split; [|split; [|repeat split]]]].
  - intros H. destruct (Hlt H) as [Hg He]. unfold Min, Max.
    rewrite H, Hg. auto.
  - intros H. destruct (Hgt H) as [Hl He]. unfold Min, Max.
    rewrite H, Hl. auto.
  - intros H. destruct (Heq H) as [Hl Hg]. unfold Min, Max.
    rewrite H, Hl, Hg.
    destruct (Float32.signbit a) eqn:Ha, (Float32.signbit b) eqn:Hb;
      rewrite ?Ha, ?Hb; auto.
  - intros Hl Hg He. unfold Min, Max. rewrite Hl, Hg, He.
    split; [apply compare_none_nan; assumption | auto].
  - rewrite Min_nan by assumption. reflexivity.
  - rewrite Max_nan by assumption. reflexivity.
Qed.

(** 1.0 against 2.0, the two zeros, and a NaN against 1.0. *)
Lemma min_max_examples :
  (Min 0x3F800000 0x40000000 = 0x3F800000 /\ Max 0x3F800000 0x40000000 = 0x40000000)
  /\ (Min 0x40000000 0x3F800000 = 0x3F800000 /\ Max 0x40000000 0x3F800000 = 0x40000000)
  /\ Float32.signbit (Min 0 0x80000000) = true
  /\ Float32.isnan (Min 0x7FC00001 0x3F800000) = true.
Proof.
  split; [|split; [|split]].
  - apply (proj1 (min_max_by_comparison 0x3F800000 0x40000000)). reflexivity.
  - apply (proj1 (proj2 (min_max_by_comparison 0x40000000 0x3F800000))). reflexivity.
  - destruct (proj1 (proj2 (proj2 (min_max_by_comparison 0 0x80000000))) eq_refl)
      as (_ & -> & _). reflexivity.
  - apply (proj1 (proj2 (proj2 (proj2 (proj2
             (min_max_by_comparison 0x7FC00001 0x3F800000)))))).
    left. reflexivity.
Defined.

(** C10: whenever an operand of [Min] or [Max] is a NaN the result is the
    constant [quiet_NaN], whatever the sign and payload of the operand: the
    results for two pairs of operands with a NaN are the same bits. *)
Theorem min_max_of_nan_is_quiet_NaN (a b a' b' : Z) :
  Float32.isnan a = true \/ Float32.isnan b = true ->
  Float32.isnan a' = true \/ Float32.isnan b' = true ->
  Min a b = Float32.quiet_NaN
  /\ Max a b = Float32.quiet_NaN
  /\ Min a b = Min a' b'
  /\ Max a b = Max a' b'
  /\ Float32.isnan Float32.quiet_NaN = true
  /\ bit_cast_uint 32 Float32.quiet_NaN = Float32.quiet_NaN.
Proof.
  intros H H'. rewrite !Min_nan, !Max_nan by assumption.
  repeat split; reflexivity.
Qed.

(** A signalling NaN with payload 1 against 1.0, and 1.0 against a negative
    quiet NaN with another payload. *)
Lemma min_max_of_nan_examples :
  Min 0x7F800001 0x3F800000 = 0x7FC00000
  /\ Max 0x7F800001 0x3F800000 = 0x7FC00000
  /\ Min 0x7F800001 0x3F800000 = Min 0x3F800000 0xFFC12345
  /\ Max 0x7F800001 0x3F800000 = Max 0x3F800000 0xFFC12345.
Proof.
  destruct (min_max_of_nan_is_quiet_NaN 0x7F800001 0x3F800000 0x3F800000 0xFFC12345
              ltac:(left; reflexivity) ltac:(right; reflexivity))
    as (H1 & H2 & H3 & H4 & _).
  auto.
Defined.

(** ** The whole-vector equality predicates *)

Lemma to_spec_zero (a : Z) :
  Float32.is_zero a = true -> Float32.to_spec a = S754_zero (Float32.signbit a).
Proof.
  unfold Float32.is_zero, Float32.to_spec. intros H.
  apply andb_prop in H as [-> ->]. reflexivity.
Qed.

Lemma to_spec_zero_inv (a : Z) (s : bool) :
  Float32.to_spec a = S754_zero s -> Float32.is_zero a = true.
Proof.
  unfold Float32.is_zero, Float32.to_spec.
  destruct (Float32.exponent_field a =? 0).
  - destruct (Float32.fraction_field a =? 0); [reflexivity | discriminate].
  - destruct (Float32.exponent_field a =? 255);
      [destruct (Float32.fraction_field a =? 0)|]; discriminate.
Qed.

(** The sign of the decoded value is the sign bit. *)
Lemma to_spec_sign (a : Z) :
  match Float32.to_spec a with
  | S754_zero s | S754_infinity s | S754_finite s _ _ => s = Float32.signbit a
  | S754_nan => True
  end.
Proof.
  unfold Float32.to_spec.
  destruct (Float32.exponent_field a =? 0);
    [destruct (Float32.fraction_field a =? 0); reflexivity|].
  destruct (Float32.exponent_field a =? 255);
    [destruct (Float32.fraction_field a =? 0)|]; try reflexivity; exact I.
Qed.

Lemma eq_zeros (x y : Z) :
  Float32.is_zero x = true -> Float32.is_zero y = true -> Float32.eq x y = true.
Proof.
  intros Hx Hy. unfold Float32.eq.
  rewrite (to_spec_zero x Hx), (to_spec_zero y Hy). reflexivity.
Qed.

(** Equal floats of different sign are the two zeros. *)
Lemma eq_of_different_sign (x y : Z) :
  Float32.eq x y = true ->
  Float32.signbit x <> Float32.signbit y ->
  Float32.is_zero x = true /\ Float32.is_zero y = true.
Proof.
  unfold Float32.eq. intros He Hs.
  pose proof (to_spec_sign x) as Sx. pose proof (to_spec_sign y) as Sy.
  pose proof (to_spec_zero_inv x) as Zx. pose proof (to_spec_zero_inv y) as Zy.
  destruct (Float32.to_spec x) as [sx | sx | | sx mx ex],
           (Float32.to_spec y) as [sy | sy | | sy my ey];
    simpl in He; try discriminate He;
    try (split; [eapply Zx | eapply Zy]; reflexivity);
    subst sx sy;
    destruct (Float32.signbit x), (Float32.signbit y);
    try discriminate He; congruence.
Qed.

Lemma SameValueZero_lane_alt (x y : Z) :
  Float32x4.SameValueZero_lane x y
  = Float32x4.SameValue_lane x y || (Float32.is_zero x && Float32.is_zero y).
Proof.
  unfold Float32x4.SameValueZero_lane, Float32x4.SameValue_lane.
  destruct (Float32.isnan x && Float32.isnan y); [reflexivity|].
  cbn [orb].
  destruct (Float32.eq x y) eqn:He.
  - destruct (Bool.eqb (Float32.signbit x) (Float32.signbit y)) eqn:Hs;
      [reflexivity|].
    apply eqb_false_iff in Hs.
    destruct (eq_of_different_sign x y He Hs) as [-> ->]. reflexivity.
  - cbn [andb orb].
    destruct (Float32.is_zero x) eqn:Hx; [|reflexivity].
    destruct (Float32.is_zero y) eqn:Hy; [|reflexivity].
    rewrite (eq_zeros x y Hx Hy) in He. discriminate He.
Qed.

Lemma SameValue_lane_nan (x y : Z) :
  Float32.isnan x = true -> Float32.isnan y = true ->
  Float32x4.SameValue_lane x y = true /\ Float32x4.SameValueZero_lane x y = true.
Proof.
  intros Hx Hy. unfold Float32x4.SameValue_lane, Float32x4.SameValueZero_lane.
  rewrite Hx, Hy. auto.
Qed.

Lemma forallb_lanes (p : Z -> bool) (n : Z) :
  forallb p (lane_indices n) = true <-> forall i, 0 <= i < n -> p i = true.
Proof.
  rewrite forallb_forall. split; intros H i Hi; apply H;
    apply lane_indices_In; assumption.
Qed.

(** C1: the two predicates on two vectors.  On [Float32x4] operands
    [sameValue] holds iff every pair of lanes has the same value, a NaN being
    the same as any NaN and +0 not the same as -0; [sameValueZero] holds iff
    every pair of lanes has the same value or is a pair of zeros.  On
    operands of one kind other than [Float32x4] both are [BitwiseEquals].  On
    operands of different kinds, and when the second is no SIMD value, both
    return false and do not throw. *)
Theorem same_value_predicates (a b : Simd128Value) (x y : Z) :
  (Float32.isnan x = true -> Float32.isnan y = true ->
   Float32x4.SameValue_lane x y = true /\ Float32x4.SameValueZero_lane x y = true)
  /\ Float32x4.SameValue_lane Float32.positive_zero Float32.negative_zero = false
  /\ Float32x4.SameValue_lane Float32.negative_zero Float32.positive_zero = false
  /\ Float32x4.SameValueZero_lane Float32.positive_zero Float32.negative_zero = true
  /\ Float32x4.SameValueZero_lane Float32.negative_zero Float32.positive_zero = true
  /\ Float32x4.SameValueZero_lane x y
     = Float32x4.SameValue_lane x y || (Float32.is_zero x && Float32.is_zero y)
  /\ (Simd128Value.map a = Float32x4 -> Simd128Value.map b = Float32x4 ->
      exists sv svz,
        Runtime_SimdSameValue a (Some b) = Ok sv
        /\ Runtime_SimdSameValueZero a (Some b) = Ok svz
        /\ (sv = true <->
            forall i, 0 <= i < 4 ->
              Float32x4.SameValue_lane (Simd128Value.get_lane_float a i)
                (Simd128Value.get_lane_float b i) = true)
        /\ (svz = true <->
            forall i, 0 <= i < 4 ->
              Float32x4.SameValueZero_lane (Simd128Value.get_lane_float a i)
                (Simd128Value.get_lane_float b i) = true))
  /\ (Simd128Value.map a = Simd128Value.map b ->
      Simd128Value.map a <> Float32x4 ->
      Runtime_SimdSameValue a (Some b) = Ok (Simd128Value.BitwiseEquals a b)
      /\ Runtime_SimdSameValueZero a (Some b) = Ok (Simd128Value.BitwiseEquals a b))
  /\ (Simd128Value.map a <> Simd128Value.map b ->
      Runtime_SimdSameValue a (Some b) = Ok false
      /\ Runtime_SimdSameValueZero a (Some b) = Ok false)
  /\ Runtime_SimdSameValue a None = Ok false
  /\ Runtime_SimdSameValueZero a None = Ok false.
Proof.
  split; [apply SameValue_lane_nan|].
  do 4 (split; [reflexivity|]).
  split; [apply SameValueZero_lane_alt|].
  split; [|split; [|split; [|split; reflexivity]]].
  - intros Ha Hb. unfold Runtime_SimdSameValue, Runtime_SimdSameValueZero.
    rewrite Ha, Hb. rewrite Kind_eqb_refl.
    eexists; eexists. split; [reflexivity|]. split; [reflexivity|].
    split; apply forallb_lanes.
  - intros Hab Hne. unfold Runtime_SimdSameValue, Runtime_SimdSameValueZero.
    rewrite <- Hab, Kind_eqb_refl, (Kind_eqb_neq _ _ Hne). auto.
  - intros Hne. unfold Runtime_SimdSameValue, Runtime_SimdSameValueZero.
    rewrite (Kind_eqb_neq _ _ Hne). auto.
Qed.

(** On (+0, NaN, 1.0, 2.0) against (-0, another NaN, 1.0, 2.0): [sameValue]
    is false and [sameValueZero] true.  On two [Int32x4] of the same lanes
    both are true, on an [Int32x4] against an [Int16x8] of the same bits both
    are false. *)
Lemma same_value_examples :
  let a := Simd128Value.New Float32x4 [0x00000000; 0x7FC00000; 0x3F800000; 0x40000000] in
  let b := Simd128Value.New Float32x4 [0x80000000; 0xFFC00001; 0x3F800000; 0x40000000] in
  let c := Simd128Value.New Int32x4 [1; 2; 3; 4] in
  let d := Simd128Value.of_bits Int16x8 (Simd128Value.bits c) in
  Runtime_SimdSameValue a (Some b) = Ok false
  /\ Runtime_SimdSameValueZero a (Some b) = Ok true
  /\ Runtime_SimdSameValue c (Some c) = Ok true
  /\ Runtime_SimdSameValueZero c (Some c) = Ok true
  /\ Runtime_SimdSameValue c (Some d) = Ok false
  /\ Runtime_SimdSameValueZero c (Some d) = Ok false.
Proof.
  intros a b c d.
  pose proof (same_value_predicates c c 0 0) as Hc.
  pose proof (same_value_predicates c d 0 0) as Hd.
  destruct Hc as (_ & _ & _ & _ & _ & _ & _ & Hsame & _).
  destruct Hd as (_ & _ & _ & _ & _ & _ & _ & _ & Hdiff & _).
  destruct (Hsame eq_refl ltac:(discriminate)) as [H1 H2].
  destruct (Hdiff ltac:(discriminate)) as [H3 H4].
  split; [vm_compute; reflexivity|]. split; [vm_compute; reflexivity|].
  split; [rewrite H1; vm_compute; reflexivity|].
  split; [rewrite H2; vm_compute; reflexivity|].
  split; assumption.
Defined.

(** ** Value-preserving casts *)

Lemma int32_limits_as_float :
  Float32.to_spec (Float32.of_int32 (numeric_limits_min 32)) = S754_finite true 8388608 8
  /\ Float32.to_spec (Float32.of_int32 (numeric_limits_max 32)) = S754_finite false 8388608 8.
Proof. split; vm_compute; reflexivity. Qed.

(** The magnitude of a pattern, in units of [2^-149]. *)
Lemma scaled_magnitude (a : Z) :
  let magnitude := Float32.significand a * 2 ^ Float32.scale a in
  Float32.scaled a = (if Float32.signbit a then - magnitude else magnitude)
  /\ 0 <= magnitude
  /\ (Float32.exponent_field a < 158 -> magnitude <= 2 ^ 180 - 2 ^ 156)
  /\ (158 <= Float32.exponent_field a -> 2 ^ 180 <= magnitude).
Proof.
  intros magnitude.
  pose proof (exponent_field_range a) as He.
  pose proof (fraction_field_range a) as Hm.
  split; [reflexivity|].
  subst magnitude. unfold Float32.significand, Float32.scale.
  destruct (Z.eqb_spec (Float32.exponent_field a) 0) as [E0 | E0].
  - rewrite Z.pow_0_r, Z.mul_1_r. repeat split; lia.
  - pose proof (pow2_pos (Float32.exponent_field a - 1) ltac:(lia)) as Hp.
    split; [nia|]. split; intros H.
    + assert (Hle : 2 ^ (Float32.exponent_field a - 1) <= 2 ^ 156)
        by (apply Z.pow_le_mono_r; lia).
      change (2 ^ 180 - 2 ^ 156) with ((2 ^ 24 - 1) * 2 ^ 156).
      transitivity ((2 ^ 24 - 1) * 2 ^ (Float32.exponent_field a - 1)); [|nia].
      apply Z.mul_le_mono_nonneg_r; lia.
    + assert (Hge : 2 ^ 157 <= 2 ^ (Float32.exponent_field a - 1))
        by (apply Z.pow_le_mono_r; lia).
      change (2 ^ 180) with (2 ^ 23 * 2 ^ 157).
      transitivity (2 ^ 23 * 2 ^ (Float32.exponent_field a - 1)); [nia|].
      apply Z.mul_le_mono_nonneg_r; lia.
Qed.

(** [CanCast] holds exactly below the binade of [2^31]. *)
Lemma CanCast_float_exponent (a : Z) :
  CanCast_float a = true <-> Float32.exponent_field a < 158.
Proof.
  unfold CanCast_float, Float32.gt, Float32.lt.
  destruct int32_limits_as_float as [-> ->].
  pose proof (exponent_field_range a) as He.
  pose proof (fraction_field_range a) as Hm.
  unfold Float32.to_spec.
  destruct (Z.eqb_spec (Float32.exponent_field a) 0) as [E0 | E0].
  { destruct (Float32.fraction_field a =? 0), (Float32.signbit a);
      cbn [SFcompare andb Z.compare]; split; (reflexivity || lia). }
  destruct (Z.eqb_spec (Float32.exponent_field a) 255) as [E255 | E255].
  { destruct (Float32.fraction_field a =? 0), (Float32.signbit a);
      cbn [SFcompare andb]; split; (discriminate || lia). }
  cbn [SFcompare].
  rewrite !Pos.compare_cont_spec. cbn [Pos.switch_Eq].
  rewrite Pos2Z.inj_compare, Z2Pos.id by lia.
  destruct (Float32.signbit a);
    destruct (Z.compare_spec (Float32.exponent_field a - 150) 8) as [H | H | H];
    cbn [andb];
    try (split; [discriminate | lia]);
    try (split; [lia | reflexivity]);
    destruct (Z.compare_spec (Float32.fraction_field a + 2 ^ 23) 8388608);
    cbn [CompOpp]; split; (discriminate || lia).
Qed.

Lemma value_in_int32_range (a : Z) :
  (exists q, Float32.value a = Some q
             /\ inject_Z (numeric_limits_min 32) < q
             /\ q < inject_Z (numeric_limits_max 32))%Q
  <-> Float32.exponent_field a < 158.
Proof.
  pose proof (exponent_field_range a) as He.
  destruct (scaled_magnitude a) as (Hs & Hm0 & Hlt & Hge).
  set (magnitude := Float32.significand a * 2 ^ Float32.scale a) in *.
  unfold Float32.value.
  assert (Hd : Z.pos (2 ^ 149) = 2 ^ 149) by reflexivity.
  assert (Hmin : numeric_limits_min 32 * 2 ^ 149 = - 2 ^ 180) by reflexivity.
  assert (Hmax : numeric_limits_max 32 * 2 ^ 149 = 2 ^ 180 - 2 ^ 149) by reflexivity.
  split.
  - intros (q & Hq & Hlo & Hhi).
    destruct (Z.eqb_spec (Float32.exponent_field a) 255); [discriminate Hq|].
    injection Hq as <-.
    unfold Qlt in Hlo, Hhi. cbn [Qnum Qden inject_Z] in Hlo, Hhi.
    rewrite Hd in Hlo, Hhi. rewrite Hmin in Hlo. rewrite Hmax in Hhi.
    destruct (Z_lt_dec (Float32.exponent_field a) 158) as [|Hbig]; [assumption|].
    specialize (Hge ltac:(lia)). rewrite Hs in Hlo, Hhi.
    destruct (Float32.signbit a); lia.
  - intros Hsmall. specialize (Hlt Hsmall).
    destruct (Z.eqb_spec (Float32.exponent_field a) 255); [lia|].
    eexists. split; [reflexivity|].
    unfold Qlt. cbn [Qnum Qden inject_Z].
    rewrite Hd, Hmin, Hmax, Hs.
    assert (2 ^ 156 > 2 ^ 149) by reflexivity.
    destruct (Float32.signbit a); lia.
Qed.

Lemma SIMD_FROM_FUNCTION_Ok (type from_type : Kind)
  (CanCast : lane_t from_type -> bool)
  (static_cast : lane_t from_type -> lane_t type) (a : Simd128Value) :
  lane_count from_type = lane_count type ->
  Simd128Value.map a = from_type ->
  (forall i, 0 <= i < lane_count type ->
     CanCast (Simd128Value.get_lane from_type a i) = true) ->
  exists r,
    SIMD_FROM_FUNCTION type from_type CanCast static_cast a = Ok r
    /\ Simd128Value.map r = type
    /\ forall i, 0 <= i < lane_count type ->
         Simd128Value.get_lane type r i
         = Simd128Value.stored type
             (static_cast (Simd128Value.get_lane from_type a i)).
Proof.
  intros Hn Ha Hall. unfold SIMD_FROM_FUNCTION.
  rewrite CONVERT_ARG_HANDLE_CHECKED_Ok by assumption. cbn [bind].
  rewrite (for_each_Ok _
             (fun i => static_cast (Simd128Value.get_lane from_type a i))).
  - cbn [bind]. eexists. split; [reflexivity|]. split; [reflexivity|].
    intros i Hi. rewrite get_lane_New by assumption.
    rewrite array_get_map_indices by assumption. reflexivity.
  - intros i Hi. apply lane_indices_In in Hi.
    rewrite Hall by assumption. reflexivity.
Qed.

Lemma SIMD_FROM_FUNCTION_Throw (type from_type : Kind)
  (CanCast : lane_t from_type -> bool)
  (static_cast : lane_t from_type -> lane_t type) (a : Simd128Value) :
  Simd128Value.map a = from_type ->
  (exists i, 0 <= i < lane_count type
             /\ CanCast (Simd128Value.get_lane from_type a i) = false) ->
  SIMD_FROM_FUNCTION type from_type CanCast static_cast a = Throw RangeError.
Proof.
  intros Ha (k & Hk & Hbad). unfold SIMD_FROM_FUNCTION.
  rewrite CONVERT_ARG_HANDLE_CHECKED_Ok by assumption. cbn [bind].
  rewrite (for_each_Throw _ RangeError); [reflexivity | |].
  - intros i _. destruct (CanCast (Simd128Value.get_lane from_type a i));
      cbn [RUNTIME_ASSERT bind]; eauto.
  - exists k. split; [apply lane_indices_In; assumption|].
    rewrite Hbad. reflexivity.
Qed.


(** On a lane that [CanCast] accepts, [static_cast<int32_t>] is the value
    truncated towards zero. *)
Lemma to_int32_truncates (a : Z) :
  CanCast_float a = true ->
  Float32.to_int32 a = Z.quot (Float32.scaled a) (2 ^ 149).
Proof.
  intros Hc. apply CanCast_float_exponent in Hc.
  pose proof (exponent_field_range a) as He.
  assert (Hnan : Float32.isnan a = false).
  { unfold Float32.isnan. destruct (Z.eqb_spec (Float32.exponent_field a) 255);
      [lia | reflexivity]. }
  destruct (scaled_magnitude a) as (_ & _ & Hlt & _). specialize (Hlt Hc).
  destruct (to_spec_classes a Hnan)
    as (Hs & [(Hz & Ma & Ka) | [(Hf & Ma & Ka & Na) | (Hi & Ma & Ka)]]).
  - unfold Float32.to_int32. rewrite Hz, Hs, Ma.
    destruct (Float32.signbit a); reflexivity.
  - unfold Float32.to_int32. rewrite Hf, Hs, Z2Pos.id by lia.
    set (m := Float32.significand a) in *. set (k := Float32.scale a) in *.
    pose proof (pow2_pos k ltac:(lia)) as Pk.
    assert (Hq : (if 0 <=? k - 149 then m * 2 ^ (k - 149) else m / 2 ^ (- (k - 149)))
                 = m * 2 ^ k / 2 ^ 149).
    { destruct (Z.leb_spec 0 (k - 149)).
      - replace k with ((k - 149) + 149) at 2 by lia.
        rewrite Z.pow_add_r, Z.mul_assoc by lia.
        rewrite Z.div_mul by lia. reflexivity.
      - replace 149 with (k + (149 - k)) at 2 by lia.
        rewrite Z.pow_add_r by lia.
        rewrite (Z.mul_comm (2 ^ k)), Z.div_mul_cancel_r
          by (pose proof (pow2_pos (149 - k)); lia).
        f_equal. f_equal. lia. }
    rewrite Hq.
    assert (Hb : 0 <= m * 2 ^ k / 2 ^ 149 < 2 ^ 31).
    { split; [apply Z.div_pos; nia|].
      apply Z.div_lt_upper_bound; [lia|].
      change (2 ^ 149 * 2 ^ 31) with (2 ^ 180).
      assert (0 < 2 ^ 156) by reflexivity. lia. }
    destruct (Float32.signbit a).
    + rewrite Z.quot_opp_l by lia. rewrite Z.quot_div_nonneg by nia.
      apply static_cast_int_id; [lia|].
      unfold in_int_range, numeric_limits_min, numeric_limits_max. lia.
    + rewrite Z.quot_div_nonneg by nia.
      apply static_cast_int_id; [lia|].
      unfold in_int_range, numeric_limits_min, numeric_limits_max. lia.
  - unfold Float32.scale in Ka.
    destruct (Float32.exponent_field a =? 0); lia.
Qed.

(** C3: [CanCast] accepts a float lane iff it is finite and its value lies
    strictly between the least and the greatest [int32_t]; a NaN, an
    infinity and a value at or beyond either limit are refused.  The cast of
    a [Float32x4] to [Int32x4] returns a vector, each lane converted, when
    every lane is accepted, and throws [RangeError], returning no vector,
    when some lane is refused.  The cast of an [Int32x4] to [Float32x4]
    always returns a vector. *)
Theorem value_preserving_casts (v : Simd128Value) (x : Z) :
  (CanCast_float x = true
   <-> (exists q, Float32.value x = Some q
                  /\ inject_Z (numeric_limits_min 32) < q
                  /\ q < inject_Z (numeric_limits_max 32))%Q)
  /\ (Float32.isnan x = true -> CanCast_float x = false)
  /\ (Simd128Value.map v = Float32x4 ->
      ((forall i, 0 <= i < 4 ->
          CanCast_float (Simd128Value.get_lane_float v i) = true) ->
       exists r,
         Runtime_Int32x4FromFloat32x4 v = Ok r
         /\ Simd128Value.map r = Int32x4
         /\ forall i, 0 <= i < 4 ->
              Simd128Value.get_lane_int Int32x4 r i
              = Float32.to_int32 (Simd128Value.get_lane_float v i))
      /\ ((exists i, 0 <= i < 4
                     /\ CanCast_float (Simd128Value.get_lane_float v i) = false) ->
          Runtime_Int32x4FromFloat32x4 v = Throw RangeError))
  /\ (Simd128Value.map v = Int32x4 ->
      exists r,
        Runtime_Float32x4FromInt32x4 v = Ok r
        /\ Simd128Value.map r = Float32x4
        /\ forall i, 0 <= i < 4 ->
             Simd128Value.get_lane_float r i
             = bit_cast_uint 32
                 (Float32.of_int32 (Simd128Value.get_lane_int Int32x4 v i))).
Proof.
  split; [|split; [|split]].
  - rewrite value_in_int32_range. apply CanCast_float_exponent.
  - intros Hnan. destruct (CanCast_float x) eqn:Hc; [|reflexivity].
    apply CanCast_float_exponent in Hc.
    unfold Float32.isnan in Hnan. apply andb_prop in Hnan as [He _].
    apply Z.eqb_eq in He. lia.
  - intros Hv. split.
    + intros Hall.
      destruct (SIMD_FROM_FUNCTION_Ok Int32x4 Float32x4 CanCast_float
                  Float32.to_int32 v eq_refl Hv Hall) as (r & Hr & Hmap & Hl).
      exists r. split; [exact Hr|]. split; [exact Hmap|].
      intros i Hi. specialize (Hl i Hi).
      cbn [Simd128Value.get_lane Simd128Value.stored] in Hl. rewrite Hl.
      unfold Float32.to_int32.
      destruct (Float32.to_spec (Simd128Value.get_lane_float v i));
        try reflexivity.
      apply static_cast_int_idem. lia.
    + intros Hbad.
      apply (SIMD_FROM_FUNCTION_Throw Int32x4 Float32x4 CanCast_float
               Float32.to_int32 v Hv Hbad).
  - intros Hv.
    destruct (SIMD_FROM_FUNCTION_Ok Float32x4 Int32x4 CanCast_int32
                Float32.of_int32 v eq_refl Hv ltac:(reflexivity))
      as (r & Hr & Hmap & Hl).
    exists r. split; [exact Hr|]. split; [exact Hmap|]. exact Hl.
Qed.

(** The limits: [2^31] and [-2^31] are refused, the floats next to them,
    [2147483520] and [-2147483520], are accepted.  (1.5, -3.0, 0.0,
    2147483520.0) casts to (1, -3, 0, 2147483520); with a NaN lane the cast
    throws; (1, -2, 3, 16777217) casts to floats. *)
Lemma value_preserving_cast_examples :
  let v := Simd128Value.New Float32x4 [0x3FC00000; 0xC0400000; 0x00000000; 0x4EFFFFFF] in
  let n := Simd128Value.New Float32x4 [0x3FC00000; 0x7FC00000; 0x00000000; 0x4EFFFFFF] in
  let k := Simd128Value.New Int32x4 [1; -2; 3; 16777217] in
  CanCast_float 0x4F000000 = false
  /\ CanCast_float 0xCF000000 = false
  /\ CanCast_float 0x4EFFFFFF = true
  /\ CanCast_float 0xCEFFFFFF = true
  /\ (exists r, Runtime_Int32x4FromFloat32x4 v = Ok r
                /\ Simd128Value.lanes_of Int32x4 r = [1; -3; 0; 2147483520])
  /\ Runtime_Int32x4FromFloat32x4 n = Throw RangeError
  /\ (exists r, Runtime_Float32x4FromInt32x4 k = Ok r
                /\ Simd128Value.lanes_of Float32x4 r
                   = [0x3F800000; 0xC0000000; 0x40400000; 0x4B800000]).
Proof.
  intros v n k.
  do 4 (split; [vm_compute; reflexivity|]).
  split; [|split].
  - destruct (value_preserving_casts v 0) as (_ & _ & Hv & _).
    destruct (proj1 (Hv eq_refl)) as (r & Hr & _ & Hl).
    { intros i Hi. assert (Hc : i = 0 \/ i = 1 \/ i = 2 \/ i = 3) by lia.
      destruct Hc as [-> | [-> | [-> | ->]]]; vm_compute; reflexivity. }
    exists r. split; [exact Hr|].
    change (Simd128Value.lanes_of Int32x4 r)
      with (List.map (Simd128Value.get_lane_int Int32x4 r) [0; 1; 2; 3]).
    cbn [List.map]. rewrite !Hl by lia. vm_compute. reflexivity.
  - destruct (value_preserving_casts n 0) as (_ & _ & Hn & _).
    apply (proj2 (Hn eq_refl)). exists 1. split; [lia|]. vm_compute. reflexivity.
  - destruct (value_preserving_casts k 0) as (_ & _ & _ & Hk).
    destruct (Hk eq_refl) as (r & Hr & _ & Hl).
    exists r. split; [exact Hr|].
    change (Simd128Value.lanes_of Float32x4 r)
      with (List.map (Simd128Value.get_lane_float r) [0; 1; 2; 3]).
    cbn [List.map]. rewrite !Hl by lia. vm_compute. reflexivity.
Defined.

(** * Further properties of the runtime functions *)

(** ** A vector is determined by its kind and its slots *)

Lemma map_lane_indices_ext {B : Type} (f g : Z -> B) (n : Z) :
  (forall i, 0 <= i < n -> f i = g i) ->
  List.map f (lane_indices n) = List.map g (lane_indices n).
Proof.
  intros H. apply map_ext_in. intros i Hi. apply H, lane_indices_In, Hi.
Qed.

Lemma bits_pack_slots (type : Kind) (a : Simd128Value) :
  Simd128Value.bits a
  = Simd128Value.pack (lane_bits type)
      (List.map (Simd128Value.slot (lane_bits type) a)
         (lane_indices (lane_count type))).
Proof.
  pose proof (lane_bits_pos type) as Hw. pose proof (lane_count_pos type) as Hn.
  transitivity
    (Simd128Value.pack (lane_bits type)
       (List.map
          (fun k => (Simd128Value.bits a / 2 ^ (lane_bits type * Z.of_nat k))
                    mod 2 ^ lane_bits type)
          (seq 0 (Z.to_nat (lane_count type))))).
  - rewrite pack_slots_of by assumption.
    rewrite Z.mul_0_r, Z.pow_0_r, Z.div_1_r, Z2Nat.id, lane_layout by lia.
    symmetry. apply Z.mod_small, bits_range.
  - f_equal. unfold lane_indices. rewrite map_map.
    apply map_ext_in. intros k Hk.
    rewrite slot_div_mod by lia. reflexivity.
Qed.

Lemma vector_ext (type : Kind) (a b : Simd128Value) :
  Simd128Value.map a = Simd128Value.map b ->
  (forall i, 0 <= i < lane_count type ->
     Simd128Value.slot (lane_bits type) a i = Simd128Value.slot (lane_bits type) b i) ->
  a = b.
Proof.
  intros Hm H. apply Simd128Value_eq; [assumption|].
  rewrite (bits_pack_slots type a), (bits_pack_slots type b).
  f_equal. apply map_lane_indices_ext, H.
Qed.

Lemma vector_ext_lanes (type : Kind) (a b : Simd128Value) :
  is_bool_kind type = false ->
  Simd128Value.map a = Simd128Value.map b ->
  (forall i, 0 <= i < lane_count type ->
     Simd128Value.get_lane type a i = Simd128Value.get_lane type b i) ->
  a = b.
Proof.
  intros Hnum Hm H. apply (vector_ext type); [assumption|].
  intros i Hi. rewrite <- !slot_of_get_lane by assumption.
  rewrite H by assumption. reflexivity.
Qed.

Lemma New_slots_ext (type : Kind) (l1 l2 : list Z) :
  (forall i, 0 <= i < lane_count type ->
     bit_cast_uint (lane_bits type) (array_get 0 l1 i)
     = bit_cast_uint (lane_bits type) (array_get 0 l2 i)) ->
  Simd128Value.New_slots type l1 = Simd128Value.New_slots type l2.
Proof.
  intros H. apply (vector_ext type); [reflexivity|].
  intros i Hi. rewrite !slot_New_slots by assumption. apply H, Hi.
Qed.

Lemma New_get_lanes (type : Kind) (a : Simd128Value) :
  is_bool_kind type = false ->
  Simd128Value.map a = type ->
  Simd128Value.New type (Simd128Value.lanes_of type a) = a.
Proof.
  intros Hnum Hm. apply (vector_ext_lanes type); [assumption | symmetry; exact Hm |].
  intros i Hi. rewrite get_lane_New by assumption.
  unfold Simd128Value.lanes_of.
  rewrite array_get_map_indices by assumption. apply stored_get_lane.
Qed.

(** ** Swizzle and shuffle *)

Lemma SIMD_SWIZZLE_FUNCTION_Ok (type : Kind) (a : Simd128Value) (indices : list Z) :
  Simd128Value.map a = type ->
  (forall i, 0 <= i < lane_count type ->
     0 <= array_get 0 indices i < lane_count type) ->
  SIMD_SWIZZLE_FUNCTION type a indices
  = Ok (Simd128Value.New type
          (List.map (fun i => Simd128Value.get_lane type a (array_get 0 indices i))
             (lane_indices (lane_count type)))).
Proof.
  intros Ha Hidx. unfold SIMD_SWIZZLE_FUNCTION.
  rewrite CONVERT_ARG_HANDLE_CHECKED_Ok by assumption. cbn [bind].
  rewrite (for_each_Ok _
             (fun i => Simd128Value.get_lane type a (array_get 0 indices i))).
  - reflexivity.
  - intros i Hi. apply lane_indices_In in Hi.
    rewrite CONVERT_SIMD_LANE_ARG_CHECKED_Ok by (apply Hidx, Hi). reflexivity.
Qed.

Lemma SIMD_SHUFFLE_FUNCTION_Ok (type : Kind) (a b : Simd128Value) (indices : list Z) :
  Simd128Value.map a = type ->
  Simd128Value.map b = type ->
  (forall i, 0 <= i < lane_count type ->
     0 <= array_get 0 indices i < lane_count type * 2) ->
  SIMD_SHUFFLE_FUNCTION type a b indices
  = Ok (Simd128Value.New type
          (List.map
             (fun i =>
                let index := array_get 0 indices i in
                if index <? lane_count type
                then Simd128Value.get_lane type a index
                else Simd128Value.get_lane type b (index - lane_count type))
             (lane_indices (lane_count type)))).
Proof.
  intros Ha Hb Hidx. unfold SIMD_SHUFFLE_FUNCTION.
  rewrite !CONVERT_ARG_HANDLE_CHECKED_Ok by assumption. cbn [bind].
  rewrite (for_each_Ok _
             (fun i =>
                let index := array_get 0 indices i in
                if index <? lane_count type
                then Simd128Value.get_lane type a index
                else Simd128Value.get_lane type b (index - lane_count type))).
  - reflexivity.
  - intros i Hi. apply lane_indices_In in Hi.
    rewrite CONVERT_SIMD_LANE_ARG_CHECKED_Ok by (apply Hidx, Hi). reflexivity.
Qed.

Lemma array_get_app_l {A : Type} (d : A) (l1 l2 : list A) (i : Z) :
  0 <= i < Z.of_nat (length l1) -> array_get d (l1 ++ l2) i = array_get d l1 i.
Proof. intros Hi. unfold array_get. apply app_nth1. lia. Qed.

Lemma array_get_app_r {A : Type} (d : A) (l1 l2 : list A) (i : Z) :
  Z.of_nat (length l1) <= i ->
  array_get d (l1 ++ l2) i = array_get d l2 (i - Z.of_nat (length l1)).
Proof.
  intros Hi. unfold array_get. rewrite app_nth2 by lia.
  f_equal. lia.
Qed.

Lemma lanes_of_length (type : Kind) (a : Simd128Value) :
  Z.of_nat (length (Simd128Value.lanes_of type a)) = lane_count type.
Proof.
  unfold Simd128Value.lanes_of. rewrite length_map, lane_indices_length.
  pose proof (lane_count_pos type). lia.
Qed.

Lemma array_get_lanes_of (type : Kind) (a : Simd128Value) (i : Z) :
  0 <= i < lane_count type ->
  array_get (zero_lane type) (Simd128Value.lanes_of type a) i
  = Simd128Value.get_lane type a i.
Proof. intros Hi. unfold Simd128Value.lanes_of. apply array_get_map_indices, Hi. Qed.

(** X1.  A swizzle whose indices are all lane indices succeeds, and lane
    [i] of the result is the lane of the operand that the [i]-th index
    names. *)
Theorem swizzle_selects_lanes (type : Kind) (a : Simd128Value) (indices : list Z) :
  Simd128Value.map a = type ->
  (forall i, 0 <= i < lane_count type ->
     0 <= array_get 0 indices i < lane_count type) ->
  exists r,
    SIMD_SWIZZLE_FUNCTION type a indices = Ok r
    /\ Simd128Value.map r = type
    /\ forall i, 0 <= i < lane_count type ->
         Simd128Value.get_lane type r i
         = Simd128Value.get_lane type a (array_get 0 indices i).
Proof.
  intros Ha Hidx. eexists. split; [apply SIMD_SWIZZLE_FUNCTION_Ok; assumption|].
  split; [reflexivity|].
  intros i Hi. rewrite get_lane_New by assumption.
  rewrite array_get_map_indices by assumption. apply stored_get_lane.
Qed.

(** X2.  A shuffle whose indices are all below twice the lane count
    succeeds, and lane [i] of the result is the lane that the [i]-th index
    names among the lanes of the first operand followed by those of the
    second. *)
Theorem shuffle_selects_from_both (type : Kind) (a b : Simd128Value)
  (indices : list Z) :
  Simd128Value.map a = type ->
  Simd128Value.map b = type ->
  (forall i, 0 <= i < lane_count type ->
     0 <= array_get 0 indices i < lane_count type * 2) ->
  exists r,
    SIMD_SHUFFLE_FUNCTION type a b indices = Ok r
    /\ Simd128Value.map r = type
    /\ forall i, 0 <= i < lane_count type ->
         Simd128Value.get_lane type r i
         = array_get (zero_lane type)
             (Simd128Value.lanes_of type a ++ Simd128Value.lanes_of type b)
             (array_get 0 indices i).
Proof.
  intros Ha Hb Hidx. eexists.
  split; [apply SIMD_SHUFFLE_FUNCTION_Ok; assumption|].
  split; [reflexivity|].
  intros i Hi. rewrite get_lane_New by assumption.
  rewrite array_get_map_indices by assumption. cbv zeta.
  specialize (Hidx i Hi).
  destruct (Z.ltb_spec (array_get 0 indices i) (lane_count type)) as [Hlt | Hge].
  - rewrite array_get_app_l by (rewrite lanes_of_length; lia).
    rewrite array_get_lanes_of by lia. apply stored_get_lane.
  - rewrite array_get_app_r by (rewrite lanes_of_length; lia).
    rewrite lanes_of_length, array_get_lanes_of by lia. apply stored_get_lane.
Qed.

(** X3.  A shuffle that names lanes of its first operand only is the
    swizzle of that operand, and one that names lanes of its second operand
    only is the swizzle of the second operand by the indices less the lane
    count. *)
Theorem shuffle_of_one_operand_is_swizzle (type : Kind) (a b : Simd128Value)
  (indices : list Z) :
  Simd128Value.map a = type ->
  Simd128Value.map b = type ->
  ((forall i, 0 <= i < lane_count type ->
      0 <= array_get 0 indices i < lane_count type) ->
   SIMD_SHUFFLE_FUNCTION type a b indices = SIMD_SWIZZLE_FUNCTION type a indices)
  /\ ((forall i, 0 <= i < lane_count type ->
         lane_count type <= array_get 0 indices i < lane_count type * 2) ->
      SIMD_SHUFFLE_FUNCTION type a b indices
      = SIMD_SWIZZLE_FUNCTION type b
          (List.map (fun i => array_get 0 indices i - lane_count type)
             (lane_indices (lane_count type)))).
Proof.
  intros Ha Hb. split; intros Hidx.
  - rewrite SIMD_SHUFFLE_FUNCTION_Ok, SIMD_SWIZZLE_FUNCTION_Ok; try assumption.
    + do 2 f_equal. apply map_lane_indices_ext. intros i Hi. cbv zeta.
      destruct (Z.ltb_spec (array_get 0 indices i) (lane_count type)) as [Hlt | Hge];
        [reflexivity | specialize (Hidx i Hi); lia].
    + intros i Hi. specialize (Hidx i Hi). lia.
  - rewrite SIMD_SHUFFLE_FUNCTION_Ok, SIMD_SWIZZLE_FUNCTION_Ok; try assumption.
    + do 2 f_equal. apply map_lane_indices_ext. intros i Hi. cbv zeta.
      rewrite array_get_map_indices by assumption.
      destruct (Z.ltb_spec (array_get 0 indices i) (lane_count type)) as [Hlt | Hge];
        [specialize (Hidx i Hi); lia | reflexivity].
    + intros i Hi. rewrite array_get_map_indices by assumption.
      specialize (Hidx i Hi). lia.
    + intros i Hi. specialize (Hidx i Hi). lia.
Qed.

(** X4.  Swizzles compose: swizzling by [p] and then by [q] is the one
    swizzle by the indices [p[q[i]]]. *)
Theorem swizzle_of_swizzle (type : Kind) (a : Simd128Value) (p q : list Z) :
  Simd128Value.map a = type ->
  (forall i, 0 <= i < lane_count type -> 0 <= array_get 0 p i < lane_count type) ->
  (forall i, 0 <= i < lane_count type -> 0 <= array_get 0 q i < lane_count type) ->
  exists r,
    SIMD_SWIZZLE_FUNCTION type a p = Ok r
    /\ SIMD_SWIZZLE_FUNCTION type r q
       = SIMD_SWIZZLE_FUNCTION type a
           (List.map (fun i => array_get 0 p (array_get 0 q i))
              (lane_indices (lane_count type))).
Proof.
  intros Ha Hp Hq. eexists.
  split; [apply SIMD_SWIZZLE_FUNCTION_Ok; assumption|].
  rewrite !SIMD_SWIZZLE_FUNCTION_Ok; try assumption; try reflexivity.
  - do 2 f_equal. apply map_lane_indices_ext. intros i Hi.
    rewrite get_lane_New by (apply Hq, Hi).
    rewrite !array_get_map_indices by (assumption || apply Hq, Hi).
    apply stored_get_lane.
  - intros i Hi. rewrite array_get_map_indices by assumption.
    apply Hp, Hq, Hi.
Qed.

(** X5.  A swizzle by the indices [0, 1, ..., n-1] of a vector of a numeric
    kind gives back the vector itself. *)
Theorem identity_swizzle (type : Kind) (a : Simd128Value) :
  In type SIMD_NUMERIC_TYPES ->
  Simd128Value.map a = type ->
  SIMD_SWIZZLE_FUNCTION type a (lane_indices (lane_count type)) = Ok a.
Proof.
  intros Hnum Ha.
  rewrite SIMD_SWIZZLE_FUNCTION_Ok.
  - f_equal.
    transitivity (Simd128Value.New type (Simd128Value.lanes_of type a));
      [|apply New_get_lanes; [apply numeric_not_bool, Hnum | assumption]].
    f_equal. apply map_lane_indices_ext. intros i Hi.
    rewrite array_get_lane_indices by assumption. reflexivity.
  - assumption.
  - intros i Hi. rewrite array_get_lane_indices by assumption. assumption.
Qed.

(** ** Boolean vectors *)

Ltac args_checked :=
  rewrite !CONVERT_ARG_HANDLE_CHECKED_Ok by assumption; cbn [bind].

Lemma bool_type_layout (type : Kind) :
  lane_count (bool_type type) = lane_count type
  /\ lane_bits (bool_type type) = lane_bits type.
Proof. destruct type; split; reflexivity. Qed.

Lemma get_lane_bool_New_bool (type : Kind) (lanes : list bool) (i : Z) :
  0 <= i < lane_count type ->
  Simd128Value.get_lane_bool type (New_bool type lanes) i = array_get false lanes i.
Proof.
  intros Hi. pose proof (lane_bits_pos type) as Hw.
  unfold Simd128Value.get_lane_bool, New_bool.
  rewrite slot_New_slots by assumption.
  assert (Hget : array_get 0 (List.map (Simd128Value.slot_of_bool (lane_bits type)) lanes) i
                 = Simd128Value.slot_of_bool (lane_bits type) (array_get false lanes i)).
  { unfold array_get.
    exact (map_nth (Simd128Value.slot_of_bool (lane_bits type)) lanes false _). }
  rewrite Hget.
  rewrite bit_cast_uint_small by (apply slot_of_bool_range; assumption).
  apply slot_of_bool_nonzero; assumption.
Qed.

Lemma get_lane_bool_map (type : Kind) (f : Z -> bool) (i : Z) :
  0 <= i < lane_count type ->
  Simd128Value.get_lane_bool type
    (New_bool type (List.map f (lane_indices (lane_count type)))) i
  = f i.
Proof.
  intros Hi. rewrite get_lane_bool_New_bool by assumption.
  apply array_get_map_indices; assumption.
Qed.

Lemma New_bool_map_ext (type : Kind) (f g : Z -> bool) (n : Z) :
  (forall i, 0 <= i < n -> f i = g i) ->
  New_bool type (List.map f (lane_indices n))
  = New_bool type (List.map g (lane_indices n)).
Proof. intros H. f_equal. apply map_lane_indices_ext, H. Qed.

Lemma any_true_loop_existsb (type : Kind) (a : Simd128Value) (l : list Z) :
  any_true_loop type a l = existsb (Simd128Value.get_lane_bool type a) l.
Proof.
  induction l as [|i l IH]; simpl; [reflexivity|].
  rewrite IH. destruct (Simd128Value.get_lane_bool type a i); reflexivity.
Qed.

Lemma all_true_loop_forallb (type : Kind) (a : Simd128Value) (l : list Z) :
  all_true_loop type a l = forallb (Simd128Value.get_lane_bool type a) l.
Proof.
  induction l as [|i l IH]; simpl; [reflexivity|].
  rewrite IH. destruct (Simd128Value.get_lane_bool type a i); reflexivity.
Qed.

Lemma forallb_negb_existsb {A : Type} (f : A -> bool) (l : list A) :
  forallb f l = negb (existsb (fun x => negb (f x)) l).
Proof.
  induction l as [|x l IH]; simpl; [reflexivity|].
  rewrite IH. destruct (f x); reflexivity.
Qed.

Lemma existsb_ext_in {A : Type} (f g : A -> bool) (l : list A) :
  (forall x, In x l -> f x = g x) -> existsb f l = existsb g l.
Proof.
  induction l as [|x l IH]; intros H; simpl; [reflexivity|].
  rewrite (H x) by (left; reflexivity).
  rewrite IH by (intros; apply H; right; assumption). reflexivity.
Qed.

(** The helpers [SIMD_UNARY_OP_bool] and [SIMD_BINARY_OP_bool] are the
    macros [SIMD_UNARY_OP] and [SIMD_BINARY_OP] at each boolean kind. *)
Lemma SIMD_BINARY_OP_bool_is_SIMD_BINARY_OP (op : bool -> bool -> bool)
  (a b : Simd128Value) :
  SIMD_BINARY_OP_bool Bool32x4 op a b = SIMD_BINARY_OP Bool32x4 op a b
  /\ SIMD_BINARY_OP_bool Bool16x8 op a b = SIMD_BINARY_OP Bool16x8 op a b
  /\ SIMD_BINARY_OP_bool Bool8x16 op a b = SIMD_BINARY_OP Bool8x16 op a b.
Proof. repeat split. Qed.

Lemma SIMD_UNARY_OP_bool_is_SIMD_UNARY_OP (op : bool -> bool) (a : Simd128Value) :
  SIMD_UNARY_OP_bool Bool32x4 op a = SIMD_UNARY_OP Bool32x4 op a
  /\ SIMD_UNARY_OP_bool Bool16x8 op a = SIMD_UNARY_OP Bool16x8 op a
  /\ SIMD_UNARY_OP_bool Bool8x16 op a = SIMD_UNARY_OP Bool8x16 op a.
Proof. repeat split. Qed.

(** [Check] returns its argument when it is of the kind, and fails
    otherwise. *)
Lemma SIMD_CHECK_FUNCTION_cases (type : Kind) (a : Simd128Value) :
  (Simd128Value.map a = type -> SIMD_CHECK_FUNCTION type a = Ok a)
  /\ (Simd128Value.map a <> type -> SIMD_CHECK_FUNCTION type a = Throw TypeError).
Proof.
  unfold SIMD_CHECK_FUNCTION, CONVERT_ARG_HANDLE_CHECKED. split; intros H.
  - rewrite (proj2 (Kind_eqb_eq _ _) H). reflexivity.
  - rewrite (Kind_eqb_neq _ _ H). reflexivity.
Qed.

(** X6.  [anyTrue] returns true exactly when some lane is true and
    [allTrue] exactly when every lane is: leaving the loop at the first
    deciding lane does not change the answer. *)
Theorem any_true_all_true_quantify (type : Kind) (a : Simd128Value) :
  In type SIMD_BOOL_TYPES ->
  Simd128Value.map a = type ->
  exists any all,
    SIMD_ANY_FUNCTION type a = Ok any
    /\ SIMD_ALL_FUNCTION type a = Ok all
    /\ (any = true <->
        exists i, 0 <= i < lane_count type
                  /\ Simd128Value.get_lane_bool type a i = true)
    /\ (all = true <->
        forall i, 0 <= i < lane_count type ->
                  Simd128Value.get_lane_bool type a i = true).
Proof.
  intros _ Ha. unfold SIMD_ANY_FUNCTION, SIMD_ALL_FUNCTION. args_checked.
  do 2 eexists. split; [reflexivity|]. split; [reflexivity|].
  rewrite any_true_loop_existsb, all_true_loop_forallb. split.
  - rewrite existsb_exists. split.
    + intros (i & Hi & Hl). exists i. split; [apply lane_indices_In, Hi | exact Hl].
    + intros (i & Hi & Hl). exists i. split; [apply lane_indices_In, Hi | exact Hl].
  - rewrite forallb_forall. split.
    + intros H i Hi. apply H, lane_indices_In, Hi.
    + intros H i Hi. apply H, lane_indices_In, Hi.
Qed.

(** X7.  De Morgan between the two reductions: [allTrue] of a vector is the
    negation of [anyTrue] of its lane-wise [not], and [anyTrue] the negation
    of [allTrue] of the [not]. *)
Theorem all_true_any_true_duality (type : Kind) (a : Simd128Value) :
  In type SIMD_BOOL_TYPES ->
  Simd128Value.map a = type ->
  exists n any_a all_a any_n all_n,
    SIMD_NOT_FUNCTION_BOOL type a = Ok n
    /\ SIMD_ANY_FUNCTION type a = Ok any_a
    /\ SIMD_ALL_FUNCTION type a = Ok all_a
    /\ SIMD_ANY_FUNCTION type n = Ok any_n
    /\ SIMD_ALL_FUNCTION type n = Ok all_n
    /\ all_a = negb any_n
    /\ any_a = negb all_n.
Proof.
  intros _ Ha.
  unfold SIMD_NOT_FUNCTION_BOOL, SIMD_UNARY_OP_bool. args_checked.
  eexists. do 4 eexists. split; [reflexivity|].
  unfold SIMD_ANY_FUNCTION, SIMD_ALL_FUNCTION.
  rewrite !CONVERT_ARG_HANDLE_CHECKED_Ok by (assumption || reflexivity).
  cbn [bind]. do 4 (split; [reflexivity|]).
  rewrite !any_true_loop_existsb, !all_true_loop_forallb.
  rewrite !forallb_negb_existsb.
  split.
  - f_equal. apply existsb_ext_in. intros i Hi. apply lane_indices_In in Hi.
    rewrite get_lane_bool_map by assumption. reflexivity.
  - rewrite negb_involutive. apply existsb_ext_in. intros i Hi.
    apply lane_indices_In in Hi.
    rewrite get_lane_bool_map by assumption. rewrite negb_involutive. reflexivity.
Qed.

(** X8.  The logical functions of the boolean kinds obey De Morgan's laws as
    vectors: the [not] of an [and] is the [or] of the [not]s, and the [not]
    of an [or] the [and] of the [not]s. *)
Theorem bool_de_morgan (type : Kind) (a b : Simd128Value) :
  In type SIMD_BOOL_TYPES ->
  Simd128Value.map a = type ->
  Simd128Value.map b = type ->
  exists na nb a_and_b a_or_b,
    SIMD_NOT_FUNCTION_BOOL type a = Ok na
    /\ SIMD_NOT_FUNCTION_BOOL type b = Ok nb
    /\ SIMD_AND_FUNCTION_BOOL type a b = Ok a_and_b
    /\ SIMD_OR_FUNCTION_BOOL type a b = Ok a_or_b
    /\ SIMD_NOT_FUNCTION_BOOL type a_and_b = SIMD_OR_FUNCTION_BOOL type na nb
    /\ SIMD_NOT_FUNCTION_BOOL type a_or_b = SIMD_AND_FUNCTION_BOOL type na nb.
Proof.
  intros _ Ha Hb.
  unfold SIMD_NOT_FUNCTION_BOOL, SIMD_AND_FUNCTION_BOOL, SIMD_OR_FUNCTION_BOOL,
    SIMD_UNARY_OP_bool, SIMD_BINARY_OP_bool.
  args_checked. do 4 eexists. do 4 (split; [reflexivity|]).
  rewrite !CONVERT_ARG_HANDLE_CHECKED_Ok by reflexivity. cbn [bind].
  split; f_equal; apply New_bool_map_ext; intros i Hi;
    rewrite !get_lane_bool_map by assumption.
  - apply negb_andb.
  - apply negb_orb.
Qed.

(** On the boolean kinds [notEqual] and [xor] are the same function: both
    compute [a != b] in every lane. *)
Lemma bool_not_equal_is_xor (type : Kind) (a b : Simd128Value) :
  In type SIMD_BOOL_TYPES ->
  SIMD_RELATIONAL_FUNCTION NE type a b = SIMD_XOR_FUNCTION_BOOL type a b.
Proof.
  intros [<- | [<- | [<- | []]]];
    unfold SIMD_RELATIONAL_FUNCTION, SIMD_RELATIONAL_OP, SIMD_XOR_FUNCTION_BOOL,
      SIMD_BINARY_OP_bool;
    (destruct (CONVERT_ARG_HANDLE_CHECKED _ a) as [a'|]; [|reflexivity]);
    (destruct (CONVERT_ARG_HANDLE_CHECKED _ b) as [b'|]; [|reflexivity]);
    cbn [bind bool_type relational_operator Simd128Value.get_lane];
    do 2 f_equal; apply map_ext; intros i;
    destruct (Simd128Value.get_lane_bool _ a' i),
             (Simd128Value.get_lane_bool _ b' i); reflexivity.
Qed.

(** ** Select *)

Lemma SIMD_SELECT_FUNCTION_Ok (type : Kind) (mask a b : Simd128Value) :
  Simd128Value.map mask = bool_type type ->
  Simd128Value.map a = type ->
  Simd128Value.map b = type ->
  SIMD_SELECT_FUNCTION type mask a b
  = Ok (Simd128Value.New type
          (List.map
             (fun i =>
                if Simd128Value.get_lane_bool (bool_type type) mask i
                then Simd128Value.get_lane type a i
                else Simd128Value.get_lane type b i)
             (lane_indices (lane_count type)))).
Proof.
  intros Hm Ha Hb. unfold SIMD_SELECT_FUNCTION. args_checked. reflexivity.
Qed.

(** X10.  [select] succeeds on a mask of the boolean kind with the lane
    count of the operands, and lane [i] of the result is lane [i] of the
    first operand where the mask is true and of the second where it is
    false. *)
Theorem select_lanes (type : Kind) (mask a b : Simd128Value) :
  In type SIMD_NUMERIC_TYPES ->
  Simd128Value.map mask = bool_type type ->
  Simd128Value.map a = type ->
  Simd128Value.map b = type ->
  exists r,
    SIMD_SELECT_FUNCTION type mask a b = Ok r
    /\ Simd128Value.map r = type
    /\ forall i, 0 <= i < lane_count type ->
         Simd128Value.get_lane type r i
         = if Simd128Value.get_lane_bool (bool_type type) mask i
           then Simd128Value.get_lane type a i
           else Simd128Value.get_lane type b i.
Proof.
  intros _ Hm Ha Hb. eexists.
  split; [apply SIMD_SELECT_FUNCTION_Ok; assumption|].
  split; [reflexivity|].
  intros i Hi. rewrite get_lane_New by assumption.
  rewrite array_get_map_indices by assumption.
  destruct (Simd128Value.get_lane_bool (bool_type type) mask i);
    apply stored_get_lane.
Qed.

(** X11.  Negating the mask swaps the operands of [select], and selecting
    between a vector and itself gives the vector back. *)
Theorem select_of_negated_mask (type : Kind) (mask a b : Simd128Value) :
  In type SIMD_NUMERIC_TYPES ->
  Simd128Value.map mask = bool_type type ->
  Simd128Value.map a = type ->
  Simd128Value.map b = type ->
  exists n,
    SIMD_NOT_FUNCTION_BOOL (bool_type type) mask = Ok n
    /\ SIMD_SELECT_FUNCTION type n a b = SIMD_SELECT_FUNCTION type mask b a
    /\ SIMD_SELECT_FUNCTION type mask a a = Ok a.
Proof.
  intros Hnum Hm Ha Hb.
  unfold SIMD_NOT_FUNCTION_BOOL, SIMD_UNARY_OP_bool. args_checked.
  eexists. split; [reflexivity|].
  rewrite !SIMD_SELECT_FUNCTION_Ok by (assumption || reflexivity).
  split; f_equal.
  - f_equal. apply map_lane_indices_ext. intros i Hi.
    rewrite get_lane_bool_map
      by (rewrite (proj1 (bool_type_layout type)); assumption).
    destruct (Simd128Value.get_lane_bool (bool_type type) mask i); reflexivity.
  - transitivity (Simd128Value.New type (Simd128Value.lanes_of type a));
      [|apply New_get_lanes; [apply numeric_not_bool, Hnum | assumption]].
    f_equal. apply map_lane_indices_ext. intros i Hi.
    destruct (Simd128Value.get_lane_bool (bool_type type) mask i); reflexivity.
Qed.

(** ** Integer arithmetic and logic *)

Lemma static_cast_int_congr (w x y : Z) :
  x mod 2 ^ w = y mod 2 ^ w -> static_cast_int w x = static_cast_int w y.
Proof. intros H. unfold static_cast_int. rewrite H. reflexivity. Qed.

Lemma static_cast_int_eqm (w x : Z) :
  0 < w -> static_cast_int w x mod 2 ^ w = x mod 2 ^ w.
Proof. intros Hw. apply (bit_cast_uint_static_cast_int w x Hw). Qed.

Lemma in_int_range_shiftr (w x : Z) :
  0 < w ->
  in_int_range w x <-> Z.shiftr x (w - 1) = 0 \/ Z.shiftr x (w - 1) = -1.
Proof.
  intros Hw. rewrite Z.shiftr_div_pow2 by lia.
  unfold in_int_range, numeric_limits_min, numeric_limits_max.
  pose proof (pow2_pos (w - 1) ltac:(lia)) as HP.
  set (P := 2 ^ (w - 1)) in *.
  split.
  - intros Hr. Z.div_mod_to_equations. nia.
  - intros Hq. Z.div_mod_to_equations. nia.
Qed.

Lemma in_int_range_lnot (w x : Z) :
  in_int_range w x -> in_int_range w (Z.lnot x).
Proof.
  unfold in_int_range, numeric_limits_min, numeric_limits_max, Z.lnot. lia.
Qed.

Lemma in_int_range_bitwise (w x y : Z) :
  0 < w -> in_int_range w x -> in_int_range w y ->
  in_int_range w (Z.land x y) /\ in_int_range w (Z.lor x y)
  /\ in_int_range w (Z.lxor x y).
Proof.
  intros Hw Hx Hy.
  apply (in_int_range_shiftr w x Hw) in Hx.
  apply (in_int_range_shiftr w y Hw) in Hy.
  rewrite !(in_int_range_shiftr w) by assumption.
  rewrite Z.shiftr_land, Z.shiftr_lor, Z.shiftr_lxor.
  destruct Hx as [-> | ->], Hy as [-> | ->]; cbn; auto.
Qed.

Lemma SIMD_UNARY_OP_int_Ok (type : Kind) (op : Z -> Z) (a : Simd128Value) :
  Simd128Value.map a = type ->
  SIMD_UNARY_OP_int type op a
  = Ok (Simd128Value.New_int type
          (List.map
             (fun i =>
                static_cast_int (lane_bits type) (op (Simd128Value.get_lane_int type a i)))
             (lane_indices (lane_count type)))).
Proof. intros Ha. unfold SIMD_UNARY_OP_int. args_checked. reflexivity. Qed.

Lemma SIMD_BINARY_OP_int_Ok (type : Kind) (op : Z -> Z -> Z) (a b : Simd128Value) :
  Simd128Value.map a = type ->
  Simd128Value.map b = type ->
  SIMD_BINARY_OP_int type op a b
  = Ok (Simd128Value.New_int type
          (List.map
             (fun i =>
                static_cast_int (lane_bits type)
                  (op (Simd128Value.get_lane_int type a i)
                      (Simd128Value.get_lane_int type b i)))
             (lane_indices (lane_count type)))).
Proof. intros Ha Hb. unfold SIMD_BINARY_OP_int. args_checked. reflexivity. Qed.

Lemma get_lane_int_map (type : Kind) (f : Z -> Z) (i : Z) :
  0 <= i < lane_count type ->
  Simd128Value.get_lane_int type
    (Simd128Value.New_int type
       (List.map (fun i => static_cast_int (lane_bits type) (f i))
          (lane_indices (lane_count type)))) i
  = static_cast_int (lane_bits type) (f i).
Proof.
  intros Hi. rewrite get_lane_New_int by assumption.
  rewrite (array_get_map_indices (fun i => static_cast_int (lane_bits type) (f i)))
    by assumption.
  apply static_cast_int_idem, lane_bits_pos.
Qed.

Lemma vector_ext_int (type : Kind) (a b : Simd128Value) :
  In type SIMD_INT_TYPES ->
  Simd128Value.map a = Simd128Value.map b ->
  (forall i, 0 <= i < lane_count type ->
     Simd128Value.get_lane_int type a i = Simd128Value.get_lane_int type b i) ->
  a = b.
Proof.
  intros [<- | [<- | [<- | []]]] Hm H.
  - apply (vector_ext_lanes Int32x4); [reflexivity | assumption | exact H].
  - apply (vector_ext_lanes Int16x8); [reflexivity | assumption | exact H].
  - apply (vector_ext_lanes Int8x16); [reflexivity | assumption | exact H].
Qed.

Lemma New_int_lanes (type : Kind) (a : Simd128Value) (f : Z -> Z) :
  In type SIMD_INT_TYPES ->
  Simd128Value.map a = type ->
  (forall i, 0 <= i < lane_count type ->
     static_cast_int (lane_bits type) (f i) = Simd128Value.get_lane_int type a i) ->
  Simd128Value.New_int type
    (List.map (fun i => static_cast_int (lane_bits type) (f i))
       (lane_indices (lane_count type)))
  = a.
Proof.
  intros Hint Ha H. apply (vector_ext_int type); [assumption | symmetry; exact Ha |].
  intros i Hi. rewrite get_lane_int_map by assumption. apply H, Hi.
Qed.

(** The helpers [SIMD_UNARY_OP_int] and [SIMD_BINARY_OP_int] are the macros
    [SIMD_UNARY_OP] and [SIMD_BINARY_OP] at each integer kind: the narrowing
    they write out is the one the store of a lane does. *)
Lemma SIMD_BINARY_OP_int_is_SIMD_BINARY_OP (op : Z -> Z -> Z) (a b : Simd128Value) :
  SIMD_BINARY_OP_int Int32x4 op a b = SIMD_BINARY_OP Int32x4 op a b
  /\ SIMD_BINARY_OP_int Int16x8 op a b = SIMD_BINARY_OP Int16x8 op a b
  /\ SIMD_BINARY_OP_int Int8x16 op a b = SIMD_BINARY_OP Int8x16 op a b.
Proof.
  repeat split; unfold SIMD_BINARY_OP_int, SIMD_BINARY_OP;
    (destruct (CONVERT_ARG_HANDLE_CHECKED _ a) as [a'|]; [|reflexivity]);
    (destruct (CONVERT_ARG_HANDLE_CHECKED _ b) as [b'|]; [|reflexivity]);
    cbn [bind]; f_equal; unfold Simd128Value.New_int, Simd128Value.New;
    apply New_slots_ext; intros i Hi;
    rewrite array_get_slot_of;
    rewrite !array_get_map_indices by assumption;
    cbn [Simd128Value.slot_of lane_bits Simd128Value.get_lane];
    rewrite bit_cast_uint_static_cast_int by lia;
    symmetry; apply bit_cast_uint_idem; lia.
Qed.

Lemma SIMD_UNARY_OP_int_is_SIMD_UNARY_OP (op : Z -> Z) (a : Simd128Value) :
  SIMD_UNARY_OP_int Int32x4 op a = SIMD_UNARY_OP Int32x4 op a
  /\ SIMD_UNARY_OP_int Int16x8 op a = SIMD_UNARY_OP Int16x8 op a
  /\ SIMD_UNARY_OP_int Int8x16 op a = SIMD_UNARY_OP Int8x16 op a.
Proof.
  repeat split; unfold SIMD_UNARY_OP_int, SIMD_UNARY_OP;
    (destruct (CONVERT_ARG_HANDLE_CHECKED _ a) as [a'|]; [|reflexivity]);
    cbn [bind]; f_equal; unfold Simd128Value.New_int, Simd128Value.New;
    apply New_slots_ext; intros i Hi;
    rewrite array_get_slot_of;
    rewrite !array_get_map_indices by assumption;
    cbn [Simd128Value.slot_of lane_bits Simd128Value.get_lane];
    rewrite bit_cast_uint_static_cast_int by lia;
    symmetry; apply bit_cast_uint_idem; lia.
Qed.

Lemma static_cast_int_small_cases (w x : Z) :
  w = 8 \/ w = 16 ->
  - 2 ^ w <= x < 2 ^ w ->
  (in_int_range w x /\ static_cast_int w x = x)
  \/ (numeric_limits_max w < x /\ static_cast_int w x = x - 2 ^ w)
  \/ (x < numeric_limits_min w /\ static_cast_int w x = x + 2 ^ w).
Proof.
  intros Hw Hx.
  assert (Hpos : 0 < w) by (destruct Hw; lia).
  pose proof (pow2_half w Hpos) as Hh.
  pose proof (pow2_pos (w - 1) ltac:(lia)) as HP.
  unfold in_int_range, numeric_limits_min, numeric_limits_max.
  destruct (Z_lt_le_dec x (- 2 ^ (w - 1))) as [Hlo | Hlo];
    [right; right | destruct (Z_lt_le_dec (2 ^ (w - 1) - 1) x) as [Hhi | Hhi];
                    [right; left | left]].
  - split; [lia|].
    rewrite <- (static_cast_int_id w (x + 2 ^ w)) by (solve_int_range || assumption).
    apply static_cast_int_congr.
    replace (x + 2 ^ w) with (x + 1 * 2 ^ w) by lia.
    rewrite Z.mod_add by lia. reflexivity.
  - split; [lia|].
    rewrite <- (static_cast_int_id w (x - 2 ^ w)) by (solve_int_range || assumption).
    apply static_cast_int_congr.
    replace (x - 2 ^ w) with (x + (-1) * 2 ^ w) by lia.
    rewrite Z.mod_add by lia. reflexivity.
  - split; [lia|]. apply static_cast_int_id; [assumption | solve_int_range].
Qed.

(** X12.  The integer [neg], [add], [sub] and [mul] return, in every lane,
    the exact result whenever the lane type can represent it; on the 16-bit
    and 8-bit kinds, where the operands are promoted to [int], every result is
    the exact one reduced modulo [2^w] into the lane range. *)
Theorem int_arithmetic_lanes (type : Kind) (a b : Simd128Value) :
  In type SIMD_INT_TYPES ->
  Simd128Value.map a = type ->
  Simd128Value.map b = type ->
  exists n s d p,
    SIMD_NEG_FUNCTION type a = Ok n
    /\ SIMD_ADD_FUNCTION type a b = Ok s
    /\ SIMD_SUB_FUNCTION type a b = Ok d
    /\ SIMD_MUL_FUNCTION type a b = Ok p
    /\ forall i, 0 <= i < lane_count type ->
         let w := lane_bits type in
         let x := Simd128Value.get_lane_int type a i in
         let y := Simd128Value.get_lane_int type b i in
         let lane r := Simd128Value.get_lane_int type r i in
         (in_int_range w (- x) -> lane n = - x)
         /\ (in_int_range w (x + y) -> lane s = x + y)
         /\ (in_int_range w (x - y) -> lane d = x - y)
         /\ (in_int_range w (x * y) -> lane p = x * y)
         /\ (In type SIMD_SMALL_INT_TYPES ->
             lane n = static_cast_int w (- x)
             /\ lane s = static_cast_int w (x + y)
             /\ lane d = static_cast_int w (x - y)
             /\ lane p = static_cast_int w (x * y)).
Proof.
  intros _ Ha Hb.
  unfold SIMD_NEG_FUNCTION, SIMD_ADD_FUNCTION, SIMD_SUB_FUNCTION, SIMD_MUL_FUNCTION.
  rewrite SIMD_UNARY_OP_int_Ok, !SIMD_BINARY_OP_int_Ok by assumption.
  do 4 eexists. do 4 (split; [reflexivity|]).
  intros i Hi. cbv zeta.
  pose proof (lane_bits_pos type) as Hw.
  rewrite (get_lane_int_map type
             (fun i => - Simd128Value.get_lane_int type a i)) by assumption.
  rewrite (get_lane_int_map type
             (fun i => Simd128Value.get_lane_int type a i
                       + Simd128Value.get_lane_int type b i)) by assumption.
  rewrite (get_lane_int_map type
             (fun i => Simd128Value.get_lane_int type a i
                       - Simd128Value.get_lane_int type b i)) by assumption.
  rewrite (get_lane_int_map type
             (fun i => Simd128Value.get_lane_int type a i
                       * Simd128Value.get_lane_int type b i)) by assumption.
  repeat split; try (intros H; apply static_cast_int_id; assumption).
Qed.

(** X13.  Subtracting what was added gives the vector back: [sub (add a b)
    b] is [a] itself, on the 16-bit and 8-bit kinds also when the sums wrap
    around, on [Int32x4] when no lane's sum leaves the [int32_t] range. *)
Theorem add_then_sub_round_trip (type : Kind) (a b : Simd128Value) :
  In type SIMD_INT_TYPES ->
  Simd128Value.map a = type ->
  Simd128Value.map b = type ->
  (type = Int32x4 ->
   forall i, 0 <= i < lane_count type ->
     in_int_range 32
       (Simd128Value.get_lane_int type a i + Simd128Value.get_lane_int type b i)) ->
  exists s,
    SIMD_ADD_FUNCTION type a b = Ok s
    /\ SIMD_SUB_FUNCTION type s b = Ok a.
Proof.
  intros Hint Ha Hb _.
  unfold SIMD_ADD_FUNCTION, SIMD_SUB_FUNCTION.
  rewrite SIMD_BINARY_OP_int_Ok by assumption.
  eexists. split; [reflexivity|].
  rewrite SIMD_BINARY_OP_int_Ok by (reflexivity || assumption).
  f_equal.
  apply (New_int_lanes type a
           (fun i => Simd128Value.get_lane_int type _ i
                     - Simd128Value.get_lane_int type b i)); try assumption.
  intros i Hi. pose proof (lane_bits_pos type) as Hw.
  rewrite (get_lane_int_map type
             (fun i => Simd128Value.get_lane_int type a i
                       + Simd128Value.get_lane_int type b i)) by assumption.
  rewrite <- (static_cast_int_id (lane_bits type) (Simd128Value.get_lane_int type a i))
    at 2 by (assumption || apply get_lane_int_range).
  apply static_cast_int_congr.
  rewrite Zminus_mod, static_cast_int_eqm, <- Zminus_mod by assumption.
  f_equal. lia.
Qed.

Lemma wrap_equals_clamp_iff (w x y : Z) :
  w = 8 \/ w = 16 -> in_int_range w x -> in_int_range w y ->
  (static_cast_int w (x + y) = clamp w (x + y) <-> in_int_range w (x + y))
  /\ (static_cast_int w (x - y) = clamp w (x - y) <-> in_int_range w (x - y)).
Proof.
  intros Hw Hx Hy.
  destruct (int_range_small w Hw) as (Hmin & Hmax & Hp).
  assert (Hpos : 0 < w) by (destruct Hw; lia).
  pose proof (pow2_half w Hpos) as Hh.
  unfold in_int_range in *.
  split.
  - destruct (static_cast_int_small_cases w (x + y) Hw ltac:(lia))
      as [[Hr ->] | [[Hr ->] | [Hr ->]]]; unfold clamp, in_int_range in *; lia.
  - destruct (static_cast_int_small_cases w (x - y) Hw ltac:(lia))
      as [[Hr ->] | [[Hr ->] | [Hr ->]]]; unfold clamp, in_int_range in *; lia.
Qed.


(** X14.  On the 8-bit and 16-bit kinds the wrapping [add] and [sub] and the
    saturating [addSaturate] and [subSaturate] give the same lane exactly
    when the exact sum or difference of the lanes is representable in the
    lane type. *)
Theorem wrapping_and_saturating_agree (a b : Simd128Value) :
  (Simd128Value.map a = Int8x16 -> Simd128Value.map b = Int8x16 ->
   exists s d ss sd,
     SIMD_ADD_FUNCTION Int8x16 a b = Ok s
     /\ SIMD_SUB_FUNCTION Int8x16 a b = Ok d
     /\ Runtime_Int8x16AddSaturate a b = Ok ss
     /\ Runtime_Int8x16SubSaturate a b = Ok sd
     /\ forall i, 0 <= i < 16 ->
          (Simd128Value.get_lane_int Int8x16 s i
           = Simd128Value.get_lane_int Int8x16 ss i
           <-> in_int_range 8 (Simd128Value.get_lane_int Int8x16 a i
                               + Simd128Value.get_lane_int Int8x16 b i))
          /\ (Simd128Value.get_lane_int Int8x16 d i
              = Simd128Value.get_lane_int Int8x16 sd i
              <-> in_int_range 8 (Simd128Value.get_lane_int Int8x16 a i
                                  - Simd128Value.get_lane_int Int8x16 b i)))
  /\ (Simd128Value.map a = Int16x8 -> Simd128Value.map b = Int16x8 ->
      exists s d ss sd,
        SIMD_ADD_FUNCTION Int16x8 a b = Ok s
        /\ SIMD_SUB_FUNCTION Int16x8 a b = Ok d
        /\ Runtime_Int16x8AddSaturate a b = Ok ss
        /\ Runtime_Int16x8SubSaturate a b = Ok sd
        /\ forall i, 0 <= i < 8 ->
             (Simd128Value.get_lane_int Int16x8 s i
              = Simd128Value.get_lane_int Int16x8 ss i
              <-> in_int_range 16 (Simd128Value.get_lane_int Int16x8 a i
                                   + Simd128Value.get_lane_int Int16x8 b i))
             /\ (Simd128Value.get_lane_int Int16x8 d i
                 = Simd128Value.get_lane_int Int16x8 sd i
                 <-> in_int_range 16 (Simd128Value.get_lane_int Int16x8 a i
                                      - Simd128Value.get_lane_int Int16x8 b i))).
Proof.
  destruct (Runtime_AddSaturate_SubSaturate_lanes a b) as [H8 H16].
  split; intros Ha Hb.
  - destruct (H8 Ha Hb) as (ss & sd & Hss & Hsd & Hl).
    unfold SIMD_ADD_FUNCTION, SIMD_SUB_FUNCTION.
    rewrite !SIMD_BINARY_OP_int_Ok by assumption.
    eexists. eexists. exists ss, sd. do 2 (split; [reflexivity|]).
    split; [exact Hss|]. split; [exact Hsd|].
    intros i Hi. destruct (Hl i Hi) as [-> ->].
    rewrite (get_lane_int_map Int8x16
               (fun i => Simd128Value.get_lane_int Int8x16 a i
                         + Simd128Value.get_lane_int Int8x16 b i)) by assumption.
    rewrite (get_lane_int_map Int8x16
               (fun i => Simd128Value.get_lane_int Int8x16 a i
                         - Simd128Value.get_lane_int Int8x16 b i)) by assumption.
    apply (wrap_equals_clamp_iff 8); [left; reflexivity | |];
      apply (get_lane_int_range Int8x16).
  - destruct (H16 Ha Hb) as (ss & sd & Hss & Hsd & Hl).
    unfold SIMD_ADD_FUNCTION, SIMD_SUB_FUNCTION.
    rewrite !SIMD_BINARY_OP_int_Ok by assumption.
    eexists. eexists. exists ss, sd. do 2 (split; [reflexivity|]).
    split; [exact Hss|]. split; [exact Hsd|].
    intros i Hi. destruct (Hl i Hi) as [-> ->].
    rewrite (get_lane_int_map Int16x8
               (fun i => Simd128Value.get_lane_int Int16x8 a i
                         + Simd128Value.get_lane_int Int16x8 b i)) by assumption.
    rewrite (get_lane_int_map Int16x8
               (fun i => Simd128Value.get_lane_int Int16x8 a i
                         - Simd128Value.get_lane_int Int16x8 b i)) by assumption.
    apply (wrap_equals_clamp_iff 16); [right; reflexivity | |];
      apply (get_lane_int_range Int16x8).
Qed.

Lemma static_cast_int_bitwise (w x y : Z) :
  0 < w -> in_int_range w x -> in_int_range w y ->
  static_cast_int w (Z.land x y) = Z.land x y
  /\ static_cast_int w (Z.lor x y) = Z.lor x y
  /\ static_cast_int w (Z.lxor x y) = Z.lxor x y
  /\ static_cast_int w (Z.lnot x) = Z.lnot x.
Proof.
  intros Hw Hx Hy.
  destruct (in_int_range_bitwise w x y Hw Hx Hy) as (Hand & Hor & Hxor).
  repeat split; apply static_cast_int_id; try assumption.
  apply in_int_range_lnot, Hx.
Qed.

(** X15.  The integer [and], [or], [xor] and [not] act on the lanes as
    two's-complement integers and never leave the lane range: each lane of
    the result is the bitwise operation of the lanes, with nothing lost in
    the store. *)
Theorem int_logical_lanes (type : Kind) (a b : Simd128Value) :
  In type SIMD_INT_TYPES ->
  Simd128Value.map a = type ->
  Simd128Value.map b = type ->
  exists c d x n,
    SIMD_AND_FUNCTION type a b = Ok c
    /\ SIMD_OR_FUNCTION type a b = Ok d
    /\ SIMD_XOR_FUNCTION type a b = Ok x
    /\ SIMD_NOT_FUNCTION type a = Ok n
    /\ forall i, 0 <= i < lane_count type ->
         Simd128Value.get_lane_int type c i
         = Z.land (Simd128Value.get_lane_int type a i) (Simd128Value.get_lane_int type b i)
         /\ Simd128Value.get_lane_int type d i
            = Z.lor (Simd128Value.get_lane_int type a i) (Simd128Value.get_lane_int type b i)
         /\ Simd128Value.get_lane_int type x i
            = Z.lxor (Simd128Value.get_lane_int type a i) (Simd128Value.get_lane_int type b i)
         /\ Simd128Value.get_lane_int type n i
            = - Simd128Value.get_lane_int type a i - 1.
Proof.
  intros _ Ha Hb.
  unfold SIMD_AND_FUNCTION, SIMD_OR_FUNCTION, SIMD_XOR_FUNCTION, SIMD_NOT_FUNCTION.
  rewrite SIMD_UNARY_OP_int_Ok, !SIMD_BINARY_OP_int_Ok by assumption.
  do 4 eexists. do 4 (split; [reflexivity|]).
  intros i Hi.
  rewrite (get_lane_int_map type
             (fun i => Z.land (Simd128Value.get_lane_int type a i)
                         (Simd128Value.get_lane_int type b i))) by assumption.
  rewrite (get_lane_int_map type
             (fun i => Z.lor (Simd128Value.get_lane_int type a i)
                         (Simd128Value.get_lane_int type b i))) by assumption.
  rewrite (get_lane_int_map type
             (fun i => Z.lxor (Simd128Value.get_lane_int type a i)
                         (Simd128Value.get_lane_int type b i))) by assumption.
  rewrite (get_lane_int_map type
             (fun i => Z.lnot (Simd128Value.get_lane_int type a i))) by assumption.
  destruct (static_cast_int_bitwise (lane_bits type) _ _ (lane_bits_pos type)
              (get_lane_int_range type a i) (get_lane_int_range type b i))
    as (-> & -> & -> & ->).
  repeat split.
Qed.

(** X16.  Laws of the integer logical functions, as equalities of vectors:
    [not] is an involution, [xor] by the same vector twice gives the vector
    back, and De Morgan's law relates [not], [and] and [or]. *)
Theorem int_logical_laws (type : Kind) (a b : Simd128Value) :
  In type SIMD_INT_TYPES ->
  Simd128Value.map a = type ->
  Simd128Value.map b = type ->
  exists na nb x c,
    SIMD_NOT_FUNCTION type a = Ok na
    /\ SIMD_NOT_FUNCTION type b = Ok nb
    /\ SIMD_XOR_FUNCTION type a b = Ok x
    /\ SIMD_AND_FUNCTION type a b = Ok c
    /\ SIMD_NOT_FUNCTION type na = Ok a
    /\ SIMD_XOR_FUNCTION type x b = Ok a
    /\ SIMD_NOT_FUNCTION type c = SIMD_OR_FUNCTION type na nb.
Proof.
  intros Hint Ha Hb.
  pose proof (lane_bits_pos type) as Hw.
  unfold SIMD_AND_FUNCTION, SIMD_OR_FUNCTION, SIMD_XOR_FUNCTION, SIMD_NOT_FUNCTION.
  rewrite !SIMD_UNARY_OP_int_Ok, !SIMD_BINARY_OP_int_Ok by assumption.
  do 4 eexists. do 4 (split; [reflexivity|]).
  rewrite !SIMD_UNARY_OP_int_Ok, !SIMD_BINARY_OP_int_Ok by reflexivity || assumption.
  assert (Hnot : forall (v : Simd128Value) i, 0 <= i < lane_count type ->
            Simd128Value.get_lane_int type
              (Simd128Value.New_int type
                 (List.map
                    (fun i => static_cast_int (lane_bits type)
                                (Z.lnot (Simd128Value.get_lane_int type v i)))
                    (lane_indices (lane_count type)))) i
            = Z.lnot (Simd128Value.get_lane_int type v i)).
  { intros v i Hi.
    rewrite (get_lane_int_map type
               (fun i => Z.lnot (Simd128Value.get_lane_int type v i))) by assumption.
    apply static_cast_int_id; [assumption|].
    apply in_int_range_lnot, get_lane_int_range. }
  split; [|split].
  - f_equal.
    apply (New_int_lanes type a
             (fun i => Z.lnot (Simd128Value.get_lane_int type _ i))); try assumption.
    intros i Hi. rewrite Hnot by assumption. rewrite Z.lnot_involutive.
    apply static_cast_int_id; [assumption | apply get_lane_int_range].
  - f_equal.
    apply (New_int_lanes type a
             (fun i => Z.lxor (Simd128Value.get_lane_int type _ i)
                         (Simd128Value.get_lane_int type b i))); try assumption.
    intros i Hi.
    rewrite (get_lane_int_map type
               (fun i => Z.lxor (Simd128Value.get_lane_int type a i)
                           (Simd128Value.get_lane_int type b i))) by assumption.
    destruct (static_cast_int_bitwise (lane_bits type) _ _ Hw
                (get_lane_int_range type a i) (get_lane_int_range type b i))
      as (_ & _ & -> & _).
    rewrite Z.lxor_assoc, Z.lxor_nilpotent, Z.lxor_0_r.
    apply static_cast_int_id; [assumption | apply get_lane_int_range].
  - do 2 f_equal. apply map_lane_indices_ext. intros i Hi.
    rewrite !Hnot by assumption.
    rewrite (get_lane_int_map type
               (fun i => Z.land (Simd128Value.get_lane_int type a i)
                           (Simd128Value.get_lane_int type b i))) by assumption.
    destruct (static_cast_int_bitwise (lane_bits type) _ _ Hw
                (get_lane_int_range type a i) (get_lane_int_range type b i))
      as (-> & _ & _ & _).
    f_equal. apply Z.bits_inj'. intros k Hk.
    rewrite Z.lor_spec, !Z.lnot_spec, Z.land_spec by assumption.
    apply negb_andb.
Qed.

(** ** Floats: bit patterns and comparisons *)

Lemma float_fields (a : Z) :
  0 <= a < 2 ^ 32 ->
  a = (if Float32.signbit a then 2 ^ 31 else 0)
      + Float32.exponent_field a * 2 ^ 23 + Float32.fraction_field a.
Proof.
  intros Ha. rewrite signbit_eq, exponent_field_eq, fraction_field_eq.
  destruct (Z.eqb_spec ((a / 2 ^ 31) mod 2) 1) as [H | H];
    Z.div_mod_to_equations; lia.
Qed.

Lemma significand_scale_inj (a b : Z) :
  Float32.significand a = Float32.significand b ->
  Float32.scale a = Float32.scale b ->
  Float32.exponent_field a = Float32.exponent_field b
  /\ Float32.fraction_field a = Float32.fraction_field b.
Proof.
  unfold Float32.significand, Float32.scale.
  pose proof (exponent_field_range a). pose proof (exponent_field_range b).
  pose proof (fraction_field_range a). pose proof (fraction_field_range b).
  destruct (Z.eqb_spec (Float32.exponent_field a) 0),
           (Z.eqb_spec (Float32.exponent_field b) 0); lia.
Qed.

Lemma magnitude_inj (a b : Z) :
  Float32.isnan a = false -> Float32.isnan b = false ->
  Float32.significand a * 2 ^ Float32.scale a
  = Float32.significand b * 2 ^ Float32.scale b ->
  Float32.significand a = Float32.significand b
  /\ Float32.scale a = Float32.scale b.
Proof.
  intros Ha Hb Heq.
  assert (Hpos : forall x, Float32.isnan x = false ->
            (Float32.significand x = 0 /\ Float32.scale x = 0)
            \/ (0 < Float32.significand x < 2 ^ 24 /\ 0 <= Float32.scale x
                /\ (0 < Float32.scale x -> 2 ^ 23 <= Float32.significand x))).
  { intros x Hx. destruct (to_spec_classes x Hx) as (_ & Hc).
    destruct Hc as [(_ & H1 & H2) | [(_ & H1 & H2 & H3) | (_ & H1 & H2)]].
    - left; auto.
    - right; repeat split; lia.
    - right. rewrite H1, H2. repeat split; lia. }
  destruct (Hpos a Ha) as [[Ma Ka] | (Ma & Ka & Na)],
           (Hpos b Hb) as [[Mb Kb] | (Mb & Kb & Nb)].
  - split; congruence.
  - rewrite Ma in Heq.
    pose proof (pow2_pos (Float32.scale b) Kb). nia.
  - rewrite Mb in Heq.
    pose proof (pow2_pos (Float32.scale a) Ka). nia.
  - pose proof (magnitude_compare _ _ _ _ Ma Mb Ka Kb Na Nb) as Hc.
    apply Z.compare_eq_iff in Heq. rewrite Heq in Hc.
    destruct (Z.compare_spec (Float32.scale a) (Float32.scale b)) as [Hk | Hk | Hk];
      try discriminate Hc.
    apply Z.compare_eq_iff in Hc. auto.
Qed.

Lemma eq_same_sign_bits (a b : Z) :
  0 <= a < 2 ^ 32 -> 0 <= b < 2 ^ 32 ->
  Float32.eq a b = true ->
  Float32.signbit a = Float32.signbit b ->
  a = b.
Proof.
  intros Ra Rb He Hs.
  apply eq_is_equality_of_values in He. destruct He as (Ha & Hb & Hsc).
  destruct (to_spec_classes a Ha) as (Sa & _).
  destruct (to_spec_classes b Hb) as (Sb & _).
  cbv zeta in Sa, Sb. rewrite Sa, Sb, Hs in Hsc.
  assert (Hm : Float32.significand a * 2 ^ Float32.scale a
               = Float32.significand b * 2 ^ Float32.scale b)
    by (destruct (Float32.signbit b); lia).
  destruct (magnitude_inj a b Ha Hb Hm) as (Hsig & Hscale).
  destruct (significand_scale_inj a b Hsig Hscale) as (He & Hf).
  rewrite (float_fields a Ra), (float_fields b Rb), Hs, He, Hf. reflexivity.
Qed.

Lemma compare_float_cases (a b : Z) :
  ((Float32.isnan a = true \/ Float32.isnan b = true)
   /\ SFcompare (Float32.to_spec a) (Float32.to_spec b) = None
   /\ SFcompare (Float32.to_spec b) (Float32.to_spec a) = None)
  \/ (Float32.isnan a = false /\ Float32.isnan b = false
      /\ SFcompare (Float32.to_spec a) (Float32.to_spec b)
         = Some (Float32.scaled a ?= Float32.scaled b)
      /\ SFcompare (Float32.to_spec b) (Float32.to_spec a)
         = Some (CompOpp (Float32.scaled a ?= Float32.scaled b))).
Proof.
  destruct (Float32.isnan a) eqn:Ha; [left|];
    [|destruct (Float32.isnan b) eqn:Hb; [left | right]].
  - split; [left; reflexivity|].
    split; apply SFcompare_None; [left | right]; apply to_spec_nan, Ha.
  - split; [right; reflexivity|].
    split; apply SFcompare_None; [right | left]; apply to_spec_nan, Hb.
  - repeat split.
    + apply compare_is_order_of_values; assumption.
    + rewrite compare_is_order_of_values by assumption.
      rewrite Z.compare_antisym. reflexivity.
Qed.

Lemma compare_float_swap (a b : Z) :
  Float32.lt a b = Float32.gt b a
  /\ Float32.gt a b = Float32.lt b a
  /\ Float32.le a b = Float32.ge b a
  /\ Float32.ge a b = Float32.le b a
  /\ Float32.eq a b = Float32.eq b a.
Proof.
  unfold Float32.lt, Float32.gt, Float32.le, Float32.ge, Float32.eq.
  destruct (compare_float_cases a b) as [(_ & -> & ->) | (_ & _ & -> & ->)].
  - repeat split.
  - destruct (Float32.scaled a ?= Float32.scaled b); repeat split.
Qed.

Lemma compare_float_nan (op : Relational) (a b : Z) :
  Float32.isnan a = true \/ Float32.isnan b = true ->
  compare_float op a b = match op with NE => true | _ => false end.
Proof.
  intros H.
  destruct (compare_float_cases a b) as [(_ & Hc & _) | (Ha & Hb & _)].
  - destruct op; cbn [compare_float];
      unfold Float32.ne, Float32.lt, Float32.gt, Float32.le, Float32.ge, Float32.eq;
      rewrite Hc; reflexivity.
  - destruct H; congruence.
Qed.

Lemma compare_float_order (op : Relational) (a b : Z) :
  Float32.isnan a = false -> Float32.isnan b = false ->
  compare_float op a b = compare_int op (Float32.scaled a) (Float32.scaled b).
Proof.
  intros Ha Hb.
  destruct (compare_float_cases a b) as [([H | H] & _) | (_ & _ & Hc & _)];
    try congruence.
  destruct op; cbn [compare_float compare_int];
    unfold Float32.ne, Float32.lt, Float32.gt, Float32.le, Float32.ge, Float32.eq;
    rewrite Hc; unfold Z.gtb, Z.geb;
    destruct (Z.compare_spec (Float32.scaled a) (Float32.scaled b));
    destruct (Z.eqb_spec (Float32.scaled a) (Float32.scaled b));
    destruct (Z.ltb_spec (Float32.scaled a) (Float32.scaled b));
    destruct (Z.leb_spec (Float32.scaled a) (Float32.scaled b));
    try reflexivity; lia.
Qed.

Lemma get_lane_float_range (a : Simd128Value) (i : Z) :
  0 <= Simd128Value.get_lane_float a i < 2 ^ 32.
Proof. apply slot_range. lia. Qed.

Lemma Min_Max_cases (a b : Z) :
  Float32.isnan a = false -> Float32.isnan b = false ->
  (Min a b = a \/ Min a b = b) /\ (Max a b = a \/ Max a b = b).
Proof.
  intros Ha Hb. unfold Min, Max.
  destruct (Float32.lt a b) eqn:Hl, (Float32.gt a b) eqn:Hg; auto.
  destruct (Float32.eq a b) eqn:He.
  - destruct (Float32.signbit a), (Float32.signbit b); auto.
  - destruct (compare_none_nan a b Hl Hg He); congruence.
Qed.

Lemma Min_Max_comm (a b : Z) :
  0 <= a < 2 ^ 32 -> 0 <= b < 2 ^ 32 ->
  Min a b = Min b a /\ Max a b = Max b a.
Proof.
  intros Ra Rb. unfold Min, Max.
  destruct (compare_float_swap a b) as (Hlt & Hgt & _ & _ & Heq).
  rewrite <- Hlt, <- Hgt, <- Heq.
  destruct (compare_exclusive a b) as (Xl & Xg & Xe).
  destruct (Float32.lt a b) eqn:Hl.
  { destruct (Xl eq_refl) as [-> _]. auto. }
  destruct (Float32.gt a b) eqn:Hg; [auto|].
  destruct (Float32.eq a b) eqn:He; [|auto].
  destruct (Bool.bool_dec (Float32.signbit a) (Float32.signbit b)) as [Hs | Hs].
  - rewrite (eq_same_sign_bits a b Ra Rb He Hs).
    destruct (Float32.signbit b); auto.
  - destruct (Float32.signbit a), (Float32.signbit b); auto; congruence.
Qed.

Lemma Min_Max_pair (a b : Z) :
  0 <= a < 2 ^ 32 -> 0 <= b < 2 ^ 32 ->
  Float32.isnan a = false -> Float32.isnan b = false ->
  (Min a b = a /\ Max a b = b) \/ (Min a b = b /\ Max a b = a).
Proof.
  intros Ra Rb Ha Hb. unfold Min, Max.
  destruct (compare_exclusive a b) as (Xl & Xg & Xe).
  destruct (Float32.lt a b) eqn:Hl.
  { destruct (Xl eq_refl) as [-> _]. auto. }
  destruct (Float32.gt a b) eqn:Hg; [auto|].
  destruct (Float32.eq a b) eqn:He.
  - destruct (Bool.bool_dec (Float32.signbit a) (Float32.signbit b)) as [Hs | Hs].
    + rewrite (eq_same_sign_bits a b Ra Rb He Hs).
      destruct (Float32.signbit b); auto.
    + destruct (Float32.signbit a), (Float32.signbit b); auto; congruence.
  - destruct (compare_none_nan a b Hl Hg He); congruence.
Qed.

(** ** Minimum and maximum of floats, continued *)

(** X17.  [min] and [max] of [Float32x4] are commutative bit for bit, also
    on signed zeros and NaNs: exchanging the operands gives the same
    vector. *)
Theorem float_min_max_commute (a b : Simd128Value) :
  Simd128Value.map a = Float32x4 ->
  Simd128Value.map b = Float32x4 ->
  Runtime_Float32x4Min a b = Runtime_Float32x4Min b a
  /\ Runtime_Float32x4Max a b = Runtime_Float32x4Max b a.
Proof.
  intros Ha Hb. unfold Runtime_Float32x4Min, Runtime_Float32x4Max, SIMD_BINARY_OP.
  args_checked.
  split; do 2 f_equal; apply map_lane_indices_ext; intros i Hi;
    cbn [Simd128Value.get_lane];
    apply Min_Max_comm; apply get_lane_float_range.
Qed.

(** X18.  On lanes that hold no NaN, [min] and [max] of [Float32x4] return
    the two operand lanes between them, bit for bit: one is the lane of the
    first operand and the other the lane of the second. *)
Theorem float_min_max_keep_both (a b : Simd128Value) :
  Simd128Value.map a = Float32x4 ->
  Simd128Value.map b = Float32x4 ->
  exists lo hi,
    Runtime_Float32x4Min a b = Ok lo
    /\ Runtime_Float32x4Max a b = Ok hi
    /\ forall i, 0 <= i < 4 ->
         let x := Simd128Value.get_lane_float a i in
         let y := Simd128Value.get_lane_float b i in
         Float32.isnan x = false -> Float32.isnan y = false ->
         (Simd128Value.get_lane_float lo i = x /\ Simd128Value.get_lane_float hi i = y)
         \/ (Simd128Value.get_lane_float lo i = y
             /\ Simd128Value.get_lane_float hi i = x).
Proof.
  intros Ha Hb.
  destruct (Runtime_Float32x4Min_lanes a b Ha Hb) as (lo & Hlo & _ & Llo).
  destruct (Runtime_Float32x4Max_lanes a b Ha Hb) as (hi & Hhi & _ & Lhi).
  exists lo, hi. split; [exact Hlo|]. split; [exact Hhi|].
  intros i Hi x y Hx Hy. rewrite Llo, Lhi by assumption. fold x y.
  pose proof (get_lane_float_range a i) as Rx.
  pose proof (get_lane_float_range b i) as Ry. fold x in Rx. fold y in Ry.
  destruct (Min_Max_pair x y Rx Ry Hx Hy) as [[-> ->] | [-> ->]];
    rewrite !bit_cast_uint_small by assumption; auto.
Qed.

(** X19.  [minNum] and [maxNum] of [Float32x4] ignore a NaN on one side: a
    lane with a NaN in the first operand is the lane of the second operand
    bit for bit, a lane with a NaN in the second operand only is the lane of
    the first, and the other lanes are those of [min] and [max].  The result
    lane is a NaN only when both operand lanes are. *)
Theorem min_num_max_num_lanes (a b : Simd128Value) :
  Simd128Value.map a = Float32x4 ->
  Simd128Value.map b = Float32x4 ->
  exists lo hi lo_num hi_num,
    Runtime_Float32x4Min a b = Ok lo
    /\ Runtime_Float32x4Max a b = Ok hi
    /\ Runtime_Float32x4MinNum a b = Ok lo_num
    /\ Runtime_Float32x4MaxNum a b = Ok hi_num
    /\ forall i, 0 <= i < 4 ->
         let x := Simd128Value.get_lane_float a i in
         let y := Simd128Value.get_lane_float b i in
         let lane r := Simd128Value.get_lane_float r i in
         (Float32.isnan x = true -> lane lo_num = y /\ lane hi_num = y)
         /\ (Float32.isnan x = false -> Float32.isnan y = true ->
             lane lo_num = x /\ lane hi_num = x)
         /\ (Float32.isnan x = false -> Float32.isnan y = false ->
             lane lo_num = lane lo /\ lane hi_num = lane hi)
         /\ (Float32.isnan (lane lo_num) = true
             <-> Float32.isnan x = true /\ Float32.isnan y = true)
         /\ (Float32.isnan (lane hi_num) = true
             <-> Float32.isnan x = true /\ Float32.isnan y = true).
Proof.
  intros Ha Hb.
  destruct (Runtime_Float32x4Min_lanes a b Ha Hb) as (lo & Hlo & _ & Llo).
  destruct (Runtime_Float32x4Max_lanes a b Ha Hb) as (hi & Hhi & _ & Lhi).
  destruct (SIMD_BINARY_OP_lanes Float32x4 MinNumber a b Ha Hb)
    as (lo_num & Hlon & _ & Llon).
  destruct (SIMD_BINARY_OP_lanes Float32x4 MaxNumber a b Ha Hb)
    as (hi_num & Hhin & _ & Lhin).
  exists lo, hi, lo_num, hi_num. do 4 (split; [assumption|]).
  intros i Hi x y lane. subst lane. cbv beta.
  specialize (Llo i Hi). specialize (Lhi i Hi).
  specialize (Llon i Hi). specialize (Lhin i Hi).
  cbn [Simd128Value.get_lane Simd128Value.stored lane_count] in Llon, Lhin.
  fold x y in Llo, Lhi, Llon, Lhin.
  pose proof (get_lane_float_range a i) as Rx.
  pose proof (get_lane_float_range b i) as Ry. fold x in Rx. fold y in Ry.
  rewrite Llo, Lhi, Llon, Lhin. unfold MinNumber, MaxNumber.
  destruct (Float32.isnan x) eqn:Hx; [|destruct (Float32.isnan y) eqn:Hy].
  - rewrite !bit_cast_uint_small by assumption.
    repeat split; try congruence; try tauto.
  - rewrite !bit_cast_uint_small by assumption. rewrite Hx.
    repeat split; try congruence; try tauto.
  - destruct (Min_Max_cases x y Hx Hy) as [[-> | ->] [-> | ->]];
      rewrite !bit_cast_uint_small by assumption;
      repeat split; try congruence; try tauto;
      try (intros [? ?]; congruence).
Qed.

(** ** Relational functions *)

Lemma SIMD_RELATIONAL_FUNCTION_Ok (op : Relational) (type : Kind)
  (a b : Simd128Value) :
  Simd128Value.map a = type ->
  Simd128Value.map b = type ->
  SIMD_RELATIONAL_FUNCTION op type a b
  = Ok (New_bool (bool_type type)
          (List.map
             (fun i =>
                relational_operator type op (Simd128Value.get_lane type a i)
                  (Simd128Value.get_lane type b i))
             (lane_indices (lane_count type)))).
Proof.
  intros Ha Hb. unfold SIMD_RELATIONAL_FUNCTION, SIMD_RELATIONAL_OP.
  args_checked. reflexivity.
Qed.

Lemma relational_lane (type : Kind) (f : Z -> bool) (i : Z) :
  0 <= i < lane_count type ->
  Simd128Value.get_lane_bool (bool_type type)
    (New_bool (bool_type type) (List.map f (lane_indices (lane_count type)))) i
  = f i.
Proof.
  intros Hi.
  rewrite get_lane_bool_New_bool
    by (rewrite (proj1 (bool_type_layout type)); assumption).
  apply array_get_map_indices; assumption.
Qed.

Lemma SIMD_NOT_FUNCTION_BOOL_of_lanes (type : Kind) (f : Z -> bool) :
  SIMD_NOT_FUNCTION_BOOL (bool_type type)
    (New_bool (bool_type type) (List.map f (lane_indices (lane_count type))))
  = Ok (New_bool (bool_type type)
          (List.map (fun i => negb (f i)) (lane_indices (lane_count type)))).
Proof.
  unfold SIMD_NOT_FUNCTION_BOOL, SIMD_UNARY_OP_bool.
  rewrite CONVERT_ARG_HANDLE_CHECKED_Ok by reflexivity. cbn [bind].
  rewrite (proj1 (bool_type_layout type)).
  f_equal. apply New_bool_map_ext. intros i Hi.
  rewrite relational_lane by assumption. reflexivity.
Qed.

Lemma compare_int_swap (x y : Z) :
  compare_int LT x y = compare_int GT y x
  /\ compare_int LE x y = compare_int GE y x
  /\ compare_int EQ x y = compare_int EQ y x
  /\ compare_int NE x y = compare_int NE y x.
Proof.
  cbn [compare_int]. rewrite Z.gtb_ltb, Z.geb_leb, (Z.eqb_sym x y). auto.
Qed.

Lemma compare_int_complement (x y : Z) :
  compare_int GE x y = negb (compare_int LT x y)
  /\ compare_int LE x y = negb (compare_int GT x y)
  /\ compare_int NE x y = negb (compare_int EQ x y).
Proof.
  cbn [compare_int]. rewrite Z.gtb_ltb, Z.geb_leb.
  destruct (Z.leb_spec y x), (Z.ltb_spec x y), (Z.leb_spec x y), (Z.ltb_spec y x);
    try lia; auto.
Qed.

Lemma relational_operator_swap (type : Kind) (x y : lane_t type) :
  In type SIMD_NUMERIC_TYPES ->
  relational_operator type LT x y = relational_operator type GT y x
  /\ relational_operator type LE x y = relational_operator type GE y x
  /\ relational_operator type EQ x y = relational_operator type EQ y x
  /\ relational_operator type NE x y = relational_operator type NE y x.
Proof.
  intros [<- | [<- | [<- | [<- | []]]]]; cbn [relational_operator];
    try apply compare_int_swap.
  cbn [compare_float]. unfold Float32.ne.
  destruct (compare_float_swap x y) as (-> & _ & -> & _ & ->). auto.
Qed.

Lemma relational_operator_not_equal (type : Kind) (x y : lane_t type) :
  relational_operator type NE x y = negb (relational_operator type EQ x y).
Proof. destruct type; reflexivity. Qed.

(** X20.  Exchanging the operands of a comparison exchanges [lessThan] with
    [greaterThan] and [lessThanOrEqual] with [greaterThanOrEqual], and leaves
    [equal] and [notEqual] as they are; this holds for the floats too, NaN
    lanes included. *)
Theorem relational_swap (type : Kind) (a b : Simd128Value) :
  In type SIMD_NUMERIC_TYPES ->
  Simd128Value.map a = type ->
  Simd128Value.map b = type ->
  SIMD_RELATIONAL_FUNCTION LT type a b = SIMD_RELATIONAL_FUNCTION GT type b a
  /\ SIMD_RELATIONAL_FUNCTION LE type a b = SIMD_RELATIONAL_FUNCTION GE type b a
  /\ SIMD_RELATIONAL_FUNCTION EQ type a b = SIMD_RELATIONAL_FUNCTION EQ type b a
  /\ SIMD_RELATIONAL_FUNCTION NE type a b = SIMD_RELATIONAL_FUNCTION NE type b a.
Proof.
  intros Hnum Ha Hb. rewrite !SIMD_RELATIONAL_FUNCTION_Ok by assumption.
  repeat split; f_equal; apply New_bool_map_ext; intros i Hi;
    apply (relational_operator_swap type _ _ Hnum).
Qed.

(** X21.  The comparisons of [Float32x4] compare the values the lanes
    denote, so that [+0] equals [-0]; a lane with a NaN on either side is
    false in [equal], [lessThan], [lessThanOrEqual], [greaterThan] and
    [greaterThanOrEqual], and true in [notEqual]. *)
Theorem float_relational_lanes (op : Relational) (a b : Simd128Value) :
  Simd128Value.map a = Float32x4 ->
  Simd128Value.map b = Float32x4 ->
  exists r,
    SIMD_RELATIONAL_FUNCTION op Float32x4 a b = Ok r
    /\ Simd128Value.map r = Bool32x4
    /\ forall i, 0 <= i < 4 ->
         let x := Simd128Value.get_lane_float a i in
         let y := Simd128Value.get_lane_float b i in
         (Float32.isnan x = true \/ Float32.isnan y = true ->
          Simd128Value.get_lane_bool Bool32x4 r i
          = match op with NE => true | _ => false end)
         /\ (Float32.isnan x = false -> Float32.isnan y = false ->
             Simd128Value.get_lane_bool Bool32x4 r i
             = compare_int op (Float32.scaled x) (Float32.scaled y)).
Proof.
  intros Ha Hb. rewrite SIMD_RELATIONAL_FUNCTION_Ok by assumption.
  eexists. split; [reflexivity|]. split; [reflexivity|].
  intros i Hi x y.
  rewrite (relational_lane Float32x4) by assumption.
  cbn [relational_operator Simd128Value.get_lane]. fold x y.
  split.
  - apply compare_float_nan.
  - apply compare_float_order.
Qed.

(** X22.  [notEqual] is the lane-wise [not] of [equal] for every kind; for
    the integer kinds [greaterThanOrEqual] is the [not] of [lessThan] and
    [lessThanOrEqual] the [not] of [greaterThan]. *)
Theorem relational_complements (type : Kind) (a b : Simd128Value) :
  In type SIMD_ALL_TYPES ->
  Simd128Value.map a = type ->
  Simd128Value.map b = type ->
  exists eq,
    SIMD_RELATIONAL_FUNCTION EQ type a b = Ok eq
    /\ SIMD_RELATIONAL_FUNCTION NE type a b
       = SIMD_NOT_FUNCTION_BOOL (bool_type type) eq
    /\ (In type SIMD_INT_TYPES ->
        exists lt gt,
          SIMD_RELATIONAL_FUNCTION LT type a b = Ok lt
          /\ SIMD_RELATIONAL_FUNCTION GT type a b = Ok gt
          /\ SIMD_RELATIONAL_FUNCTION GE type a b
             = SIMD_NOT_FUNCTION_BOOL (bool_type type) lt
          /\ SIMD_RELATIONAL_FUNCTION LE type a b
             = SIMD_NOT_FUNCTION_BOOL (bool_type type) gt).
Proof.
  intros _ Ha Hb. rewrite !SIMD_RELATIONAL_FUNCTION_Ok by assumption.
  eexists. split; [reflexivity|].
  rewrite !SIMD_NOT_FUNCTION_BOOL_of_lanes.
  split.
  - f_equal. apply New_bool_map_ext. intros i Hi.
    apply relational_operator_not_equal.
  - intros Hint. do 2 eexists. do 2 (split; [reflexivity|]).
    rewrite !SIMD_NOT_FUNCTION_BOOL_of_lanes.
    split; f_equal; apply New_bool_map_ext; intros i Hi;
      destruct Hint as [<- | [<- | [<- | []]]]; cbn [relational_operator];
      apply compare_int_complement.
Qed.

(** ** Unsigned extraction *)

Lemma bit_cast_uint_of_signed (w x : Z) :
  0 < w -> in_int_range w x ->
  bit_cast_uint w x = if x <? 0 then x + 2 ^ w else x.
Proof.
  intros Hw [Hlo Hhi]. unfold numeric_limits_min, numeric_limits_max in *.
  pose proof (pow2_half w Hw) as Hh.
  pose proof (pow2_pos (w - 1) ltac:(lia)) as HP.
  unfold bit_cast_uint.
  destruct (Z.ltb_spec x 0).
  - symmetry. apply (Z.mod_unique_pos x (2 ^ w) (-1)); lia.
  - apply Z.mod_small. lia.
Qed.

(** X23.  The unsigned extractions of [Int16x8] and [Int8x16] return the
    lane's bits read as an unsigned integer: the number lies in [0, 2^w) and
    is the signed lane, plus [2^w] when that is negative. *)
Theorem unsigned_extract_lane (a : Simd128Value) (lane : Z) :
  (Simd128Value.map a = Int16x8 -> 0 <= lane < 8 ->
   exists s u,
     SIMD_EXTRACT_FUNCTION Int16x8 a lane = Ok (NewNumber_int s)
     /\ Runtime_Int16x8UnsignedExtractLane a lane = Ok (NewNumber_int u)
     /\ 0 <= u < 2 ^ 16
     /\ u = Simd128Value.slot 16 a lane
     /\ u = (if s <? 0 then s + 2 ^ 16 else s))
  /\ (Simd128Value.map a = Int8x16 -> 0 <= lane < 16 ->
      exists s u,
        SIMD_EXTRACT_FUNCTION Int8x16 a lane = Ok (NewNumber_int s)
        /\ Runtime_Int8x16UnsignedExtractLane a lane = Ok (NewNumber_int u)
        /\ 0 <= u < 2 ^ 8
        /\ u = Simd128Value.slot 8 a lane
        /\ u = (if s <? 0 then s + 2 ^ 8 else s)).
Proof.
  split; intros Ha Hl;
    unfold SIMD_EXTRACT_FUNCTION, Runtime_Int16x8UnsignedExtractLane,
      Runtime_Int8x16UnsignedExtractLane;
    args_checked;
    rewrite !CONVERT_SIMD_LANE_ARG_CHECKED_Ok by (cbn [lane_count]; lia);
    cbn [bind extract Simd128Value.get_lane];
    do 2 eexists; (split; [reflexivity|]); (split; [reflexivity|]).
  - split; [apply bit_cast_uint_range; lia|].
    split.
    + unfold Simd128Value.get_lane_int. cbn [lane_bits].
      rewrite bit_cast_uint_static_cast_int by lia.
      apply bit_cast_uint_small, slot_range. lia.
    + apply bit_cast_uint_of_signed; [lia|].
      apply (get_lane_int_range Int16x8).
  - split; [apply bit_cast_uint_range; lia|].
    split.
    + unfold Simd128Value.get_lane_int. cbn [lane_bits].
      rewrite bit_cast_uint_static_cast_int by lia.
      apply bit_cast_uint_small, slot_range. lia.
    + apply bit_cast_uint_of_signed; [lia|].
      apply (get_lane_int_range Int8x16).
Qed.

(** ** Minimum and maximum of small integers *)

(** Every [int16_t] converts to [float] exactly and back to itself. *)
Lemma of_int32_fields_int16 (n : Z) :
  - 32768 <= n < 32768 ->
  let f := Float32.of_int32 n in
  Float32.to_int32 f = n
  /\ 0 <= f < 2 ^ 32
  /\ ((n = 0 /\ f = 0)
      \/ (127 <= Float32.exponent_field f <= 150
          /\ Float32.fraction_field f + 2 ^ 23
             = Z.abs n * 2 ^ (150 - Float32.exponent_field f)
          /\ Float32.signbit f = (n <? 0))).
Proof.
  intros Hn.
  set (check := fun n =>
         let f := Float32.of_int32 n in
         (Float32.to_int32 f =? n)
         && ((0 <=? f) && (f <? 2 ^ 32))
         && (if n =? 0 then f =? 0
             else
               let e := Float32.exponent_field f in
               (127 <=? e) && (e <=? 150)
               && (Float32.fraction_field f + 2 ^ 23 =? Z.abs n * 2 ^ (150 - e))
               && Bool.eqb (Float32.signbit f) (n <? 0))).
  assert (Hall : forallb
            (fun hi => forallb (fun lo => check (256 * hi + lo - 32768))
                         (lane_indices 256))
            (lane_indices 256) = true) by (vm_compute; reflexivity).
  rewrite forallb_lanes in Hall.
  specialize (Hall ((n + 32768) / 256) ltac:(Z.div_mod_to_equations; lia)).
  rewrite forallb_lanes in Hall.
  specialize (Hall ((n + 32768) mod 256) ltac:(Z.div_mod_to_equations; lia)).
  replace (256 * ((n + 32768) / 256) + (n + 32768) mod 256 - 32768) with n in Hall
    by (Z.div_mod_to_equations; lia).
  unfold check in Hall. cbv zeta in Hall |- *.
  apply andb_prop in Hall. destruct Hall as [H1 H2].
  apply andb_prop in H1. destruct H1 as [H1 Hr].
  apply andb_prop in Hr. destruct Hr as [Hr1 Hr2].
  apply Z.leb_le in Hr1. apply Z.ltb_lt in Hr2.
  apply Z.eqb_eq in H1. split; [exact H1|]. split; [lia|].
  destruct (Z.eqb_spec n 0) as [H0 | H0].
  - left. apply Z.eqb_eq in H2. auto.
  - right.
    apply andb_prop in H2. destruct H2 as [H2 H5].
    apply andb_prop in H2. destruct H2 as [H2 H4].
    apply andb_prop in H2. destruct H2 as [H2 H3].
    apply Z.leb_le in H2. apply Z.leb_le in H3. apply Z.eqb_eq in H4.
    apply Bool.eqb_prop in H5. auto.
Qed.

Lemma of_int32_exact_int16 (n : Z) :
  - 32768 <= n < 32768 ->
  Float32.isnan (Float32.of_int32 n) = false
  /\ Float32.scaled (Float32.of_int32 n) = n * 2 ^ 149
  /\ Float32.to_int32 (Float32.of_int32 n) = n.
Proof.
  intros Hn. destruct (of_int32_fields_int16 n Hn) as (Hto & _ & Hf).
  cbv zeta in Hto, Hf.
  destruct Hf as [[-> ->] | (He & Hm & Hs)].
  - repeat split.
  - split; [|split; [|exact Hto]].
    + unfold Float32.isnan.
      destruct (Z.eqb_spec (Float32.exponent_field (Float32.of_int32 n)) 255);
        [lia | reflexivity].
    + unfold Float32.scaled, Float32.significand, Float32.scale.
      destruct (Z.eqb_spec (Float32.exponent_field (Float32.of_int32 n)) 0);
        [lia|].
      rewrite Hm, Hs, <- Z.mul_assoc, <- Z.pow_add_r by lia.
      replace (150 - Float32.exponent_field (Float32.of_int32 n)
               + (Float32.exponent_field (Float32.of_int32 n) - 1)) with 149 by lia.
      destruct (Z.ltb_spec n 0); lia.
Qed.

Lemma compare_of_int32_int16 (a b : Z) :
  - 32768 <= a < 32768 -> - 32768 <= b < 32768 ->
  Float32.lt (Float32.of_int32 a) (Float32.of_int32 b) = (a <? b)
  /\ Float32.gt (Float32.of_int32 a) (Float32.of_int32 b) = (b <? a)
  /\ Float32.eq (Float32.of_int32 a) (Float32.of_int32 b) = (a =? b).
Proof.
  intros Ra Rb.
  destruct (of_int32_exact_int16 a Ra) as (Na & Sa & _).
  destruct (of_int32_exact_int16 b Rb) as (Nb & Sb & _).
  assert (HP : 0 < 2 ^ 149) by lia.
  repeat split; apply Bool.eq_true_iff_eq.
  - rewrite lt_is_order_of_values, Sa, Sb, Z.ltb_lt.
    split; [intros (_ & _ & H); nia | intros H; repeat split; auto; nia].
  - rewrite gt_is_order_of_values, Sa, Sb, Z.ltb_lt.
    split; [intros (_ & _ & H); nia | intros H; repeat split; auto; nia].
  - rewrite eq_is_equality_of_values, Sa, Sb, Z.eqb_eq.
    split; [intros (_ & _ & H); nia | intros H; repeat split; auto; nia].
Qed.

Lemma Min_int_Max_int_exact (w a b : Z) :
  w = 8 \/ w = 16 -> in_int_range w a -> in_int_range w b ->
  Min_int w a b = Z.min a b /\ Max_int w a b = Z.max a b.
Proof.
  intros Hw Ra Rb.
  destruct (int_range_small w Hw) as (Hmin & Hmax & Hp).
  assert (Hpos : 0 < w) by (destruct Hw; lia).
  unfold in_int_range in Ra, Rb.
  assert (Ra' : - 32768 <= a < 32768) by lia.
  assert (Rb' : - 32768 <= b < 32768) by lia.
  destruct (of_int32_exact_int16 a Ra') as (_ & _ & Ta).
  destruct (of_int32_exact_int16 b Rb') as (_ & _ & Tb).
  destruct (compare_of_int32_int16 a b Ra' Rb') as (Hlt & Hgt & Heq).
  assert (Ca : static_cast_int w a = a)
    by (apply static_cast_int_id; [assumption | split; lia]).
  assert (Cb : static_cast_int w b = b)
    by (apply static_cast_int_id; [assumption | split; lia]).
  unfold Min_int, Max_int, Min, Max. rewrite Hlt, Hgt, Heq.
  destruct (Z.ltb_spec a b), (Z.ltb_spec b a), (Z.eqb_spec a b); try lia;
    try (destruct (Float32.signbit (Float32.of_int32 a)));
    try (destruct (Float32.signbit (Float32.of_int32 b)));
    rewrite ?Ta, ?Tb, ?Ca, ?Cb; split; lia.
Qed.

Lemma in_int_range_min_max (w a b : Z) :
  in_int_range w a -> in_int_range w b ->
  in_int_range w (Z.min a b) /\ in_int_range w (Z.max a b).
Proof. unfold in_int_range. lia. Qed.

Lemma SIMD_BINARY_OP_small_int_lanes (op8 op16 : Z -> Z -> Z) (a b : Simd128Value) :
  (Simd128Value.map a = Int16x8 -> Simd128Value.map b = Int16x8 ->
   exists r,
     SIMD_BINARY_OP Int16x8 op16 a b = Ok r
     /\ forall i, 0 <= i < 8 ->
          Simd128Value.get_lane_int Int16x8 r i
          = static_cast_int 16
              (op16 (Simd128Value.get_lane_int Int16x8 a i)
                 (Simd128Value.get_lane_int Int16x8 b i)))
  /\ (Simd128Value.map a = Int8x16 -> Simd128Value.map b = Int8x16 ->
      exists r,
        SIMD_BINARY_OP Int8x16 op8 a b = Ok r
        /\ forall i, 0 <= i < 16 ->
             Simd128Value.get_lane_int Int8x16 r i
             = static_cast_int 8
                 (op8 (Simd128Value.get_lane_int Int8x16 a i)
                    (Simd128Value.get_lane_int Int8x16 b i))).
Proof.
  split; intros Ha Hb.
  - destruct (SIMD_BINARY_OP_lanes Int16x8 op16 a b Ha Hb) as (r & Hr & _ & Hl).
    exists r. split; [exact Hr | exact Hl].
  - destruct (SIMD_BINARY_OP_lanes Int8x16 op8 a b Ha Hb) as (r & Hr & _ & Hl).
    exists r. split; [exact Hr | exact Hl].
Qed.

Lemma static_cast_int_min_max (w a b : Z) :
  w = 8 \/ w = 16 -> in_int_range w a -> in_int_range w b ->
  static_cast_int w (Min_int w a b) = Z.min a b
  /\ static_cast_int w (Max_int w a b) = Z.max a b.
Proof.
  intros Hw Ra Rb.
  destruct (Min_int_Max_int_exact w a b Hw Ra Rb) as [-> ->].
  assert (Hpos : 0 < w) by (destruct Hw; lia).
  split; apply static_cast_int_id; try assumption;
    apply in_int_range_min_max; assumption.
Qed.

(** X24.  On [Int16x8] and [Int8x16], [min] and [max] are the integer
    minimum and maximum of the lanes, although the lanes go through [Min] and
    [Max] on [float]: every 16-bit integer converts to [float] exactly. *)
Theorem small_int_min_max_exact (a b : Simd128Value) :
  (Simd128Value.map a = Int16x8 -> Simd128Value.map b = Int16x8 ->
   exists lo hi,
     Runtime_Int16x8Min a b = Ok lo
     /\ Runtime_Int16x8Max a b = Ok hi
     /\ forall i, 0 <= i < 8 ->
          Simd128Value.get_lane_int Int16x8 lo i
          = Z.min (Simd128Value.get_lane_int Int16x8 a i)
              (Simd128Value.get_lane_int Int16x8 b i)
          /\ Simd128Value.get_lane_int Int16x8 hi i
             = Z.max (Simd128Value.get_lane_int Int16x8 a i)
                 (Simd128Value.get_lane_int Int16x8 b i))
  /\ (Simd128Value.map a = Int8x16 -> Simd128Value.map b = Int8x16 ->
      exists lo hi,
        Runtime_Int8x16Min a b = Ok lo
        /\ Runtime_Int8x16Max a b = Ok hi
        /\ forall i, 0 <= i < 16 ->
             Simd128Value.get_lane_int Int8x16 lo i
             = Z.min (Simd128Value.get_lane_int Int8x16 a i)
                 (Simd128Value.get_lane_int Int8x16 b i)
             /\ Simd128Value.get_lane_int Int8x16 hi i
                = Z.max (Simd128Value.get_lane_int Int8x16 a i)
                    (Simd128Value.get_lane_int Int8x16 b i)).
Proof.
  destruct (SIMD_BINARY_OP_small_int_lanes (Min_int 8) (Min_int 16) a b)
    as [Hmin16 Hmin8].
  destruct (SIMD_BINARY_OP_small_int_lanes (Max_int 8) (Max_int 16) a b)
    as [Hmax16 Hmax8].
  split; intros Ha Hb.
  - destruct (Hmin16 Ha Hb) as (lo & Hlo & Llo).
    destruct (Hmax16 Ha Hb) as (hi & Hhi & Lhi).
    exists lo, hi. split; [exact Hlo|]. split; [exact Hhi|].
    intros i Hi. rewrite (Llo i Hi), (Lhi i Hi).
    apply static_cast_int_min_max;
      [right; reflexivity | apply (get_lane_int_range Int16x8) ..].
  - destruct (Hmin8 Ha Hb) as (lo & Hlo & Llo).
    destruct (Hmax8 Ha Hb) as (hi & Hhi & Lhi).
    exists lo, hi. split; [exact Hlo|]. split; [exact Hhi|].
    intros i Hi. rewrite (Llo i Hi), (Lhi i Hi).
    apply static_cast_int_min_max;
      [left; reflexivity | apply (get_lane_int_range Int8x16) ..].
Qed.

(** X25.  On [Int16x8] and [Int8x16], selecting by the mask of [lessThan]
    is [min] and selecting by the mask of [greaterThan] is [max]: the three
    functions compose to the same vector the fourth returns. *)
Theorem select_by_comparison_is_min_max (a b : Simd128Value) :
  (Simd128Value.map a = Int16x8 -> Simd128Value.map b = Int16x8 ->
   exists lt gt,
     SIMD_RELATIONAL_FUNCTION LT Int16x8 a b = Ok lt
     /\ SIMD_RELATIONAL_FUNCTION GT Int16x8 a b = Ok gt
     /\ SIMD_SELECT_FUNCTION Int16x8 lt a b = Runtime_Int16x8Min a b
     /\ SIMD_SELECT_FUNCTION Int16x8 gt a b = Runtime_Int16x8Max a b)
  /\ (Simd128Value.map a = Int8x16 -> Simd128Value.map b = Int8x16 ->
      exists lt gt,
        SIMD_RELATIONAL_FUNCTION LT Int8x16 a b = Ok lt
        /\ SIMD_RELATIONAL_FUNCTION GT Int8x16 a b = Ok gt
        /\ SIMD_SELECT_FUNCTION Int8x16 lt a b = Runtime_Int8x16Min a b
        /\ SIMD_SELECT_FUNCTION Int8x16 gt a b = Runtime_Int8x16Max a b).
Proof.
  split; intros Ha Hb;
    rewrite !SIMD_RELATIONAL_FUNCTION_Ok by assumption;
    do 2 eexists; do 2 (split; [reflexivity|]);
    rewrite !SIMD_SELECT_FUNCTION_Ok by (assumption || reflexivity);
    unfold Runtime_Int16x8Min, Runtime_Int16x8Max, Runtime_Int8x16Min,
      Runtime_Int8x16Max, SIMD_BINARY_OP;
    args_checked.
  - split; do 2 f_equal; apply map_lane_indices_ext; intros i Hi;
      rewrite (relational_lane Int16x8) by assumption;
      cbn [relational_operator compare_int Simd128Value.get_lane];
      destruct (Min_int_Max_int_exact 16 _ _ (or_intror eq_refl)
                  (get_lane_int_range Int16x8 a i) (get_lane_int_range Int16x8 b i))
        as [Emin Emax]; rewrite ?Emin, ?Emax.
    + destruct (Z.ltb_spec (Simd128Value.get_lane_int Int16x8 a i)
                  (Simd128Value.get_lane_int Int16x8 b i)); lia.
    + rewrite Z.gtb_ltb.
      destruct (Z.ltb_spec (Simd128Value.get_lane_int Int16x8 b i)
                  (Simd128Value.get_lane_int Int16x8 a i)); lia.
  - split; do 2 f_equal; apply map_lane_indices_ext; intros i Hi;
      rewrite (relational_lane Int8x16) by assumption;
      cbn [relational_operator compare_int Simd128Value.get_lane];
      destruct (Min_int_Max_int_exact 8 _ _ (or_introl eq_refl)
                  (get_lane_int_range Int8x16 a i) (get_lane_int_range Int8x16 b i))
        as [Emin Emax]; rewrite ?Emin, ?Emax.
    + destruct (Z.ltb_spec (Simd128Value.get_lane_int Int8x16 a i)
                  (Simd128Value.get_lane_int Int8x16 b i)); lia.
    + rewrite Z.gtb_ltb.
      destruct (Z.ltb_spec (Simd128Value.get_lane_int Int8x16 b i)
                  (Simd128Value.get_lane_int Int8x16 a i)); lia.
Qed.

(** ** Creating vectors and replacing lanes *)

Lemma New_ext (type : Kind) (l1 l2 : list (lane_t type)) :
  (forall i, 0 <= i < lane_count type ->
     array_get (zero_lane type) l1 i = array_get (zero_lane type) l2 i) ->
  Simd128Value.New type l1 = Simd128Value.New type l2.
Proof.
  intros H. unfold Simd128Value.New. apply New_slots_ext. intros i Hi.
  rewrite !array_get_slot_of, H by assumption. reflexivity.
Qed.

Lemma slot_of_stored (type : Kind) (x : lane_t type) :
  bit_cast_uint (lane_bits type)
    (Simd128Value.slot_of type (Simd128Value.stored type x))
  = bit_cast_uint (lane_bits type) (Simd128Value.slot_of type x).
Proof.
  destruct type; cbn [Simd128Value.slot_of Simd128Value.stored lane_bits];
    try reflexivity;
    rewrite !bit_cast_uint_idem by lia; try reflexivity;
    apply bit_cast_uint_static_cast_int; lia.
Qed.

Lemma stored_idem (type : Kind) (x : lane_t type) :
  Simd128Value.stored type (Simd128Value.stored type x) = Simd128Value.stored type x.
Proof.
  destruct type; cbn [Simd128Value.stored]; try reflexivity;
    first [apply static_cast_int_idem; lia | apply bit_cast_uint_idem; lia].
Qed.

Lemma New_stored_ext (type : Kind) (l1 l2 : list (lane_t type)) :
  (forall i, 0 <= i < lane_count type ->
     Simd128Value.stored type (array_get (zero_lane type) l1 i)
     = Simd128Value.stored type (array_get (zero_lane type) l2 i)) ->
  Simd128Value.New type l1 = Simd128Value.New type l2.
Proof.
  intros H. unfold Simd128Value.New. apply New_slots_ext. intros i Hi.
  rewrite !array_get_slot_of.
  rewrite <- slot_of_stored, (H i Hi), slot_of_stored. reflexivity.
Qed.

Lemma for_each_Ok_inv {A B : Type} (body : A -> result B) (l : list A)
  (xs : list B) :
  for_each body l = Ok xs -> forall i, In i l -> exists x, body i = Ok x.
Proof.
  revert xs. induction l as [|j l IH]; intros xs H i Hi; [destruct Hi|].
  simpl in H. destruct (body j) as [x|e] eqn:Hj; [|discriminate H].
  simpl in H. destruct (for_each body l) as [ys|e] eqn:Hl; [|discriminate H].
  destruct Hi as [<- | Hi]; [exists x; assumption | apply (IH ys eq_refl i Hi)].
Qed.

Section CreateProperties.

Variable Object : Type.
Variable double : Type.
Variable IsNumber : Object -> bool.
Variable Number : Object -> double.
Variable BooleanValue : Object -> bool.
Variable DoubleToFloat32 : double -> Z.
Variable DoubleToInt32 : double -> Z.

Let REPLACE :=
  SIMD_REPLACE_FUNCTION Object double IsNumber Number BooleanValue
    DoubleToFloat32 DoubleToInt32.
Let CREATE :=
  SIMD_CREATE_FUNCTION Object double IsNumber Number BooleanValue
    DoubleToFloat32 DoubleToInt32.
Let lane_of :=
  replace Object double IsNumber Number BooleanValue DoubleToFloat32 DoubleToInt32.

Lemma replace_cases (type : Kind) (x : Object) :
  (exists y, lane_of type x = Ok y /\ Simd128Value.stored type y = y
             /\ (is_bool_kind type = false -> IsNumber x = true))
  \/ (lane_of type x = Throw TypeError
      /\ is_bool_kind type = false /\ IsNumber x = false).
Proof.
  unfold lane_of.
  destruct type; cbn [replace is_bool_kind Simd128Value.stored];
    unfold GET_NUMERIC_ARG, GET_BOOLEAN_ARG;
    try (left; eexists; split; [reflexivity|]; split;
         [reflexivity | discriminate]);
    (destruct (IsNumber x) eqn:Hx; cbn [RUNTIME_ASSERT bind];
     [left; eexists; split; [reflexivity|]; split; [|reflexivity]
     | right; auto]);
    unfold ConvertNumber_float, ConvertNumber_int32_t, ConvertNumber_int16_t,
      ConvertNumber_int8_t;
    try (apply static_cast_int_idem; lia);
    apply bit_cast_uint_idem; lia.
Qed.

Lemma SIMD_REPLACE_FUNCTION_Ok (type : Kind) (v : Simd128Value) (lane : Z)
  (x : Object) (y : lane_t type) :
  Simd128Value.map v = type ->
  0 <= lane < lane_count type ->
  lane_of type x = Ok y ->
  REPLACE type v lane x
  = Ok (Simd128Value.New type (array_set (Simd128Value.lanes_of type v) lane y)).
Proof.
  intros Hv Hl Hy. unfold REPLACE, SIMD_REPLACE_FUNCTION. args_checked.
  rewrite CONVERT_SIMD_LANE_ARG_CHECKED_Ok by assumption. cbn [bind].
  unfold lane_of in Hy. rewrite Hy. reflexivity.
Qed.

Lemma SIMD_REPLACE_FUNCTION_Throw (type : Kind) (v : Simd128Value) (lane : Z)
  (x : Object) (e : Error) :
  Simd128Value.map v = type ->
  0 <= lane < lane_count type ->
  lane_of type x = Throw e ->
  REPLACE type v lane x = Throw e.
Proof.
  intros Hv Hl Hy. unfold REPLACE, SIMD_REPLACE_FUNCTION. args_checked.
  rewrite CONVERT_SIMD_LANE_ARG_CHECKED_Ok by assumption. cbn [bind].
  unfold lane_of in Hy. rewrite Hy. reflexivity.
Qed.

Lemma array_get_replaced (type : Kind) (v : Simd128Value) (lane i : Z)
  (y : lane_t type) :
  0 <= lane < lane_count type -> 0 <= i < lane_count type ->
  array_get (zero_lane type) (array_set (Simd128Value.lanes_of type v) lane y) i
  = if i =? lane then y else Simd128Value.get_lane type v i.
Proof.
  intros Hl Hi. destruct (Z.eqb_spec i lane) as [-> | Hne].
  - apply array_get_set_same. rewrite lanes_of_length. assumption.
  - rewrite array_get_set_other by lia. apply array_get_lanes_of, Hi.
Qed.

(** X26.  [Create<type>] succeeds when every argument of a numeric kind is a
    number (a boolean kind takes any argument), and extracting lane [i] of
    the vector gives what the [i]-th argument converts to. *)
Theorem create_then_extract (type : Kind) (args : Z -> Object) :
  (is_bool_kind type = false ->
   forall i, 0 <= i < lane_count type -> IsNumber (args i) = true) ->
  exists v,
    CREATE type args = Ok v
    /\ Simd128Value.map v = type
    /\ forall i, 0 <= i < lane_count type ->
         exists x,
           lane_of type (args i) = Ok x
           /\ SIMD_EXTRACT_FUNCTION type v i = Ok (extract type x).
Proof.
  intros Hnum.
  assert (Hall : forall i, 0 <= i < lane_count type ->
            exists y, lane_of type (args i) = Ok y
                      /\ Simd128Value.stored type y = y).
  { intros i Hi. destruct (replace_cases type (args i))
      as [(y & Hy & Hs & _) | (_ & Hb & Hn)].
    - exists y. auto.
    - rewrite (Hnum Hb i Hi) in Hn. discriminate Hn. }
  set (f := fun i => match lane_of type (args i) with
                     | Ok y => y
                     | Throw _ => zero_lane type
                     end).
  assert (Hf : forall i, 0 <= i < lane_count type ->
            lane_of type (args i) = Ok (f i)
            /\ Simd128Value.stored type (f i) = f i).
  { intros i Hi. destruct (Hall i Hi) as (y & Hy & Hs).
    unfold f. rewrite Hy. auto. }
  unfold CREATE, SIMD_CREATE_FUNCTION.
  rewrite (for_each_Ok _ f)
    by (intros i Hi; apply Hf, lane_indices_In, Hi).
  cbn [bind]. eexists. split; [reflexivity|]. split; [reflexivity|].
  intros i Hi. exists (f i). split; [apply Hf, Hi|].
  unfold SIMD_EXTRACT_FUNCTION.
  rewrite CONVERT_ARG_HANDLE_CHECKED_Ok by reflexivity. cbn [bind].
  rewrite CONVERT_SIMD_LANE_ARG_CHECKED_Ok by assumption. cbn [bind].
  rewrite get_lane_New, array_get_map_indices by assumption.
  rewrite (proj2 (Hf i Hi)). reflexivity.
Qed.

(** X27.  A numeric kind takes numbers only: [Create<type>] fails when one
    of its arguments is not a number, and [replaceLane] fails when the
    replacement is not, whatever the vector and the lane; no vector is
    returned. *)
Theorem numeric_lane_must_be_number (type : Kind) (args : Z -> Object)
  (v : Simd128Value) (lane k : Z) (x : Object) :
  In type SIMD_NUMERIC_TYPES ->
  (0 <= k < lane_count type -> IsNumber (args k) = false ->
   CREATE type args = Throw TypeError)
  /\ (Simd128Value.map v = type -> 0 <= lane < lane_count type ->
      IsNumber x = false ->
      REPLACE type v lane x = Throw TypeError).
Proof.
  intros Hnum. pose proof (numeric_not_bool type Hnum) as Hb. split.
  - intros Hk Hx. unfold CREATE, SIMD_CREATE_FUNCTION.
    rewrite (for_each_Throw _ TypeError); [reflexivity | |].
    + intros i _. destruct (replace_cases type (args i))
        as [(y & Hy & _) | (Hy & _)]; [right; exists y | left]; exact Hy.
    + exists k. split; [apply lane_indices_In, Hk|].
      destruct (replace_cases type (args k)) as [(y & _ & _ & Hy) | (Hy & _)];
        [rewrite (Hy Hb) in Hx; discriminate Hx | exact Hy].
  - intros Hv Hl Hx. apply SIMD_REPLACE_FUNCTION_Throw; try assumption.
    destruct (replace_cases type x) as [(y & _ & _ & Hy) | (Hy & _)];
      [rewrite (Hy Hb) in Hx; discriminate Hx | exact Hy].
Qed.

(** X28.  Replacing a lane of a created vector is creating the vector with
    that argument replaced: the two calls return the same vector, or fail
    alike when the replacement is not acceptable. *)
Theorem replace_lane_of_created (type : Kind) (args : Z -> Object)
  (v : Simd128Value) (lane : Z) (x : Object) :
  CREATE type args = Ok v ->
  0 <= lane < lane_count type ->
  REPLACE type v lane x
  = CREATE type (fun i => if i =? lane then x else args i).
Proof.
  intros Hv Hl. unfold CREATE, SIMD_CREATE_FUNCTION in Hv.
  destruct (for_each _ _) as [lanes|e] eqn:Hlanes; [|discriminate Hv].
  cbn [bind] in Hv. injection Hv as <-.
  assert (Hargs : forall i, 0 <= i < lane_count type ->
            exists y, lane_of type (args i) = Ok y
                      /\ Simd128Value.stored type y = y).
  { intros i Hi.
    destruct (for_each_Ok_inv _ _ _ Hlanes i (proj2 (lane_indices_In _ i) Hi))
      as (y & Hy).
    exists y. split; [exact Hy|].
    destruct (replace_cases type (args i)) as [(y' & Hy' & Hs & _) | (Hy' & _)];
      unfold lane_of in *; congruence. }
  set (f := fun i => match lane_of type (args i) with
                     | Ok y => y
                     | Throw _ => zero_lane type
                     end).
  assert (Hf : forall i, 0 <= i < lane_count type ->
            lane_of type (args i) = Ok (f i)
            /\ Simd128Value.stored type (f i) = f i).
  { intros i Hi. destruct (Hargs i Hi) as (y & Hy & Hs).
    unfold f. rewrite Hy. auto. }
  assert (Hmap : lanes = List.map f (lane_indices (lane_count type))).
  { rewrite (for_each_Ok _ f) in Hlanes
      by (intros i Hi; apply Hf, lane_indices_In, Hi).
    congruence. }
  subst lanes.
  unfold CREATE, SIMD_CREATE_FUNCTION.
  destruct (replace_cases type x) as [(y & Hy & Hs & _) | (Hy & _)].
  - rewrite (SIMD_REPLACE_FUNCTION_Ok type _ lane x y) by (reflexivity || assumption).
    rewrite (for_each_Ok _ (fun i => if i =? lane then y else f i)).
    + cbn [bind]. f_equal. apply New_ext. intros i Hi.
      rewrite array_get_replaced, array_get_map_indices by assumption.
      destruct (Z.eqb_spec i lane); [reflexivity|].
      rewrite get_lane_New, array_get_map_indices by assumption.
      apply Hf, Hi.
    + intros i Hi. apply lane_indices_In in Hi.
      destruct (Z.eqb_spec i lane); [exact Hy | apply Hf, Hi].
  - rewrite (SIMD_REPLACE_FUNCTION_Throw type _ lane x TypeError)
      by (reflexivity || assumption).
    rewrite (for_each_Throw _ TypeError); [reflexivity | |].
    + intros i Hi. apply lane_indices_In in Hi.
      destruct (Z.eqb_spec i lane); [left; exact Hy|].
      right. exists (f i). apply Hf, Hi.
    + exists lane. split; [apply lane_indices_In, Hl|].
      rewrite Z.eqb_refl. exact Hy.
Qed.

(** X29.  Replacing the same lane twice keeps the second replacement only,
    and replacements of different lanes can be made in either order. *)
Theorem replace_lane_twice (type : Kind) (v : Simd128Value) (i j : Z)
  (x y : Object) :
  Simd128Value.map v = type ->
  0 <= i < lane_count type ->
  0 <= j < lane_count type ->
  (is_bool_kind type = false -> IsNumber x = true /\ IsNumber y = true) ->
  exists vx vy,
    REPLACE type v i x = Ok vx
    /\ REPLACE type v j y = Ok vy
    /\ (i = j -> REPLACE type vx j y = Ok vy)
    /\ (i <> j -> REPLACE type vx j y = REPLACE type vy i x).
Proof.
  intros Hv Hi Hj Hnum.
  assert (Hx : exists x', lane_of type x = Ok x').
  { destruct (replace_cases type x) as [(x' & Hx & _) | (_ & Hb & Hn)];
      [exists x'; exact Hx|].
    rewrite (proj1 (Hnum Hb)) in Hn. discriminate Hn. }
  assert (Hy : exists y', lane_of type y = Ok y').
  { destruct (replace_cases type y) as [(y' & Hy & _) | (_ & Hb & Hn)];
      [exists y'; exact Hy|].
    rewrite (proj2 (Hnum Hb)) in Hn. discriminate Hn. }
  destruct Hx as (x' & Hx). destruct Hy as (y' & Hy).
  rewrite (SIMD_REPLACE_FUNCTION_Ok type v i x x'),
    (SIMD_REPLACE_FUNCTION_Ok type v j y y') by assumption.
  do 2 eexists. do 2 (split; [reflexivity|]).
  rewrite (SIMD_REPLACE_FUNCTION_Ok type _ j y y'),
    (SIMD_REPLACE_FUNCTION_Ok type _ i x x') by (reflexivity || assumption).
  split; intros Hij; f_equal; apply New_stored_ext; intros k Hk;
    rewrite !array_get_replaced by assumption;
    destruct (Z.eqb_spec k j), (Z.eqb_spec k i); try lia; try reflexivity;
    rewrite !get_lane_New, !array_get_replaced by assumption;
    destruct (Z.eqb_spec k j), (Z.eqb_spec k i); try lia;
    rewrite ?stored_get_lane, ?stored_idem; reflexivity.
Qed.

End CreateProperties.

(** ** Negation of floats *)

Lemma neg_flips_sign (a : Z) :
  0 <= a < 2 ^ 32 ->
  Float32.neg a = (if Float32.signbit a then a - 2 ^ 31 else a + 2 ^ 31)
  /\ 0 <= Float32.neg a < 2 ^ 32
  /\ Float32.signbit (Float32.neg a) = negb (Float32.signbit a).
Proof.
  intros Ha.
  assert (Hlow : forall x, 0 <= x < 2 ^ 31 -> Z.lxor x (2 ^ 31) = x + 2 ^ 31).
  { intros x Hx. symmetry. apply Z.add_nocarry_lxor.
    apply Z.bits_inj'. intros n Hn.
    rewrite Z.land_spec, Z.bits_0, Z.pow2_bits_eqb by lia.
    destruct (Z.eqb_spec 31 n) as [<- | Hne]; [|apply andb_false_r].
    rewrite andb_true_r. fold (Float32.signbit x). rewrite signbit_eq.
    rewrite Z.div_small by lia. reflexivity. }
  assert (Hneg : Float32.neg a
                 = if Float32.signbit a then a - 2 ^ 31 else a + 2 ^ 31).
  { unfold Float32.neg. change 0x80000000 with (2 ^ 31).
    rewrite signbit_eq.
    destruct (Z.eqb_spec ((a / 2 ^ 31) mod 2) 1) as [H | H].
    - assert (Hx : 0 <= a - 2 ^ 31 < 2 ^ 31) by (Z.div_mod_to_equations; lia).
      assert (Ea : a = Z.lxor (a - 2 ^ 31) (2 ^ 31))
        by (rewrite (Hlow (a - 2 ^ 31) Hx); lia).
      rewrite Ea at 1.
      rewrite Z.lxor_assoc, Z.lxor_nilpotent, Z.lxor_0_r. reflexivity.
    - apply Hlow. Z.div_mod_to_equations; lia. }
  rewrite Hneg, !signbit_eq.
  destruct (Z.eqb_spec ((a / 2 ^ 31) mod 2) 1) as [H | H];
    repeat split; Z.div_mod_to_equations; lia.
Qed.

(** X30.  [neg] of [Float32x4] flips the sign bit of every lane and nothing
    else, NaN lanes included: negating twice gives the vector back, and the
    absolute value of the negation is the absolute value of the vector. *)
Theorem float_neg_flips_sign (a : Simd128Value) :
  Simd128Value.map a = Float32x4 ->
  exists n,
    Runtime_Float32x4Neg a = Ok n
    /\ Runtime_Float32x4Neg n = Ok a
    /\ Runtime_Float32x4Abs n = Runtime_Float32x4Abs a
    /\ forall i, 0 <= i < 4 ->
         let x := Simd128Value.get_lane_float a i in
         Simd128Value.get_lane_float n i
         = if Float32.signbit x then x - 2 ^ 31 else x + 2 ^ 31.
Proof.
  intros Ha.
  destruct (SIMD_UNARY_OP_lanes Float32x4 Float32.neg a Ha) as (n & Hn & Hmap & Hl).
  assert (Hlane : forall i, 0 <= i < 4 ->
            Simd128Value.get_lane_float n i
            = Float32.neg (Simd128Value.get_lane_float a i)).
  { intros i Hi. specialize (Hl i Hi).
    cbn [Simd128Value.get_lane Simd128Value.stored] in Hl. rewrite Hl.
    apply bit_cast_uint_small.
    apply (neg_flips_sign _ (get_lane_float_range a i)). }
  exists n. split; [exact Hn|]. split; [|split].
  - unfold Runtime_Float32x4Neg, SIMD_UNARY_OP. args_checked. f_equal.
    transitivity (Simd128Value.New Float32x4 (Simd128Value.lanes_of Float32x4 a));
      [|apply New_get_lanes; [reflexivity | assumption]].
    f_equal. apply map_lane_indices_ext. intros i Hi.
    cbn [Simd128Value.get_lane]. rewrite Hlane by assumption.
    pose proof (get_lane_float_range a i) as Hx.
    destruct (neg_flips_sign _ Hx) as (E1 & R1 & S1).
    destruct (neg_flips_sign _ R1) as (E2 & _ & _).
    rewrite E2, S1, E1.
    destruct (Float32.signbit (Simd128Value.get_lane_float a i)); cbn [negb]; lia.
  - unfold Runtime_Float32x4Abs, SIMD_ABS_FUNCTION, SIMD_UNARY_OP. args_checked.
    do 2 f_equal. apply map_lane_indices_ext. intros i Hi.
    cbn [Simd128Value.get_lane]. rewrite Hlane by assumption.
    pose proof (get_lane_float_range a i) as Hx.
    destruct (neg_flips_sign _ Hx) as (E1 & R1 & S1).
    destruct (abs_clears_sign _ Hx) as (_ & A1 & _).
    destruct (abs_clears_sign _ R1) as (_ & A2 & _).
    rewrite A2, A1, S1, E1.
    destruct (Float32.signbit (Simd128Value.get_lane_float a i)); cbn [negb]; lia.
  - intros i Hi x. rewrite Hlane by assumption.
    apply (neg_flips_sign _ (get_lane_float_range a i)).
Qed.

(** ** Casting to float and back *)

(** The integers within 64 of either end of the [int32_t] range convert to
    the floats [-2^31] and [2^31], which [CanCast] refuses. *)
Lemma of_int32_extreme (n : Z) :
  - 2 ^ 31 <= n <= - 2 ^ 31 + 64 \/ 2 ^ 31 - 64 <= n < 2 ^ 31 ->
  0 <= Float32.of_int32 n < 2 ^ 32
  /\ CanCast_float (Float32.of_int32 n) = false.
Proof.
  intros Hn.
  set (check := fun n =>
         let f := Float32.of_int32 n in
         (0 <=? f) && (f <? 2 ^ 32) && negb (CanCast_float f)).
  assert (Hlow : forallb (fun k => check (- 2 ^ 31 + k)) (lane_indices 65) = true)
    by (vm_compute; reflexivity).
  assert (Hhigh : forallb (fun k => check (2 ^ 31 - 64 + k)) (lane_indices 64) = true)
    by (vm_compute; reflexivity).
  rewrite forallb_lanes in Hlow, Hhigh.
  assert (Hc : check n = true).
  { destruct Hn as [Hn | Hn].
    - specialize (Hlow (n + 2 ^ 31) ltac:(lia)).
      replace (- 2 ^ 31 + (n + 2 ^ 31)) with n in Hlow by lia. exact Hlow.
    - specialize (Hhigh (n - (2 ^ 31 - 64)) ltac:(lia)).
      replace (2 ^ 31 - 64 + (n - (2 ^ 31 - 64))) with n in Hhigh by lia.
      exact Hhigh. }
  unfold check in Hc. cbv zeta in Hc.
  apply andb_prop in Hc. destruct Hc as [Hc H3].
  apply andb_prop in Hc. destruct Hc as [H1 H2].
  apply Z.leb_le in H1. apply Z.ltb_lt in H2. apply negb_true_iff in H3.
  auto.
Qed.

Lemma of_int32_int16_accepted (n : Z) :
  - 32768 <= n < 32768 ->
  0 <= Float32.of_int32 n < 2 ^ 32
  /\ CanCast_float (Float32.of_int32 n) = true
  /\ Float32.to_int32 (Float32.of_int32 n) = n.
Proof.
  intros Hn. destruct (of_int32_fields_int16 n Hn) as (Hto & Hr & Hf).
  cbv zeta in Hto, Hr, Hf.
  split; [exact Hr|]. split; [|exact Hto].
  apply CanCast_float_exponent.
  destruct Hf as [[_ ->] | (He & _)]; [vm_compute; reflexivity | lia].
Qed.

(** X9.  Casting an [Int32x4] to [Float32x4] always succeeds, but the cast
    back need not: it throws [RangeError] when a lane was within 64 of either
    end of the [int32_t] range ([INT32_MIN] itself included), because such a
    lane converts to the float [-2^31] or [2^31], which [CanCast] refuses.
    When every lane is in the [int16_t] range the two casts give the vector
    back. *)
Theorem int32_float_cast_round_trip (v : Simd128Value) :
  Simd128Value.map v = Int32x4 ->
  exists f,
    Runtime_Float32x4FromInt32x4 v = Ok f
    /\ Simd128Value.map f = Float32x4
    /\ ((exists i, 0 <= i < 4
                   /\ (Simd128Value.get_lane_int Int32x4 v i <= - 2 ^ 31 + 64
                       \/ 2 ^ 31 - 64 <= Simd128Value.get_lane_int Int32x4 v i)) ->
        Runtime_Int32x4FromFloat32x4 f = Throw RangeError)
    /\ ((forall i, 0 <= i < 4 ->
           - 32768 <= Simd128Value.get_lane_int Int32x4 v i < 32768) ->
        Runtime_Int32x4FromFloat32x4 f = Ok v).
Proof.
  intros Hv.
  destruct (SIMD_FROM_FUNCTION_Ok Float32x4 Int32x4 CanCast_int32 Float32.of_int32
              v eq_refl Hv (fun _ _ => eq_refl))
    as (f & Hf & Hmap & Hl).
  cbn [Simd128Value.get_lane Simd128Value.stored lane_count] in Hl.
  exists f. split; [exact Hf|]. split; [exact Hmap|]. split.
  - intros (i & Hi & Hn).
    apply (SIMD_FROM_FUNCTION_Throw Int32x4 Float32x4 CanCast_float Float32.to_int32
             f Hmap).
    exists i. split; [exact Hi|].
    cbn [Simd128Value.get_lane]. rewrite (Hl i Hi).
    pose proof (get_lane_int_range Int32x4 v i) as Hr.
    unfold in_int_range, numeric_limits_min, numeric_limits_max in Hr.
    cbn [lane_bits] in Hr.
    destruct (of_int32_extreme (Simd128Value.get_lane_int Int32x4 v i)
                ltac:(lia)) as (Hrange & Hcast).
    rewrite bit_cast_uint_small by assumption. exact Hcast.
  - intros Hall.
    assert (Hlane : forall i, 0 <= i < 4 ->
              Simd128Value.get_lane_float f i
              = Float32.of_int32 (Simd128Value.get_lane_int Int32x4 v i)).
    { intros i Hi. rewrite (Hl i Hi).
      apply bit_cast_uint_small.
      apply (of_int32_int16_accepted _ (Hall i Hi)). }
    destruct (SIMD_FROM_FUNCTION_Ok Int32x4 Float32x4 CanCast_float Float32.to_int32
                f eq_refl Hmap) as (r & Hr & Hrmap & Hrl).
    { intros i Hi. cbn [Simd128Value.get_lane]. rewrite (Hlane i Hi).
      apply (of_int32_int16_accepted _ (Hall i Hi)). }
    unfold Runtime_Int32x4FromFloat32x4. rewrite Hr. f_equal.
    apply (vector_ext_int Int32x4); [left; reflexivity | congruence |].
    intros i Hi. specialize (Hrl i Hi).
    cbn [Simd128Value.get_lane Simd128Value.stored] in Hrl.
    rewrite Hrl, (Hlane i Hi).
    destruct (of_int32_int16_accepted _ (Hall i Hi)) as (_ & _ & ->).
    apply static_cast_int_id; [lia|]. apply (get_lane_int_range Int32x4).
Qed.

(** ** Examples *)

Ltac each_of_four_lanes :=
  let i := fresh "i" in
  let Hi := fresh "Hi" in
  let Hc := fresh "Hc" in
  intros i Hi; cbn [lane_count] in Hi;
  assert (Hc : i = 0 \/ i = 1 \/ i = 2 \/ i = 3) by lia;
  destruct Hc as [-> | [-> | [-> | ->]]]; vm_compute; easy.

(** Swizzling [Int32x4 (10, 20, 30, 40)] by [(3, 3, 0, 1)]. *)
Lemma swizzle_selects_lanes_example :
  let a := Simd128Value.New Int32x4 [10; 20; 30; 40] in
  exists r,
    SIMD_SWIZZLE_FUNCTION Int32x4 a [3; 3; 0; 1] = Ok r
    /\ Simd128Value.lanes_of Int32x4 r = [40; 40; 10; 20].
Proof.
  intros a.
  destruct (swizzle_selects_lanes Int32x4 a [3; 3; 0; 1] eq_refl
              ltac:(each_of_four_lanes))
    as (r & Hr & _ & Hl).
  exists r. split; [exact Hr|].
  change (Simd128Value.lanes_of Int32x4 r)
    with (List.map (Simd128Value.get_lane Int32x4 r) [0; 1; 2; 3]).
  cbn [List.map]. rewrite !Hl by (cbn [lane_count]; lia).
  vm_compute. reflexivity.
Defined.

(** Shuffling [(10, 20, 30, 40)] and [(1, 2, 3, 4)] by [(0, 4, 7, 3)]. *)
Lemma shuffle_selects_from_both_example :
  let a := Simd128Value.New Int32x4 [10; 20; 30; 40] in
  let b := Simd128Value.New Int32x4 [1; 2; 3; 4] in
  exists r,
    SIMD_SHUFFLE_FUNCTION Int32x4 a b [0; 4; 7; 3] = Ok r
    /\ Simd128Value.lanes_of Int32x4 r = [10; 1; 4; 40].
Proof.
  intros a b.
  destruct (shuffle_selects_from_both Int32x4 a b [0; 4; 7; 3] eq_refl eq_refl
              ltac:(each_of_four_lanes))
    as (r & Hr & _ & Hl).
  exists r. split; [exact Hr|].
  change (Simd128Value.lanes_of Int32x4 r)
    with (List.map (Simd128Value.get_lane Int32x4 r) [0; 1; 2; 3]).
  cbn [List.map]. rewrite !Hl by (cbn [lane_count]; lia).
  vm_compute. reflexivity.
Defined.

Lemma shuffle_of_one_operand_is_swizzle_example :
  let a := Simd128Value.New Int32x4 [10; 20; 30; 40] in
  let b := Simd128Value.New Int32x4 [1; 2; 3; 4] in
  SIMD_SHUFFLE_FUNCTION Int32x4 a b [3; 2; 1; 0]
  = SIMD_SWIZZLE_FUNCTION Int32x4 a [3; 2; 1; 0]
  /\ SIMD_SHUFFLE_FUNCTION Int32x4 a b [4; 6; 5; 7]
     = SIMD_SWIZZLE_FUNCTION Int32x4 b [0; 2; 1; 3].
Proof.
  intros a b. split.
  - apply (shuffle_of_one_operand_is_swizzle Int32x4 a b [3; 2; 1; 0]
             eq_refl eq_refl).
    each_of_four_lanes.
  - apply (proj2 (shuffle_of_one_operand_is_swizzle Int32x4 a b [4; 6; 5; 7]
                    eq_refl eq_refl)).
    each_of_four_lanes.
Defined.

Lemma swizzle_of_swizzle_example :
  let a := Simd128Value.New Int32x4 [10; 20; 30; 40] in
  exists r,
    SIMD_SWIZZLE_FUNCTION Int32x4 a [1; 2; 3; 0] = Ok r
    /\ SIMD_SWIZZLE_FUNCTION Int32x4 r [2; 2; 0; 1]
       = SIMD_SWIZZLE_FUNCTION Int32x4 a [3; 3; 1; 2].
Proof.
  intros a.
  exact (swizzle_of_swizzle Int32x4 a [1; 2; 3; 0] [2; 2; 0; 1] eq_refl
           ltac:(each_of_four_lanes) ltac:(each_of_four_lanes)).
Defined.

Lemma identity_swizzle_example :
  let a := Simd128Value.New Float32x4 [0x7FC00000; 0x80000000; 0x3F800000; 0] in
  SIMD_SWIZZLE_FUNCTION Float32x4 a [0; 1; 2; 3] = Ok a.
Proof.
  intros a.
  exact (identity_swizzle Float32x4 a ltac:(left; reflexivity) eq_refl).
Defined.

(** On [Bool32x4 (true, false, true, false)], [anyTrue] is true and
    [allTrue] is false. *)
Lemma any_true_all_true_example :
  let a := New_bool Bool32x4 [true; false; true; false] in
  SIMD_ANY_FUNCTION Bool32x4 a = Ok true
  /\ SIMD_ALL_FUNCTION Bool32x4 a = Ok false.
Proof.
  intros a.
  destruct (any_true_all_true_quantify Bool32x4 a ltac:(left; reflexivity) eq_refl)
    as (any & all & Hany & Hall & Iany & Iall).
  rewrite Hany, Hall. split; f_equal.
  - apply Iany. exists 0. split; [cbn [lane_count]; lia | vm_compute; reflexivity].
  - destruct all; [|reflexivity].
    assert (H : Simd128Value.get_lane_bool Bool32x4 a 1 = true)
      by (apply (proj1 Iall eq_refl); cbn [lane_count]; lia).
    vm_compute in H. discriminate H.
Defined.

Lemma all_true_any_true_duality_example :
  let a := New_bool Bool32x4 [true; false; true; false] in
  exists n any_n all_n,
    SIMD_NOT_FUNCTION_BOOL Bool32x4 a = Ok n
    /\ SIMD_ANY_FUNCTION Bool32x4 n = Ok any_n
    /\ SIMD_ALL_FUNCTION Bool32x4 n = Ok all_n
    /\ SIMD_ALL_FUNCTION Bool32x4 a = Ok (negb any_n)
    /\ SIMD_ANY_FUNCTION Bool32x4 a = Ok (negb all_n).
Proof.
  intros a.
  destruct (all_true_any_true_duality Bool32x4 a ltac:(left; reflexivity) eq_refl)
    as (n & any_a & all_a & any_n & all_n & Hn & H1 & H2 & H3 & H4 & -> & ->).
  exists n, any_n, all_n. auto.
Defined.

Lemma bool_de_morgan_example :
  let a := New_bool Bool32x4 [true; false; true; false] in
  let b := New_bool Bool32x4 [true; true; false; false] in
  exists na nb a_and_b,
    SIMD_NOT_FUNCTION_BOOL Bool32x4 a = Ok na
    /\ SIMD_NOT_FUNCTION_BOOL Bool32x4 b = Ok nb
    /\ SIMD_AND_FUNCTION_BOOL Bool32x4 a b = Ok a_and_b
    /\ SIMD_NOT_FUNCTION_BOOL Bool32x4 a_and_b = SIMD_OR_FUNCTION_BOOL Bool32x4 na nb.
Proof.
  intros a b.
  destruct (bool_de_morgan Bool32x4 a b ltac:(left; reflexivity) eq_refl eq_refl)
    as (na & nb & c & d & Hna & Hnb & Hc & _ & H & _).
  exists na, nb, c. auto.
Defined.

(** [Int32x4 (1, -2, 300, -32768)] survives the casts to float and back;
    [Int32x4 (0, 0, 0, INT32_MIN)] does not. *)
Lemma int32_float_cast_round_trip_example :
  let v := Simd128Value.New_int Int32x4 [1; -2; 300; -32768] in
  let u := Simd128Value.New_int Int32x4 [0; 0; 0; -2147483648] in
  (exists f,
     Runtime_Float32x4FromInt32x4 v = Ok f
     /\ Runtime_Int32x4FromFloat32x4 f = Ok v)
  /\ (exists f,
        Runtime_Float32x4FromInt32x4 u = Ok f
        /\ Runtime_Int32x4FromFloat32x4 f = Throw RangeError).
Proof.
  intros v u. split.
  - destruct (int32_float_cast_round_trip v eq_refl) as (f & Hf & _ & _ & Hok).
    exists f. split; [exact Hf|]. apply Hok. each_of_four_lanes.
  - destruct (int32_float_cast_round_trip u eq_refl) as (f & Hf & _ & Hthrow & _).
    exists f. split; [exact Hf|]. apply Hthrow.
    exists 3. split; [lia|]. left. vm_compute. discriminate.
Defined.

(** Selecting from [(10, 20, 30, 40)] and [(1, 2, 3, 4)] by the mask
    [(true, false, true, false)]. *)
Lemma select_lanes_example :
  let mask := New_bool Bool32x4 [true; false; true; false] in
  let a := Simd128Value.New Int32x4 [10; 20; 30; 40] in
  let b := Simd128Value.New Int32x4 [1; 2; 3; 4] in
  exists r,
    SIMD_SELECT_FUNCTION Int32x4 mask a b = Ok r
    /\ Simd128Value.lanes_of Int32x4 r = [10; 2; 30; 4].
Proof.
  intros mask a b.
  destruct (select_lanes Int32x4 mask a b ltac:(right; left; reflexivity)
              eq_refl eq_refl eq_refl)
    as (r & Hr & _ & Hl).
  exists r. split; [exact Hr|].
  change (Simd128Value.lanes_of Int32x4 r)
    with (List.map (Simd128Value.get_lane Int32x4 r) [0; 1; 2; 3]).
  cbn [List.map]. rewrite !Hl by (cbn [lane_count]; lia).
  vm_compute. reflexivity.
Defined.

Lemma select_of_negated_mask_example :
  let mask := New_bool Bool32x4 [true; false; true; false] in
  let a := Simd128Value.New Int32x4 [10; 20; 30; 40] in
  let b := Simd128Value.New Int32x4 [1; 2; 3; 4] in
  exists n,
    SIMD_NOT_FUNCTION_BOOL Bool32x4 mask = Ok n
    /\ SIMD_SELECT_FUNCTION Int32x4 n a b = SIMD_SELECT_FUNCTION Int32x4 mask b a
    /\ SIMD_SELECT_FUNCTION Int32x4 mask a a = Ok a.
Proof.
  intros mask a b.
  exact (select_of_negated_mask Int32x4 mask a b ltac:(right; left; reflexivity)
           eq_refl eq_refl eq_refl).
Defined.

(** [Int8x16]: 100 + 100 wraps to -56, and 100 - (-100) to -56. *)
Lemma int_arithmetic_lanes_example :
  let a := Simd128Value.New_int Int8x16 [100; 3] in
  let b := Simd128Value.New_int Int8x16 [100; 4] in
  exists s p,
    SIMD_ADD_FUNCTION Int8x16 a b = Ok s
    /\ SIMD_MUL_FUNCTION Int8x16 a b = Ok p
    /\ Simd128Value.get_lane_int Int8x16 s 0 = -56
    /\ Simd128Value.get_lane_int Int8x16 s 1 = 7
    /\ Simd128Value.get_lane_int Int8x16 p 0 = 16
    /\ Simd128Value.get_lane_int Int8x16 p 1 = 12.
Proof.
  intros a b.
  destruct (int_arithmetic_lanes Int8x16 a b
              ltac:(right; right; left; reflexivity) eq_refl eq_refl)
    as (n & s & d & p & _ & Hs & _ & Hp & Hl).
  exists s, p. split; [exact Hs|]. split; [exact Hp|].
  assert (Hsmall : In Int8x16 SIMD_SMALL_INT_TYPES) by (right; left; reflexivity).
  destruct (Hl 0 ltac:(cbn [lane_count]; lia)) as (_ & _ & _ & _ & H0).
  destruct (Hl 1 ltac:(cbn [lane_count]; lia)) as (_ & _ & _ & _ & H1).
  destruct (H0 Hsmall) as (_ & -> & _ & ->).
  destruct (H1 Hsmall) as (_ & -> & _ & ->).
  vm_compute. auto.
Defined.

Lemma add_then_sub_round_trip_example :
  let a := Simd128Value.New_int Int32x4 [10; -20; 30; 2147483647] in
  let b := Simd128Value.New_int Int32x4 [1; 2; -3; -4] in
  exists s,
    SIMD_ADD_FUNCTION Int32x4 a b = Ok s
    /\ SIMD_SUB_FUNCTION Int32x4 s b = Ok a.
Proof.
  intros a b.
  apply (add_then_sub_round_trip Int32x4 a b ltac:(left; reflexivity)
           eq_refl eq_refl).
  intros _. each_of_four_lanes.
Defined.

(** [Int8x16]: in lane 0, 100 + 100 wraps to -56 and saturates to 127; in
    lane 1, 3 + 4 is 7 either way. *)
Lemma wrapping_and_saturating_example :
  let a := Simd128Value.New_int Int8x16 [100; 3] in
  let b := Simd128Value.New_int Int8x16 [100; 4] in
  exists s ss,
    SIMD_ADD_FUNCTION Int8x16 a b = Ok s
    /\ Runtime_Int8x16AddSaturate a b = Ok ss
    /\ Simd128Value.get_lane_int Int8x16 s 0 <> Simd128Value.get_lane_int Int8x16 ss 0
    /\ Simd128Value.get_lane_int Int8x16 s 1 = Simd128Value.get_lane_int Int8x16 ss 1.
Proof.
  intros a b.
  destruct (proj1 (wrapping_and_saturating_agree a b) eq_refl eq_refl)
    as (s & d & ss & sd & Hs & _ & Hss & _ & Hl).
  exists s, ss. split; [exact Hs|]. split; [exact Hss|].
  split.
  - intros H. apply (proj1 (Hl 0 ltac:(lia))) in H.
    vm_compute in H. destruct H as [_ H]. apply H. reflexivity.
  - apply (proj1 (Hl 1 ltac:(lia))). vm_compute. easy.
Defined.

Lemma int_logical_lanes_example :
  let a := Simd128Value.New_int Int32x4 [12; -1; 0; 5] in
  let b := Simd128Value.New_int Int32x4 [10; 7; -8; 5] in
  exists c x n,
    SIMD_AND_FUNCTION Int32x4 a b = Ok c
    /\ SIMD_XOR_FUNCTION Int32x4 a b = Ok x
    /\ SIMD_NOT_FUNCTION Int32x4 a = Ok n
    /\ Simd128Value.get_lane_int Int32x4 c 0 = 8
    /\ Simd128Value.get_lane_int Int32x4 x 0 = 6
    /\ Simd128Value.get_lane_int Int32x4 n 0 = -13.
Proof.
  intros a b.
  destruct (int_logical_lanes Int32x4 a b ltac:(left; reflexivity) eq_refl eq_refl)
    as (c & d & x & n & Hc & _ & Hx & Hn & Hl).
  exists c, x, n. do 3 (split; [assumption|]).
  destruct (Hl 0 ltac:(cbn [lane_count]; lia)) as (-> & _ & -> & ->).
  vm_compute. auto.
Defined.

Lemma int_logical_laws_example :
  let a := Simd128Value.New_int Int32x4 [12; -1; 0; 5] in
  let b := Simd128Value.New_int Int32x4 [10; 7; -8; 5] in
  exists na x,
    SIMD_NOT_FUNCTION Int32x4 a = Ok na
    /\ SIMD_XOR_FUNCTION Int32x4 a b = Ok x
    /\ SIMD_NOT_FUNCTION Int32x4 na = Ok a
    /\ SIMD_XOR_FUNCTION Int32x4 x b = Ok a.
Proof.
  intros a b.
  destruct (int_logical_laws Int32x4 a b ltac:(left; reflexivity) eq_refl eq_refl)
    as (na & nb & x & c & Hna & _ & Hx & _ & H1 & H2 & _).
  exists na, x. auto.
Defined.

(** [Float32x4 (NaN, -0, 1.0, -2.0)] and [(1.0, +0, NaN, 3.0)]. *)
Lemma float_min_max_commute_example :
  let a := Simd128Value.New Float32x4 [0x7FC00000; 0x80000000; 0x3F800000; 0xC0000000] in
  let b := Simd128Value.New Float32x4 [0x3F800000; 0; 0x7F800001; 0x40400000] in
  Runtime_Float32x4Min a b = Runtime_Float32x4Min b a
  /\ Runtime_Float32x4Max a b = Runtime_Float32x4Max b a.
Proof.
  intros a b. exact (float_min_max_commute a b eq_refl eq_refl).
Defined.

(** In lane 1, [min (-0, +0)] is [-0] and [max] is [+0]; in lane 3,
    [min (-2.0, 3.0)] is [-2.0] and [max] is [3.0]. *)
Lemma float_min_max_keep_both_example :
  let a := Simd128Value.New Float32x4 [0x7FC00000; 0x80000000; 0x3F800000; 0xC0000000] in
  let b := Simd128Value.New Float32x4 [0x3F800000; 0; 0x7F800001; 0x40400000] in
  exists lo hi,
    Runtime_Float32x4Min a b = Ok lo
    /\ Runtime_Float32x4Max a b = Ok hi
    /\ ((Simd128Value.get_lane_float lo 3 = 0xC0000000
         /\ Simd128Value.get_lane_float hi 3 = 0x40400000)
        \/ (Simd128Value.get_lane_float lo 3 = 0x40400000
            /\ Simd128Value.get_lane_float hi 3 = 0xC0000000)).
Proof.
  intros a b.
  destruct (float_min_max_keep_both a b eq_refl eq_refl)
    as (lo & hi & Hlo & Hhi & Hl).
  exists lo, hi. split; [exact Hlo|]. split; [exact Hhi|].
  exact (Hl 3 ltac:(lia) eq_refl eq_refl).
Defined.

(** [minNum] of [(NaN, -0, 1.0, -2.0)] and [(1.0, +0, NaN, 3.0)] is
    [(1.0, ., 1.0, .)] in the lanes with a NaN. *)
Lemma min_num_max_num_lanes_example :
  let a := Simd128Value.New Float32x4 [0x7FC00000; 0x80000000; 0x3F800000; 0xC0000000] in
  let b := Simd128Value.New Float32x4 [0x3F800000; 0; 0x7F800001; 0x40400000] in
  exists lo_num hi_num,
    Runtime_Float32x4MinNum a b = Ok lo_num
    /\ Runtime_Float32x4MaxNum a b = Ok hi_num
    /\ Simd128Value.get_lane_float lo_num 0 = 0x3F800000
    /\ Simd128Value.get_lane_float hi_num 2 = 0x3F800000.
Proof.
  intros a b.
  destruct (min_num_max_num_lanes a b eq_refl eq_refl)
    as (lo & hi & lo_num & hi_num & _ & _ & Hlo & Hhi & Hl).
  exists lo_num, hi_num. split; [exact Hlo|]. split; [exact Hhi|].
  split.
  - exact (proj1 (proj1 (Hl 0 ltac:(lia)) eq_refl)).
  - exact (proj2 (proj1 (proj2 (Hl 2 ltac:(lia))) eq_refl eq_refl)).
Defined.

Lemma relational_swap_example :
  let a := Simd128Value.New Float32x4 [0x7FC00000; 0x80000000; 0x3F800000; 0xC0000000] in
  let b := Simd128Value.New Float32x4 [0x3F800000; 0; 0x7F800001; 0x40400000] in
  SIMD_RELATIONAL_FUNCTION LT Float32x4 a b = SIMD_RELATIONAL_FUNCTION GT Float32x4 b a
  /\ SIMD_RELATIONAL_FUNCTION LE Float32x4 a b
     = SIMD_RELATIONAL_FUNCTION GE Float32x4 b a.
Proof.
  intros a b.
  destruct (relational_swap Float32x4 a b ltac:(left; reflexivity) eq_refl eq_refl)
    as (H1 & H2 & _).
  auto.
Defined.

(** [(NaN, -0, 1.0, -2.0) <= (1.0, +0, NaN, 3.0)] is
    [(false, true, false, true)]. *)
Lemma float_relational_lanes_example :
  let a := Simd128Value.New Float32x4 [0x7FC00000; 0x80000000; 0x3F800000; 0xC0000000] in
  let b := Simd128Value.New Float32x4 [0x3F800000; 0; 0x7F800001; 0x40400000] in
  exists r,
    SIMD_RELATIONAL_FUNCTION LE Float32x4 a b = Ok r
    /\ Simd128Value.get_lane_bool Bool32x4 r 0 = false
    /\ Simd128Value.get_lane_bool Bool32x4 r 1 = true
    /\ Simd128Value.get_lane_bool Bool32x4 r 2 = false
    /\ Simd128Value.get_lane_bool Bool32x4 r 3 = true.
Proof.
  intros a b.
  destruct (float_relational_lanes LE a b eq_refl eq_refl) as (r & Hr & _ & Hl).
  exists r. split; [exact Hr|].
  split; [|split; [|split]].
  - exact (proj1 (Hl 0 ltac:(lia)) (or_introl eq_refl)).
  - exact (proj2 (Hl 1 ltac:(lia)) eq_refl eq_refl).
  - exact (proj1 (Hl 2 ltac:(lia)) (or_intror eq_refl)).
  - exact (proj2 (Hl 3 ltac:(lia)) eq_refl eq_refl).
Defined.

Lemma relational_complements_example :
  let a := Simd128Value.New Int32x4 [10; 20; 30; 40] in
  let b := Simd128Value.New Int32x4 [10; 2; 33; 4] in
  exists eq lt,
    SIMD_RELATIONAL_FUNCTION EQ Int32x4 a b = Ok eq
    /\ SIMD_RELATIONAL_FUNCTION LT Int32x4 a b = Ok lt
    /\ SIMD_RELATIONAL_FUNCTION NE Int32x4 a b = SIMD_NOT_FUNCTION_BOOL Bool32x4 eq
    /\ SIMD_RELATIONAL_FUNCTION GE Int32x4 a b = SIMD_NOT_FUNCTION_BOOL Bool32x4 lt.
Proof.
  intros a b.
  destruct (relational_complements Int32x4 a b ltac:(right; left; reflexivity)
              eq_refl eq_refl)
    as (eq & Heq & Hne & Hint).
  destruct (Hint ltac:(left; reflexivity)) as (lt & gt & Hlt & _ & Hge & _).
  exists eq, lt. auto.
Defined.

(** The lane -1 of an [Int16x8] extracts as 65535 unsigned. *)
Lemma unsigned_extract_lane_example :
  let a := Simd128Value.New_int Int16x8 [5; -1] in
  SIMD_EXTRACT_FUNCTION Int16x8 a 1 = Ok (NewNumber_int (-1))
  /\ Runtime_Int16x8UnsignedExtractLane a 1 = Ok (NewNumber_int 65535).
Proof.
  intros a.
  destruct (proj1 (unsigned_extract_lane a 1) eq_refl ltac:(lia))
    as (s & u & Hs & Hu & _ & Hslot & _).
  rewrite Hs, Hu. subst u.
  injection Hs as <-. vm_compute. auto.
Defined.

Lemma small_int_min_max_exact_example :
  let a := Simd128Value.New_int Int16x8 [5; -32768] in
  let b := Simd128Value.New_int Int16x8 [-7; 32767] in
  exists lo hi,
    Runtime_Int16x8Min a b = Ok lo
    /\ Runtime_Int16x8Max a b = Ok hi
    /\ Simd128Value.get_lane_int Int16x8 lo 0 = -7
    /\ Simd128Value.get_lane_int Int16x8 hi 0 = 5
    /\ Simd128Value.get_lane_int Int16x8 lo 1 = -32768
    /\ Simd128Value.get_lane_int Int16x8 hi 1 = 32767.
Proof.
  intros a b.
  destruct (proj1 (small_int_min_max_exact a b) eq_refl eq_refl)
    as (lo & hi & Hlo & Hhi & Hl).
  exists lo, hi. split; [exact Hlo|]. split; [exact Hhi|].
  destruct (Hl 0 ltac:(lia)) as [-> ->].
  destruct (Hl 1 ltac:(lia)) as [-> ->].
  vm_compute. auto.
Defined.

Lemma select_by_comparison_example :
  let a := Simd128Value.New_int Int16x8 [5; -32768] in
  let b := Simd128Value.New_int Int16x8 [-7; 32767] in
  exists lt,
    SIMD_RELATIONAL_FUNCTION LT Int16x8 a b = Ok lt
    /\ SIMD_SELECT_FUNCTION Int16x8 lt a b = Runtime_Int16x8Min a b.
Proof.
  intros a b.
  destruct (proj1 (select_by_comparison_is_min_max a b) eq_refl eq_refl)
    as (lt & gt & Hlt & _ & Hmin & _).
  exists lt. auto.
Defined.

(** Creating an [Int32x4] from the numbers 10, 20, 30, 40 and extracting
    lane 2. *)
Lemma create_then_extract_example :
  exists v,
    SIMD_CREATE_FUNCTION ExampleHost.Object ExampleHost.double
      ExampleHost.IsNumber ExampleHost.Number ExampleHost.BooleanValue
      ExampleHost.DoubleToFloat32 ExampleHost.DoubleToInt32
      Int32x4 (fun i => 10 * (i + 1)) = Ok v
    /\ SIMD_EXTRACT_FUNCTION Int32x4 v 2 = Ok (NewNumber_int 30).
Proof.
  destruct (create_then_extract ExampleHost.Object ExampleHost.double
              ExampleHost.IsNumber ExampleHost.Number ExampleHost.BooleanValue
              ExampleHost.DoubleToFloat32 ExampleHost.DoubleToInt32
              Int32x4 (fun i => 10 * (i + 1))
              ltac:(intros _ i _; reflexivity))
    as (v & Hv & _ & Hl).
  exists v. split; [exact Hv|].
  destruct (Hl 2 ltac:(cbn [lane_count]; lia)) as (x & Hx & He).
  vm_compute in Hx. injection Hx as <-. exact He.
Defined.

(** With a host where [None] is not a number, creating an [Int32x4] with
    such an argument fails, and so does replacing a lane by it. *)
Lemma numeric_lane_must_be_number_example :
  let v := Simd128Value.New Int32x4 [10; 20; 30; 40] in
  SIMD_CREATE_FUNCTION PartialHost.Object PartialHost.double
    PartialHost.IsNumber PartialHost.Number PartialHost.BooleanValue
    PartialHost.DoubleToFloat32 PartialHost.DoubleToInt32
    Int32x4 (fun i => if i =? 2 then None else Some i) = Throw TypeError
  /\ SIMD_REPLACE_FUNCTION PartialHost.Object PartialHost.double
       PartialHost.IsNumber PartialHost.Number PartialHost.BooleanValue
       PartialHost.DoubleToFloat32 PartialHost.DoubleToInt32
       Int32x4 v 0 None = Throw TypeError.
Proof.
  intros v.
  destruct (numeric_lane_must_be_number PartialHost.Object PartialHost.double
              PartialHost.IsNumber PartialHost.Number PartialHost.BooleanValue
              PartialHost.DoubleToFloat32 PartialHost.DoubleToInt32
              Int32x4 (fun i => if i =? 2 then None else Some i) v 0 2 None
              ltac:(right; left; reflexivity))
    as [Hc Hr].
  split.
  - apply Hc; [cbn [lane_count]; lia | reflexivity].
  - apply Hr; [reflexivity | cbn [lane_count]; lia | reflexivity].
Defined.

Lemma replace_lane_of_created_example :
  exists v,
    SIMD_CREATE_FUNCTION ExampleHost.Object ExampleHost.double
      ExampleHost.IsNumber ExampleHost.Number ExampleHost.BooleanValue
      ExampleHost.DoubleToFloat32 ExampleHost.DoubleToInt32
      Int32x4 (fun i => 10 * (i + 1)) = Ok v
    /\ SIMD_REPLACE_FUNCTION ExampleHost.Object ExampleHost.double
         ExampleHost.IsNumber ExampleHost.Number ExampleHost.BooleanValue
         ExampleHost.DoubleToFloat32 ExampleHost.DoubleToInt32
         Int32x4 v 1 7
       = SIMD_CREATE_FUNCTION ExampleHost.Object ExampleHost.double
           ExampleHost.IsNumber ExampleHost.Number ExampleHost.BooleanValue
           ExampleHost.DoubleToFloat32 ExampleHost.DoubleToInt32
           Int32x4 (fun i => if i =? 1 then 7 else 10 * (i + 1)).
Proof.
  eexists. split; [reflexivity|].
  apply (replace_lane_of_created ExampleHost.Object ExampleHost.double
           ExampleHost.IsNumber ExampleHost.Number ExampleHost.BooleanValue
           ExampleHost.DoubleToFloat32 ExampleHost.DoubleToInt32
           Int32x4 (fun i => 10 * (i + 1))).
  - reflexivity.
  - cbn [lane_count]. lia.
Defined.

Lemma replace_lane_twice_example :
  let v := Simd128Value.New Int32x4 [10; 20; 30; 40] in
  exists vx vy,
    SIMD_REPLACE_FUNCTION ExampleHost.Object ExampleHost.double
      ExampleHost.IsNumber ExampleHost.Number ExampleHost.BooleanValue
      ExampleHost.DoubleToFloat32 ExampleHost.DoubleToInt32 Int32x4 v 1 7 = Ok vx
    /\ SIMD_REPLACE_FUNCTION ExampleHost.Object ExampleHost.double
         ExampleHost.IsNumber ExampleHost.Number ExampleHost.BooleanValue
         ExampleHost.DoubleToFloat32 ExampleHost.DoubleToInt32 Int32x4 v 3 9 = Ok vy
    /\ SIMD_REPLACE_FUNCTION ExampleHost.Object ExampleHost.double
         ExampleHost.IsNumber ExampleHost.Number ExampleHost.BooleanValue
         ExampleHost.DoubleToFloat32 ExampleHost.DoubleToInt32 Int32x4 vx 3 9
       = SIMD_REPLACE_FUNCTION ExampleHost.Object ExampleHost.double
           ExampleHost.IsNumber ExampleHost.Number ExampleHost.BooleanValue
           ExampleHost.DoubleToFloat32 ExampleHost.DoubleToInt32 Int32x4 vy 1 7.
Proof.
  intros v.
  destruct (replace_lane_twice ExampleHost.Object ExampleHost.double
              ExampleHost.IsNumber ExampleHost.Number ExampleHost.BooleanValue
              ExampleHost.DoubleToFloat32 ExampleHost.DoubleToInt32
              Int32x4 v 1 3 7 9 eq_refl
              ltac:(cbn [lane_count]; lia) ltac:(cbn [lane_count]; lia)
              ltac:(intros _; split; reflexivity))
    as (vx & vy & Hx & Hy & _ & Hne).
  exists vx, vy. split; [exact Hx|]. split; [exact Hy|].
  apply Hne. lia.
Defined.

(** Negating [Float32x4 (NaN, -0, 1.0, -2.0)] gives [+0] in lane 1 and
    [-1.0] in lane 2. *)
Lemma float_neg_flips_sign_example :
  let a := Simd128Value.New Float32x4 [0x7FC00000; 0x80000000; 0x3F800000; 0xC0000000] in
  exists n,
    Runtime_Float32x4Neg a = Ok n
    /\ Runtime_Float32x4Neg n = Ok a
    /\ Simd128Value.get_lane_float n 1 = 0
    /\ Simd128Value.get_lane_float n 2 = 0xBF800000.
Proof.
  intros a.
  destruct (float_neg_flips_sign a eq_refl) as (n & Hn & Hnn & _ & Hl).
  exists n. split; [exact Hn|]. split; [exact Hnn|].
  rewrite (Hl 1 ltac:(lia)), (Hl 2 ltac:(lia)).
  vm_compute. auto.
Defined.
